(** * TipitakaAi: retrieval-augmented query engine and model lifecycle

    A shallow embedding of the TypeScript services of the application,

    - [ModelManager]       src/services/core/ModelManager.ts
    - [DatabaseService]    services/core/DatabaseService.ts (unnamed/part_003)
    - [RAGEngine]          services/ai/RAGEngine.ts         (unnamed/part_002)
    - [VoicePipeline]      the voice pipeline class         (unnamed/part_001)
    - [DocumentProcessor]  the document processor           (unnamed/part_004)
    - [ASRService]         the speech recogniser   (src/services/index.ts)

    followed by the properties of the specification that were checked
    against them.  Part I holds the embedding, Part II the proofs of the
    specification's properties, Part III further properties of the
    same code; what the specification says of a response's citations
    and confidence is proved there too, on top of the token budget. *)

From Stdlib Require Import String Ascii List ZArith NArith Bool Lia.
From Stdlib Require Import DecimalString.
From Stdlib Require Import Floats.
From Stdlib Require Import Sorted.
Import ListNotations.

Set Implicit Arguments.

(* ================================================================== *)
(** * Part I.  The embedding                                           *)
(* ================================================================== *)

(** ** JavaScript preliminaries *)

(** The outcome of a call that may [throw new Error(msg)]. *)
Inductive result (A : Type) : Type :=
| Ok (a : A)
| Throw (msg : string).
Arguments Ok {A} a.
Arguments Throw {A} msg.

(** A JavaScript [Map<string, V>]: the entries in insertion order.
    [set] on a key already present replaces the value in place, on a
    new key it appends; iteration follows insertion order. *)
Module JSMap.

Definition t (V : Type) : Type := list (string * V).

Fixpoint get {V} (k : string) (m : t V) : option V :=
  match m with
  | [] => None
  | (k', v) :: rest => if String.eqb k k' then Some v else get k rest
  end.

Definition has {V} (k : string) (m : t V) : bool :=
  match get k m with Some _ => true | None => false end.

Fixpoint set {V} (k : string) (v : V) (m : t V) : t V :=
  match m with
  | [] => [(k, v)]
  | (k', v') :: rest =>
      if String.eqb k k' then (k', v) :: rest else (k', v') :: set k v rest
  end.

Fixpoint delete {V} (k : string) (m : t V) : t V :=
  match m with
  | [] => []
  | (k', v') :: rest =>
      if String.eqb k k' then rest else (k', v') :: delete k rest
  end.

Definition values {V} (m : t V) : list V := map snd m.

Definition keys {V} (m : t V) : list string := map fst m.

End JSMap.

(* ------------------------------------------------------------------ *)
(** ** ModelManager.ts *)
(* ------------------------------------------------------------------ *)

Module ModelManager.

Open Scope string_scope.
Open Scope Z_scope.

(** [ModelInfo['type']] *)
Inductive ModelType : Type := llm | asr | tts.

Definition ModelType_eqb (a b : ModelType) : bool :=
  match a, b with
  | llm, llm | asr, asr | tts, tts => true
  | _, _ => false
  end.

(** [interface ModelInfo] of types/index.ts *)
Record ModelInfo : Type := mkModelInfo {
  id : string;
  name : string;
  type : ModelType;
  sizeMB : Z;
  ramRequiredMB : Z;
  path : string;
  downloaded : bool;
  loaded : bool
}.

Definition set_downloaded (b : bool) (m : ModelInfo) : ModelInfo :=
  mkModelInfo (id m) (name m) (type m) (sizeMB m) (ramRequiredMB m)
              (path m) b (loaded m).

Definition set_loaded (b : bool) (m : ModelInfo) : ModelInfo :=
  mkModelInfo (id m) (name m) (type m) (sizeMB m) (ramRequiredMB m)
              (path m) (downloaded m) b.

Definition MODELS_CONFIG : list ModelInfo :=
  [ mkModelInfo "llama-3.2-1b-thai" "Llama 3.2 1B (Thai-ready)" llm
      600 800 "models/llm/llama-3.2-1b-q4.pte" false false;
    mkModelInfo "whisper-small-thai" "Whisper Small Thai" asr
      244 500 "models/asr/whisper-small-thai.pte" false false;
    mkModelInfo "whisper-tiny-thai" "Whisper Tiny Thai" asr
      39 150 "models/asr/whisper-tiny-thai.pte" false false;
    mkModelInfo "vits-thai-female" "VITS Thai Female" tts
      25 100 "models/tts/vits-thai-female.pte" false false;
    mkModelInfo "vits-thai-male-monk" "VITS Thai Male (Monk voice)" tts
      25 100 "models/tts/vits-thai-male-monk.pte" false false ].

(** What [loadModel] hands back: [null], or whatever object sits in
    the private [loadedModels] map. *)
Inductive JSValue : Type :=
| JSnull
| JSobject (ref : nat).

(** The fields of [class ModelManager]. *)
Record State : Type := mkState {
  models : JSMap.t ModelInfo;
  loadedModels : JSMap.t JSValue;
  initialized : bool
}.

(** The methods mutate [this] and may throw: a state-and-error monad.
    A throw keeps the mutations made before it. *)
Definition M (A : Type) : Type := State -> result A * State.

Definition ret {A} (a : A) : M A := fun s => (Ok a, s).

Definition throw {A} (msg : string) : M A := fun s => (Throw msg, s).

Definition bind {A B} (c : M A) (k : A -> M B) : M B :=
  fun s =>
    match c s with
    | (Ok a, s') => k a s'
    | (Throw msg, s') => (Throw msg, s')
    end.

Definition gets {A} (f : State -> A) : M A := fun s => (Ok (f s), s).

Definition modify (f : State -> State) : M unit := fun s => (Ok tt, f s).

Notation "x <- c ;; k" := (bind c (fun x => k))
  (at level 61, c at next level, right associativity).
Notation "c ;;; k" := (bind c (fun _ => k))
  (at level 61, right associativity).

Definition models_set (k : string) (v : ModelInfo) : M unit :=
  modify (fun s => mkState (JSMap.set k v (models s)) (loadedModels s)
                           (initialized s)).

Definition loadedModels_delete (k : string) : M unit :=
  modify (fun s => mkState (models s) (JSMap.delete k (loadedModels s))
                           (initialized s)).

(** [constructor()]: the registry is filled from [MODELS_CONFIG]. *)
Definition new_ModelManager : State :=
  mkState
    (fold_left (fun m model => JSMap.set (id model) model m) MODELS_CONFIG [])
    [] false.

(** [initialize()].  [file_exists] stands for the file system:
    [FileSystem.exists] of the model's full path. *)
Fixpoint initialize_loop (file_exists : string -> bool) (ids : list string)
  : M unit :=
  match ids with
  | [] => ret tt
  | k :: rest =>
      om <- gets (fun s => JSMap.get k (models s)) ;;
      match om with
      | None => initialize_loop file_exists rest
      | Some model =>
          models_set k (set_downloaded (file_exists (path model)) model) ;;;
          initialize_loop file_exists rest
      end
  end.

Definition initialize (file_exists : string -> bool) : M unit :=
  already <- gets initialized ;;
  if already then ret tt
  else
    ids <- gets (fun s => JSMap.keys (models s)) ;;
    initialize_loop file_exists ids ;;;
    modify (fun s => mkState (models s) (loadedModels s) true).

(** [getModel(id)] *)
Definition getModel (modelId : string) : M (option ModelInfo) :=
  gets (fun s => JSMap.get modelId (models s)).

(** [unloadModel(modelId)] *)
Definition unloadModel (modelId : string) : M unit :=
  om <- getModel modelId ;;
  match om with
  | None => ret tt
  | Some model =>
      loadedModels_delete modelId ;;;
      models_set modelId (set_loaded false model)
  end.

(** [downloadModel(modelId, url)]; [statusCode] is what the download
    answered. *)
Definition downloadModel (modelId : string) (statusCode : Z) : M unit :=
  om <- getModel modelId ;;
  match om with
  | None => throw ("Model " ++ modelId ++ " not found")
  | Some model =>
      if statusCode =? 200
      then models_set modelId (set_downloaded true model)
      else throw ("Download failed with status "
                  ++ NilZero.string_of_int (Z.to_int statusCode))
  end.

(** [deleteModel(modelId)] *)
Definition deleteModel (modelId : string) : M unit :=
  om <- getModel modelId ;;
  match om with
  | None => throw ("Model " ++ modelId ++ " not found")
  | Some model =>
      (if loaded model then unloadModel modelId else ret tt) ;;;
      om' <- getModel modelId ;;
      match om' with
      | None => ret tt
      | Some model' => models_set modelId (set_downloaded false model')
      end
  end.

(** [isModelLoaded(modelId)] and [isModelDownloaded(modelId)] *)
Definition isModelLoaded (modelId : string) (s : State) : bool :=
  match JSMap.get modelId (models s) with
  | Some model => loaded model
  | None => false
  end.

Definition isModelDownloaded (modelId : string) (s : State) : bool :=
  match JSMap.get modelId (models s) with
  | Some model => downloaded model
  | None => false
  end.

(** [getLoadedModelsRAM()] *)
Definition getLoadedModelsRAM (s : State) : Z :=
  fold_left
    (fun total model =>
       if loaded model then total + ramRequiredMB model else total)
    (JSMap.values (models s)) 0.

(** [evictModels(requiredMB)]: the [for ... of this.models] loop.  The
    entry's model object is the live one, so its [loaded] flag is read
    from the current state. *)
Fixpoint evictModels_loop (ids : list string) (requiredMB freed : Z)
  : M unit :=
  match ids with
  | [] => ret tt
  | k :: rest =>
      if freed >=? requiredMB then ret tt
      else
        om <- getModel k ;;
        match om with
        | None => evictModels_loop rest requiredMB freed
        | Some model =>
            if loaded model && negb (ModelType_eqb (type model) llm)
            then
              unloadModel k ;;;
              evictModels_loop rest requiredMB (freed + ramRequiredMB model)
            else evictModels_loop rest requiredMB freed
        end
  end.

Definition evictModels (requiredMB : Z) : M unit :=
  ids <- gets (fun s => JSMap.keys (models s)) ;;
  evictModels_loop ids requiredMB 0.

(** [ensureMemoryAvailable(requiredMB)] *)
Definition maxRAM : Z := 4096.

Definition ensureMemoryAvailable (requiredMB : Z) : M unit :=
  currentlyUsed <- gets getLoadedModelsRAM ;;
  let available := maxRAM - currentlyUsed in
  if available <? requiredMB
  then evictModels (requiredMB - available)
  else ret tt.

(** [loadModel(modelId)] *)
Definition loadModel (modelId : string) : M JSValue :=
  om <- getModel modelId ;;
  match om with
  | None => throw ("Model " ++ modelId ++ " not found")
  | Some model =>
      if negb (downloaded model)
      then throw ("Model " ++ modelId ++ " not downloaded")
      else
        cached <- gets (fun s => JSMap.get modelId (loadedModels s)) ;;
        match loaded model, cached with
        | true, Some handle => ret handle
        | _, _ =>
            ensureMemoryAvailable (ramRequiredMB model) ;;;
            (* [model] is the object the map holds: eviction may have
               cleared its flag meanwhile *)
            om' <- getModel modelId ;;
            match om' with
            | None => ret JSnull
            | Some model' =>
                models_set modelId (set_loaded true model') ;;;
                ret JSnull
            end
        end
  end.

(** The calls a client can make, and a run of them. *)
Inductive Call : Type :=
| CallInitialize (file_exists : string -> bool)
| CallDownloadModel (modelId : string) (statusCode : Z)
| CallDeleteModel (modelId : string)
| CallLoadModel (modelId : string)
| CallUnloadModel (modelId : string).

Definition run_call (c : Call) (s : State) : State :=
  match c with
  | CallInitialize fe => snd (initialize fe s)
  | CallDownloadModel k code => snd (downloadModel k code s)
  | CallDeleteModel k => snd (deleteModel k s)
  | CallLoadModel k => snd (loadModel k s)
  | CallUnloadModel k => snd (unloadModel k s)
  end.

Definition run_calls (cs : list Call) (s : State) : State :=
  fold_left (fun st c => run_call c st) cs s.

End ModelManager.

(* ------------------------------------------------------------------ *)
(** ** JavaScript numbers and strings *)
(* ------------------------------------------------------------------ *)

(** The arithmetic the services use on [number]s.  The code is written
    once over this interface; the engine computes at IEEE binary64
    ([float]), the instance every numeric statement below is about. *)
Class JSNumber (num : Type) : Type := {
  of_Z : Z -> num;
  num_add : num -> num -> num;
  num_sub : num -> num -> num;
  num_mul : num -> num -> num;
  num_div : num -> num -> num;
  Math_sqrt : num -> num;
  Math_min : num -> num -> num;
  Math_fround : num -> num;
  num_geb : num -> num -> bool;
  num_gtb : num -> num -> bool;
  truthy : num -> bool
}.

Declare Scope js_scope.
Delimit Scope js_scope with js.
Notation "a + b" := (num_add a b) : js_scope.
Notation "a - b" := (num_sub a b) : js_scope.
Notation "a * b" := (num_mul a b) : js_scope.
Notation "a / b" := (num_div a b) : js_scope.
Notation "a >=? b" := (num_geb a b) (at level 70) : js_scope.
Notation "a >? b" := (num_gtb a b) (at level 70) : js_scope.

Module Float64.

Open Scope float_scope.

Definition float_of_Z (z : Z) : float :=
  match z with
  | Z0 => 0
  | Zpos _ => of_uint63 (Uint63.of_Z z)
  | Zneg p => - of_uint63 (Uint63.of_Z (Zpos p))
  end.

(** [Math.min]: NaN if either is NaN, and [-0] below [+0]. *)
Definition float_min (x y : float) : float :=
  if is_nan x || is_nan y then nan
  else if x <? y then x
  else if y <? x then y
  else if get_sign x then x else y.

(** [Math.fround], the value a [Float32Array] cell keeps: round to
    nearest even at 24 bits, overflowing to an infinity. *)
Definition float_fround (x : float) : float :=
  match Prim2SF x with
  | S754_finite s m e =>
      SF2Prim (binary_normalize 24 128 (cond_Zopp s (Z.pos m)) e s)
  | _ => x
  end.

#[export] Instance float_JSNumber : JSNumber float := {
  of_Z := float_of_Z;
  num_add := PrimFloat.add;
  num_sub := PrimFloat.sub;
  num_mul := PrimFloat.mul;
  num_div := PrimFloat.div;
  Math_sqrt := PrimFloat.sqrt;
  Math_min := float_min;
  Math_fround := float_fround;
  num_geb := fun x y => PrimFloat.leb y x;
  num_gtb := fun x y => PrimFloat.ltb y x;
  truthy := fun x => negb (is_zero x || is_nan x)
}.

End Float64.

(** A JavaScript string: its UTF-16 code units. *)
Definition JSString : Type := list N.

Definition str (s : string) : JSString :=
  map N_of_ascii (list_ascii_of_string s).

Fixpoint JSString_eqb (a b : JSString) : bool :=
  match a, b with
  | [], [] => true
  | x :: a', y :: b' => N.eqb x y && JSString_eqb a' b'
  | _, _ => false
  end.

(** [String(n)] of an integer. *)
Definition Number_toString (n : Z) : JSString :=
  str (NilZero.string_of_int (Z.to_int n)).

(** JavaScript arrays are lists here. *)
Module JSArray.

(** [a.join(sep)] *)
Fixpoint join (sep : JSString) (a : list JSString) : JSString :=
  match a with
  | [] => []
  | [x] => x
  | x :: rest => x ++ sep ++ join sep rest
  end.

(** [a.slice(0, n)] for a count [n] *)
Definition slice0 {A} (n : nat) (a : list A) : list A := firstn n a.

(** [a.includes(x)] on strings *)
Definition includes (x : JSString) (a : list JSString) : bool :=
  existsb (JSString_eqb x) a.

Section Sort.
Context {num : Type} `{JSNumber num} {A : Type}.
Variable comparefn : A -> A -> num.

(** [a.sort(comparefn)].  The sort is stable (ECMAScript 2019) and an
    element moves behind another only when the comparator's answer is
    positive, a NaN answer counting as [+0]; for a consistent
    comparator the outcome is that of the stable insertion sort. *)
Fixpoint sort_insert (x : A) (sorted : list A) : list A :=
  match sorted with
  | [] => [x]
  | y :: rest =>
      if (comparefn x y >? of_Z 0)%js then y :: sort_insert x rest
      else x :: sorted
  end.

Definition sort (a : list A) : list A := fold_right sort_insert [] a.

End Sort.

End JSArray.

(* ------------------------------------------------------------------ *)
(** ** types/index.ts *)
(* ------------------------------------------------------------------ *)

Inductive PitakaType : Type := sutta | vinaya | abhidhamma.

Definition PitakaType_str (p : PitakaType) : JSString :=
  match p with
  | sutta => str "sutta"
  | vinaya => str "vinaya"
  | abhidhamma => str "abhidhamma"
  end.

Module SuttaMeta.
Record t : Type := mk {
  id : JSString;
  sutta_id : JSString;
  title_thai : JSString;
  title_pali : JSString;
  pitaka : JSString;
  nikaya : JSString
}.
End SuttaMeta.

Module VectorSearchResult.
Record t (num : Type) : Type := mk {
  id : JSString;
  title : JSString;
  content : JSString;
  score : num;
  distance : num;
  metadata : SuttaMeta.t
}.
End VectorSearchResult.

Module Citation.
Record t (num : Type) : Type := mk {
  suttaId : JSString;
  title : JSString;
  content : JSString;
  relevance : num
}.
End Citation.

Module QueryFilters.
Record t : Type := mk {
  pitaka : option (list PitakaType);
  nikaya : option (list JSString);
  userDocumentsOnly : option bool
}.
End QueryFilters.

Module RAGQuery.
Record t (num : Type) : Type := mk {
  question : JSString;
  topK : option nat;
  threshold : option num;
  filters : option QueryFilters.t
}.
End RAGQuery.

Module RAGResponse.
Record t (num : Type) : Type := mk {
  answer : JSString;
  sources : list (Citation.t num);
  confidence : num;
  processingTime : Z
}.
End RAGResponse.

(* ------------------------------------------------------------------ *)
(** ** DatabaseService.ts *)
(* ------------------------------------------------------------------ *)

Module DatabaseService.

(** The rows of the four tables the vector operations touch, with the
    columns they read or write.  An embedding blob is kept as the
    [Float32Array] cells it encodes. *)
Module ChunkRow.
Record t : Type := mk {
  id : JSString;
  source_id : JSString;
  content : JSString;
  chunk_index : Z;
  total_chunks : Z;
  title_thai : JSString;
  title_pali : JSString;
  pitaka : JSString;
  nikaya : JSString
}.
End ChunkRow.

Module EmbeddingRow.
Record t (num : Type) : Type := mk {
  chunk_id : JSString;
  embedding : list num;
  dimensions : Z
}.
End EmbeddingRow.

Module UserChunkRow.
Record t : Type := mk {
  id : JSString;
  document_id : JSString;
  content : JSString;
  chunk_index : Z;
  total_chunks : Z;
  created_at : Z
}.
End UserChunkRow.

Module UserEmbeddingRow.
Record t (num : Type) : Type := mk {
  chunk_id : JSString;
  embedding : list num;
  dimensions : Z;
  model : JSString;
  created_at : Z
}.
End UserEmbeddingRow.

Record Database (num : Type) : Type := mkDatabase {
  chunks : list ChunkRow.t;
  embeddings : list (EmbeddingRow.t num);
  user_chunks : list UserChunkRow.t;
  user_embeddings : list (UserEmbeddingRow.t num)
}.

(** [this.db]: [null] until [initialize()] has opened the file. *)
Definition Handle (num : Type) : Type := option (Database num).

(** The [DocumentChunk] that [getChunkById] answers with. *)
Module DocumentChunk.
Record t (num : Type) : Type := mk {
  id : JSString;
  content : JSString;
  embedding : option (list num);
  source : JSString;
  chunkIndex : Z;
  totalChunks : Z;
  createdAt : Z
}.
End DocumentChunk.

Section Service.
Context {num : Type} `{JSNumber num}.

(** [blobToVector(blob, dimensions)]: the cells of the blob; the
    [dimensions] argument is not looked at. *)
Definition blobToVector (blob : list num) (dimensions : Z) : list num :=
  blob.

(** [vectorToBlob(vector)]: each number stored as a 32-bit float. *)
Definition vectorToBlob (vector : list num) : list num :=
  map Math_fround vector.

(** [cosineDistance(a, b)] *)
Definition cosineDistance (a b : list num) : num :=
  if negb (Nat.eqb (length a) (length b)) then of_Z 1
  else
    let '(dotProduct, normA, normB) :=
      fold_left
        (fun '(dotProduct, normA, normB) '(ai, bi) =>
           ((dotProduct + ai * bi)%js,
            (normA + ai * ai)%js,
            (normB + bi * bi)%js))
        (combine a b) (of_Z 0, of_Z 0, of_Z 0) in
    let similarity :=
      (dotProduct / (Math_sqrt normA * Math_sqrt normB))%js in
    (of_Z 1 - similarity)%js.

(** [SELECT ... FROM chunks c JOIN embeddings e ON c.id = e.chunk_id] *)
Definition select_chunks_join_embeddings (db : Database num)
  : list (ChunkRow.t * EmbeddingRow.t num) :=
  flat_map
    (fun c =>
       map (fun e => (c, e))
           (filter (fun e => JSString_eqb (ChunkRow.id c)
                                          (EmbeddingRow.chunk_id e))
                   (embeddings db)))
    (chunks db).

(** The callback of [chunks.map(...)] in [vectorSearch]. *)
Definition row_to_result (queryEmbedding : list num)
    (row : ChunkRow.t * EmbeddingRow.t num) : VectorSearchResult.t num :=
  let (c, e) := row in
  let embedding :=
    blobToVector (EmbeddingRow.embedding e) (EmbeddingRow.dimensions e) in
  let distance := cosineDistance queryEmbedding embedding in
  VectorSearchResult.mk
    (ChunkRow.id c)
    (ChunkRow.title_thai c)
    (ChunkRow.content c)
    (of_Z 1 - distance)%js
    distance
    (SuttaMeta.mk (ChunkRow.source_id c) (ChunkRow.source_id c)
                  (ChunkRow.title_thai c) (ChunkRow.title_pali c)
                  (ChunkRow.pitaka c) (ChunkRow.nikaya c)).

(** The comparator of [.sort((a, b) => b.score - a.score)]. *)
Definition by_score_desc (a b : VectorSearchResult.t num) : num :=
  (VectorSearchResult.score b - VectorSearchResult.score a)%js.

(** [vectorSearch(queryEmbedding, limit = 10, threshold = 0.7)] *)
Definition vectorSearch (db : Handle num) (queryEmbedding : list num)
    (limit : option nat) (threshold : option num)
  : result (list (VectorSearchResult.t num)) :=
  match db with
  | None => Throw "Database not initialized"
  | Some d =>
      let limit := match limit with Some l => l | None => 10%nat end in
      let threshold :=
        match threshold with
        | Some t => t
        | None => (of_Z 7 / of_Z 10)%js
        end in
      let chunks := select_chunks_join_embeddings d in
      Ok (JSArray.slice0 limit
            (JSArray.sort by_score_desc
               (filter
                  (fun r => (VectorSearchResult.score r >=? threshold)%js)
                  (map (row_to_result queryEmbedding) chunks))))
  end.

(** [addUserChunk(documentId, content, chunkIndex, totalChunks,
    embedding)]; [now] is [Date.now()].  The two [INSERT]s append to
    [user_chunks] and [user_embeddings]. *)
Definition addUserChunk (db : Handle num) (documentId content : JSString)
    (chunkIndex totalChunks : Z) (embedding : list num) (now : Z)
  : result JSString * Handle num :=
  match db with
  | None => (Throw "Database not initialized", db)
  | Some d =>
      let id := (str "user-chunk-" ++ documentId ++ str "-"
                 ++ Number_toString chunkIndex)%list in
      let embeddingBlob := vectorToBlob embedding in
      let d1 :=
        mkDatabase (chunks d) (embeddings d)
          (user_chunks d ++
             [UserChunkRow.mk id documentId content chunkIndex totalChunks
                              now])
          (user_embeddings d) in
      let d2 :=
        mkDatabase (chunks d1) (embeddings d1) (user_chunks d1)
          (user_embeddings d1 ++
             [UserEmbeddingRow.mk id embeddingBlob
                (Z.of_nat (length embedding))
                (str "sentence-transformers") now]) in
      (Ok id, Some d2)
  end.

(** [deleteUserDocument(id)], as far as the chunk tables go. *)
Definition deleteUserDocument (db : Handle num) (id : JSString)
  : result unit * Handle num :=
  match db with
  | None => (Throw "Database not initialized", db)
  | Some d =>
      let doomed :=
        map UserChunkRow.id
            (filter (fun c => JSString_eqb (UserChunkRow.document_id c) id)
                    (user_chunks d)) in
      let d1 :=
        mkDatabase (chunks d) (embeddings d) (user_chunks d)
          (filter (fun e => negb (JSArray.includes
                                    (UserEmbeddingRow.chunk_id e) doomed))
                  (user_embeddings d)) in
      let d2 :=
        mkDatabase (chunks d1) (embeddings d1)
          (filter (fun c => negb (JSString_eqb
                                    (UserChunkRow.document_id c) id))
                  (user_chunks d1))
          (user_embeddings d1) in
      (Ok tt, Some d2)
  end.

(** [SELECT c.*, e.embedding, e.dimensions FROM chunks c
     LEFT JOIN embeddings e ON c.id = e.chunk_id WHERE c.id = ?] *)
Definition select_chunk_left_join_embeddings (d : Database num)
    (id : JSString) : list (ChunkRow.t * option (EmbeddingRow.t num)) :=
  flat_map
    (fun c =>
       match filter (fun e => JSString_eqb (ChunkRow.id c)
                                           (EmbeddingRow.chunk_id e))
                    (embeddings d) with
       | [] => [(c, None)]
       | es => map (fun e => (c, Some e)) es
       end)
    (filter (fun c => JSString_eqb (ChunkRow.id c) id) (chunks d)).

(** [getChunkById(id)]; [None] is [null] and [now] is [Date.now()]. *)
Definition getChunkById (db : Handle num) (id : JSString) (now : Z)
  : result (option (DocumentChunk.t num)) :=
  match db with
  | None => Throw "Database not initialized"
  | Some d =>
      match select_chunk_left_join_embeddings d id with
      | [] => Ok None
      | (c, e) :: _ =>
          Ok (Some
                (DocumentChunk.mk
                   (ChunkRow.id c)
                   (ChunkRow.content c)
                   (option_map
                      (fun e => blobToVector (EmbeddingRow.embedding e)
                                             (EmbeddingRow.dimensions e))
                      e)
                   (str "tripitaka")
                   (ChunkRow.chunk_index c)
                   (ChunkRow.total_chunks c)
                   now))
      end
  end.

End Service.

End DatabaseService.

(* ------------------------------------------------------------------ *)
(** ** RAGEngine.ts *)
(* ------------------------------------------------------------------ *)

Module RAGEngine.

Definition DEFAULT_TOP_K : nat := 5.

Definition MAX_CONTEXT_TOKENS : Z := 2048.

(** The Thai instruction text, as UTF-16 code units. *)
Definition RAG_SYSTEM_PROMPT : JSString :=
  [3588; 3640; 3603; 3648; 3611; 3655; 3609; 3612; 3641; 3657; 3594; 3656;
   3623; 3618; 3607; 3637; 3656; 3648; 3594; 3637; 3656; 3618; 3623; 3594;
   3634; 3597; 3604; 3657; 3634; 3609; 3614; 3619; 3632; 3614; 3640; 3607;
   3608; 3624; 3634; 3626; 3609; 3634; 32; 10; 3588; 3640; 3603; 3617;
   3637; 3627; 3609; 3657; 3634; 3607; 3637; 3656; 3605; 3629; 3610; 3588;
   3635; 3606; 3634; 3617; 3650; 3604; 3618; 3629; 3657; 3634; 3591; 3629;
   3636; 3591; 3592; 3634; 3585; 3614; 3619; 3632; 3652; 3605; 3619; 3611;
   3636; 3598; 3585; 3649; 3621; 3632; 3588; 3635; 3626; 3629; 3609; 3586;
   3629; 3591; 3614; 3619; 3632; 3614; 3640; 3607; 3608; 3648; 3592; 3657;
   3634; 10; 10; 3585; 3598; 3626; 3635; 3588; 3633; 3597; 58; 10; 49; 46;
   32; 3605; 3629; 3610; 3588; 3635; 3606; 3634; 3617; 3650; 3604; 3618;
   3651; 3594; 3657; 3586; 3657; 3629; 3617; 3641; 3621; 3592; 3634; 3585;
   3614; 3619; 3632; 3626; 3641; 3605; 3619; 3607; 3637; 3656; 3651; 3627;
   3657; 3617; 3634; 3648; 3607; 3656; 3634; 3609; 3633; 3657; 3609; 10;
   50; 46; 32; 3629; 3657; 3634; 3591; 3629; 3636; 3591; 3594; 3639; 3656;
   3629; 3614; 3619; 3632; 3626; 3641; 3605; 3619; 3648; 3617; 3639; 3656;
   3629; 3586; 3657; 3629; 3588; 3623; 3634; 3617; 3626; 3635; 3588; 3633;
   3597; 10; 51; 46; 32; 3627; 3634; 3585; 3586; 3657; 3629; 3617; 3641;
   3621; 3652; 3617; 3656; 3648; 3614; 3637; 3618; 3591; 3614; 3629; 32;
   3651; 3627; 3657; 3610; 3629; 3585; 3623; 3656; 3634; 3652; 3617; 3656;
   3614; 3610; 3586; 3657; 3629; 3617; 3641; 3621; 3651; 3609; 3614; 3619;
   3632; 3652; 3605; 3619; 3611; 3636; 3598; 3585; 10; 52; 46; 32; 3651;
   3594; 3657; 3616; 3634; 3625; 3634; 3607; 3637; 3656; 3626; 3640; 3616;
   3634; 3614; 3649; 3621; 3632; 3648; 3627; 3617; 3634; 3632; 3626; 3617;
   3585; 3633; 3610; 3608; 3619; 3619; 3617; 3632; 10; 53; 46; 32; 3627;
   3621; 3637; 3585; 3648; 3621; 3637; 3656; 3618; 3591; 3585; 3634; 3619;
   3605; 3637; 3588; 3623; 3634; 3617; 3626; 3656; 3623; 3609; 3605; 3633;
   3623; 32; 3651; 3627; 3657; 3629; 3657; 3634; 3591; 3629; 3636; 3591;
   3614; 3619; 3632; 3608; 3619; 3619; 3617; 3623; 3592; 3609; 3632]%N.

(** [estimateTokens(text)]: [Math.ceil(thaiChars / 2 + otherChars / 4)].
    Both quotients are multiples of a quarter, so the sum is exact and
    the ceiling is that of [(2 * thaiChars + otherChars) / 4]. *)
Definition is_thai (c : N) : bool := (3584 <=? c)%N && (c <=? 3711)%N.

Definition estimateTokens (text : JSString) : Z :=
  let thaiChars := Z.of_nat (length (filter is_thai text)) in
  let otherChars := (Z.of_nat (length text) - thaiChars)%Z in
  ((2 * thaiChars + otherChars + 3) / 4)%Z.

Section Engine.
Context {num : Type} `{JSNumber num}.

(** The two model calls.  [getQueryEmbedding] is a pseudo-random
    stand-in in the source and [execuTorchService.generate] runs the
    language model: both are taken as given. *)
Variable getQueryEmbedding : JSString -> list num.
Variable llm_generate : JSString -> result JSString.

Definition DEFAULT_THRESHOLD : num := (of_Z 6 / of_Z 10)%js.

(** [retrieveChunks(queryEmbedding, topK, threshold, filters)] *)
Definition retrieveChunks (db : DatabaseService.Handle num)
    (queryEmbedding : list num) (topK : nat) (threshold : num)
    (filters : option QueryFilters.t)
  : result (list (VectorSearchResult.t num)) :=
  match DatabaseService.vectorSearch db queryEmbedding
          (Some (topK * 2)%nat) (Some threshold) with
  | Throw msg => Throw msg
  | Ok results =>
      let results :=
        match filters with
        | None => results
        | Some f =>
            let results :=
              match QueryFilters.pitaka f with
              | Some (p :: ps) =>
                  filter
                    (fun r =>
                       JSArray.includes
                         (SuttaMeta.pitaka (VectorSearchResult.metadata r))
                         (map PitakaType_str (p :: ps)))
                    results
              | _ => results
              end in
            match QueryFilters.nikaya f with
            | Some (n :: ns) =>
                filter
                  (fun r =>
                     JSArray.includes
                       (SuttaMeta.nikaya (VectorSearchResult.metadata r))
                       (n :: ns))
                  results
            | _ => results
            end
        end in
      Ok (JSArray.slice0 topK results)
  end.

(** The text [buildContext] makes of one result:
    [`[${title_thai}]\n${content}\n`]. *)
Definition chunk_text (r : VectorSearchResult.t num) : JSString :=
  (str "[" ++ SuttaMeta.title_thai (VectorSearchResult.metadata r)
   ++ [93; 10]%N ++ VectorSearchResult.content r ++ [10]%N)%list.

(** The [for ... of results] loop of [buildContext], leaving at the
    [break]. *)
Fixpoint buildContext_loop (results : list (VectorSearchResult.t num))
    (contexts : list JSString) (currentTokens : Z) : list JSString :=
  match results with
  | [] => contexts
  | r :: rest =>
      let chunk := chunk_text r in
      let tokens := estimateTokens chunk in
      if (currentTokens + tokens >? MAX_CONTEXT_TOKENS)%Z then contexts
      else buildContext_loop rest (contexts ++ [chunk])
                             (currentTokens + tokens)%Z
  end.

(** [buildContext(results)] *)
Definition buildContext (results : list (VectorSearchResult.t num))
  : JSString :=
  JSArray.join [10; 45; 45; 45; 10]%N (buildContext_loop results [] 0%Z).

(** [generateAnswer(question, context)] *)
Definition generateAnswer (question context : JSString) : result JSString :=
  let prompt :=
    (RAG_SYSTEM_PROMPT
     ++ [10; 10; 3586; 3657; 3629; 3617; 3641; 3621; 3592; 3634; 3585; 3614;
         3619; 3632; 3652; 3605; 3619; 3611; 3636; 3598; 3585; 58; 10]%N
     ++ context
     ++ [10; 10; 3588; 3635; 3606; 3634; 3617; 58; 32]%N
     ++ question
     ++ [10; 10; 3588; 3635; 3605; 3629; 3610; 58]%N)%list in
  llm_generate prompt.

(** [buildCitations(results)] *)
Definition buildCitations (results : list (VectorSearchResult.t num))
  : list (Citation.t num) :=
  map
    (fun r =>
       Citation.mk
         (SuttaMeta.id (VectorSearchResult.metadata r))
         (SuttaMeta.title_thai (VectorSearchResult.metadata r))
         (firstn 200 (VectorSearchResult.content r) ++ str "...")%list
         (VectorSearchResult.score r))
    results.

(** [calculateConfidence(results)] *)
Definition calculateConfidence (results : list (VectorSearchResult.t num))
  : num :=
  match results with
  | [] => of_Z 0
  | _ =>
      let results_length := of_Z (Z.of_nat (length results)) in
      let avgScore :=
        (fold_left (fun sum r => sum + VectorSearchResult.score r)
                   results (of_Z 0) / results_length)%js in
      let countFactor :=
        Math_min (results_length / of_Z (Z.of_nat DEFAULT_TOP_K))%js
                 (of_Z 1) in
      (avgScore * countFactor)%js
  end.

(** [query(query)]; [startTime] and [endTime] are the two readings of
    [Date.now()]. *)
Definition query (initialized : bool) (db : DatabaseService.Handle num)
    (q : RAGQuery.t num) (startTime endTime : Z)
  : result (RAGResponse.t num) :=
  if negb initialized then Throw "RAG Engine not initialized"
  else
    let queryEmbedding := getQueryEmbedding (RAGQuery.question q) in
    let topK :=
      match RAGQuery.topK q with
      | Some (S k) => S k
      | _ => DEFAULT_TOP_K
      end in
    let threshold :=
      match RAGQuery.threshold q with
      | Some t => if truthy t then t else DEFAULT_THRESHOLD
      | None => DEFAULT_THRESHOLD
      end in
    match retrieveChunks db queryEmbedding topK threshold
                         (RAGQuery.filters q) with
    | Throw msg => Throw msg
    | Ok searchResults =>
        let context := buildContext searchResults in
        match generateAnswer (RAGQuery.question q) context with
        | Throw msg => Throw msg
        | Ok answer =>
            let sources := buildCitations searchResults in
            Ok (RAGResponse.mk answer sources
                  (calculateConfidence searchResults)
                  (endTime - startTime)%Z)
        end
    end.

(** [addUserContent(documentId, chunks)]: the loop over the chunks,
    stopping at the first [addUserChunk] that throws. *)
Fixpoint addUserContent_loop (db : DatabaseService.Handle num)
    (documentId : JSString) (chunks : list (JSString * list num))
    (i total now : Z) : result unit * DatabaseService.Handle num :=
  match chunks with
  | [] => (Ok tt, db)
  | (content, embedding) :: rest =>
      match DatabaseService.addUserChunk db documentId content i total
                                         embedding now with
      | (Throw msg, db') => (Throw msg, db')
      | (Ok _, db') =>
          addUserContent_loop db' documentId rest (i + 1)%Z total now
      end
  end.

Definition addUserContent (db : DatabaseService.Handle num)
    (documentId : JSString) (chunks : list (JSString * list num)) (now : Z)
  : result unit * DatabaseService.Handle num :=
  addUserContent_loop db documentId chunks 0%Z
                      (Z.of_nat (length chunks)) now.

(** *** Calls in flight

    [query] is an [async] method: a call runs until an [await], is
    suspended there, and other calls may enter and run meanwhile.  The
    class keeps no record of the calls it has let in; [in_flight] is
    the event loop's list of suspended calls and [settled] the promises
    that have been settled, each under the number of its call. *)

(** The prompt [generateAnswer] hands to [execuTorchService.generate]. *)
Definition generation_prompt (question context : JSString) : JSString :=
  (RAG_SYSTEM_PROMPT
   ++ [10; 10; 3586; 3657; 3629; 3617; 3641; 3621; 3592; 3634; 3585; 3614;
       3619; 3632; 3652; 3605; 3619; 3611; 3636; 3598; 3585; 58; 10]%N
   ++ context
   ++ [10; 10; 3588; 3635; 3606; 3634; 3617; 58; 32]%N
   ++ question
   ++ [10; 10; 3588; 3635; 3605; 3629; 3610; 58]%N)%list.

(** Where a call of [query] is suspended, with the locals it holds:
    at [await this.getQueryEmbedding(...)], whose body has run and
    drawn its [Math.random] numbers; at [await this.retrieveChunks(...)],
    whose [vectorSearch] has run (it reads the database without an
    [await]); at [await this.generateAnswer(...)], with the prompt
    sent to the language model. *)
Inductive Suspended : Type :=
| AwaitsEmbedding (q : RAGQuery.t num) (startTime : Z)
                  (queryEmbedding : list num)
| AwaitsRetrieval (q : RAGQuery.t num) (startTime : Z)
                  (retrieved : result (list (VectorSearchResult.t num)))
| AwaitsGeneration (q : RAGQuery.t num) (startTime : Z)
                   (searchResults : list (VectorSearchResult.t num))
                   (prompt : JSString).

Record Running : Type := mkRunning {
  initialized : bool;
  db : DatabaseService.Handle num;
  next_call : nat;
  in_flight : list (nat * Suspended);
  settled : list (nat * result (RAGResponse.t num))
}.

Inductive Entry : Type :=
| Accepted (call : nat)
| Rejected (msg : string).

Fixpoint find_call (call : nat) (calls : list (nat * Suspended))
  : option Suspended :=
  match calls with
  | [] => None
  | (c, s) :: rest => if Nat.eqb c call then Some s else find_call call rest
  end.

Definition update_call (call : nat) (s : Suspended)
    (calls : list (nat * Suspended)) : list (nat * Suspended) :=
  map (fun p => if Nat.eqb (fst p) call then (fst p, s) else p) calls.

Definition drop_call (call : nat) (calls : list (nat * Suspended))
  : list (nat * Suspended) :=
  filter (fun p => negb (Nat.eqb (fst p) call)) calls.

(** The promise of [call] is settled and the call leaves the loop. *)
Definition settle (st : Running) (call : nat)
    (outcome : result (RAGResponse.t num)) : Running :=
  mkRunning (initialized st) (db st) (next_call st)
            (drop_call call (in_flight st))
            (settled st ++ [(call, outcome)]).

Definition suspend (st : Running) (call : nat) (s : Suspended) : Running :=
  mkRunning (initialized st) (db st) (next_call st)
            (update_call call s (in_flight st)) (settled st).

(** A call of [query] up to its first [await].  [queryEmbedding] is
    the vector [getQueryEmbedding] made for this call. *)
Definition query_enter (st : Running) (q : RAGQuery.t num) (startTime : Z)
    (queryEmbedding : list num) : Entry * Running :=
  if negb (initialized st) then (Rejected "RAG Engine not initialized", st)
  else
    (Accepted (next_call st),
     mkRunning (initialized st) (db st) (S (next_call st))
               (in_flight st
                ++ [(next_call st,
                     AwaitsEmbedding q startTime queryEmbedding)])
               (settled st)).

(** The suspended [call] runs on to its next [await]: from the
    embedding to the retrieval, reading the database as it is now;
    from the retrieval to the generation, or to the [throw] that
    passes on what the retrieval threw. *)
Definition query_resume (st : Running) (call : nat) : Running :=
  match find_call call (in_flight st) with
  | Some (AwaitsEmbedding q startTime queryEmbedding) =>
      let topK :=
        match RAGQuery.topK q with
        | Some (S k) => S k
        | _ => DEFAULT_TOP_K
        end in
      let threshold :=
        match RAGQuery.threshold q with
        | Some t => if truthy t then t else DEFAULT_THRESHOLD
        | None => DEFAULT_THRESHOLD
        end in
      suspend st call
        (AwaitsRetrieval q startTime
           (retrieveChunks (db st) queryEmbedding topK threshold
                           (RAGQuery.filters q)))
  | Some (AwaitsRetrieval q startTime (Throw msg)) =>
      settle st call (Throw msg)
  | Some (AwaitsRetrieval q startTime (Ok searchResults)) =>
      let context := buildContext searchResults in
      suspend st call
        (AwaitsGeneration q startTime searchResults
           (generation_prompt (RAGQuery.question q) context))
  | _ => st
  end.

(** The language model settles the generation of [call] with
    [generated]; the call runs on to its [return] or [throw], reading
    the clock at [endTime]. *)
Definition query_settle (st : Running) (call : nat)
    (generated : result JSString) (endTime : Z) : Running :=
  match find_call call (in_flight st) with
  | Some (AwaitsGeneration q startTime searchResults prompt) =>
      match generated with
      | Throw msg => settle st call (Throw msg)
      | Ok answer =>
          let sources := buildCitations searchResults in
          settle st call
            (Ok (RAGResponse.mk answer sources
                   (calculateConfidence searchResults)
                   (endTime - startTime)%Z))
      end
  | _ => st
  end.

(** What happens on the event loop, one event at a time. *)
Inductive Event : Type :=
| Calls (q : RAGQuery.t num) (startTime : Z) (queryEmbedding : list num)
| Resumes (call : nat)
| Settles (call : nat) (generated : result JSString) (endTime : Z).

Definition run_event (st : Running) (ev : Event) : Running :=
  match ev with
  | Calls q startTime queryEmbedding =>
      snd (query_enter st q startTime queryEmbedding)
  | Resumes call => query_resume st call
  | Settles call generated endTime => query_settle st call generated endTime
  end.

Definition run_events (st : Running) (evs : list Event) : Running :=
  fold_left run_event evs st.

(** The events of [call] itself, as against those of other calls. *)
Definition of_call (call : nat) (ev : Event) : bool :=
  match ev with
  | Calls _ _ _ => false
  | Resumes c => Nat.eqb c call
  | Settles c _ _ => Nat.eqb c call
  end.

(** What the promise of [call] has been settled with. *)
Definition outcomes (st : Running) (call : nat)
  : list (result (RAGResponse.t num)) :=
  map snd (filter (fun p => Nat.eqb (fst p) call) (settled st)).

Fixpoint remove_nth {A} (i : nat) (l : list A) : list A :=
  match i, l with
  | _, [] => []
  | O, _ :: rest => rest
  | S j, x :: rest => x :: remove_nth j rest
  end.

End Engine.

End RAGEngine.

(* ------------------------------------------------------------------ *)
(** ** VoicePipeline.ts *)
(* ------------------------------------------------------------------ *)

Module VoicePipeline.

Inductive ASRModel : Type := whisper_small_thai | whisper_tiny_thai.
Inductive TTSModel : Type := vits | piper | rctp.
Inductive TTSVoice : Type := female | male | male_monk | system.

Record VoicePipelineConfig (num : Type) : Type := mkConfig {
  asrModel : ASRModel;
  ttsModel : TTSModel;
  ttsVoice : TTSVoice;
  speed : num;
  pitch : num;
  autoSpeak : bool
}.

(** The fields of [class VoicePipeline] that steer an interaction. *)
Record State (num : Type) : Type := mkState {
  isProcessing : bool;
  config : option (VoicePipelineConfig num)
}.

(** How a call of [startVoiceInteraction] leaves its synchronous
    start: it returns at once after the warning, throws, or goes on to
    listen. *)
Inductive Start : Type :=
| Returned
| Thrown (msg : string)
| Listening.

Section Pipeline.
Context {num : Type} `{JSNumber num}.

(** [startVoiceInteraction()] up to its first [await]. *)
Definition startVoiceInteraction_enter (s : State num) : Start * State num :=
  if isProcessing s then (Returned, s)
  else
    match config s with
    | None => (Thrown "Pipeline not initialized", s)
    | Some c => (Listening, mkState true (Some c))
    end.

(** The query it sends once the speech is transcribed. *)
Definition interaction_query (text : JSString) : RAGQuery.t num :=
  RAGQuery.mk text (Some 5%nat) (Some (of_Z 6 / of_Z 10)%js) None.

(** Its [finally] block. *)
Definition startVoiceInteraction_finally (s : State num) : State num :=
  mkState false (config s).

(** What [getMemoryStatus()] resolves to. *)
Record MemoryStatus : Type := mkMemoryStatus {
  used : Z;
  available : Z;
  canLoadAll : bool
}.

(** [getMemoryStatus()], reading the model manager. *)
Definition getMemoryStatus (s : State num) (manager : ModelManager.State)
  : MemoryStatus :=
  let used := ModelManager.getLoadedModelsRAM manager in
  let available := (4096 - used)%Z in
  let required :=
    ((match option_map (@asrModel num) (config s) with
      | Some whisper_small_thai => 500
      | _ => 150
      end)
     + (match option_map (@ttsModel num) (config s) with
        | Some vits => 100
        | _ => 50
        end))%Z in
  mkMemoryStatus used available (available >=? required)%Z.

(** The generator [startStreamingInteraction()] from its first
    [next()] up to its first [await]: no look at [isProcessing]. *)
Definition startStreamingInteraction_enter (s : State num)
  : Start * State num :=
  match config s with
  | None => (Thrown "Pipeline not initialized", s)
  | Some c => (Listening, mkState true (Some c))
  end.

(** Its [finally] block, run when the generator ends. *)
Definition startStreamingInteraction_finally (s : State num) : State num :=
  mkState false (config s).

(** [stop()], as far as the pipeline's own fields go. *)
Definition stop (s : State num) : State num := mkState false (config s).

(** [isActive()] *)
Definition isActive (s : State num) : bool := isProcessing s.

End Pipeline.

End VoicePipeline.

(* ------------------------------------------------------------------ *)
(** ** DocumentProcessor.ts *)
(* ------------------------------------------------------------------ *)

Module DocumentProcessor.

Definition CHUNK_SIZE : nat := 500.
Definition CHUNK_OVERLAP : nat := 50.
Definition MIN_CHUNK_SIZE : nat := 100.

(** *** The string methods the chunker uses *)

(** The code units that [trim()] strips and [\s] matches: WhiteSpace
    and LineTerminator. *)
Definition is_space (c : N) : bool :=
  ((c =? 9) || (c =? 10) || (c =? 11) || (c =? 12) || (c =? 13)
   || (c =? 32) || (c =? 160) || (c =? 5760)
   || ((8192 <=? c) && (c <=? 8202))
   || (c =? 8232) || (c =? 8233) || (c =? 8239) || (c =? 8287)
   || (c =? 12288) || (c =? 65279))%N.

Fixpoint trimStart (s : JSString) : JSString :=
  match s with
  | [] => []
  | c :: rest => if is_space c then trimStart rest else s
  end.

Definition trimEnd (s : JSString) : JSString := rev (trimStart (rev s)).

(** [s.trim()] *)
Definition trim (s : JSString) : JSString := trimEnd (trimStart s).

(** [text.split(/\n\n+/)]: [current] is the piece being read, and
    [in_separator] says that the code units just read were a match of
    the pattern, which takes in every newline that follows. *)
Fixpoint split_paragraphs_from (text current : JSString)
    (in_separator : bool) : list JSString :=
  match text with
  | [] => [current]
  | c :: rest =>
      if in_separator && (c =? 10)%N
      then split_paragraphs_from rest current true
      else
        match rest with
        | c' :: rest' =>
            if (c =? 10)%N && (c' =? 10)%N
            then current :: split_paragraphs_from rest' [] true
            else split_paragraphs_from rest (current ++ [c]) false
        | [] => [current ++ [c]]
        end
  end.

Definition split_paragraphs (text : JSString) : list JSString :=
  split_paragraphs_from text [] false.

(** [s.split('\n')] *)
Fixpoint split_lines_from (text current : JSString) : list JSString :=
  match text with
  | [] => [current]
  | c :: rest =>
      if (c =? 10)%N then current :: split_lines_from rest []
      else split_lines_from rest (current ++ [c])
  end.

Definition split_lines (text : JSString) : list JSString :=
  split_lines_from text [].

(** The class [[。\.！!？?]] *)
Definition is_sentence_end (c : N) : bool :=
  ((c =? 12290) || (c =? 46) || (c =? 65281) || (c =? 33)
   || (c =? 65311) || (c =? 63))%N.

(** [text.replace(/([。\.！!？?])\s*/g, '$1\n')]: [in_match] says that
    the code units just read were a match, which takes in every
    whitespace that follows. *)
Fixpoint replace_sentence_ends_from (text : JSString) (in_match : bool)
  : JSString :=
  match text with
  | [] => []
  | c :: rest =>
      if in_match && is_space c then replace_sentence_ends_from rest true
      else if is_sentence_end c
           then c :: 10%N :: replace_sentence_ends_from rest true
           else c :: replace_sentence_ends_from rest false
  end.

Definition replace_sentence_ends (text : JSString) : JSString :=
  replace_sentence_ends_from text false.

(** *** The chunker *)

(** [splitIntoSentences(text)] *)
Definition splitIntoSentences (text : JSString) : list JSString :=
  filter (fun s => (0 <? length s)%nat)
         (map trim (split_lines (replace_sentence_ends text))).

(** An element of the array [chunkText] returns. *)
Record Chunk : Type := mkChunk {
  content : JSString;
  index : Z
}.

(** [if (s.length >= MIN_CHUNK_SIZE) chunks.push({ content: s.trim(),
    index: chunkIndex++ })] *)
Definition push_chunk (chunks : list Chunk) (chunkIndex : Z)
    (s : JSString) : list Chunk * Z :=
  if (MIN_CHUNK_SIZE <=? length s)%nat
  then (chunks ++ [mkChunk (trim s) chunkIndex], (chunkIndex + 1)%Z)
  else (chunks, chunkIndex).

(** The loop over the sentences of a long paragraph. *)
Fixpoint sentence_loop (sentences : list JSString) (chunks : list Chunk)
    (chunkIndex : Z) (sentenceChunk : JSString)
  : list Chunk * Z * JSString :=
  match sentences with
  | [] => (chunks, chunkIndex, sentenceChunk)
  | sentence :: rest =>
      if (length sentenceChunk + length sentence <=? CHUNK_SIZE)%nat
      then
        sentence_loop rest chunks chunkIndex
          (sentenceChunk
           ++ (match sentenceChunk with [] => [] | _ => str " " end)
           ++ sentence)
      else
        let '(chunks, chunkIndex) :=
          push_chunk chunks chunkIndex sentenceChunk in
        sentence_loop rest chunks chunkIndex sentence
  end.

(** The loop over the paragraphs. *)
Fixpoint paragraph_loop (paragraphs : list JSString) (chunks : list Chunk)
    (chunkIndex : Z) (currentChunk : JSString)
  : list Chunk * Z * JSString :=
  match paragraphs with
  | [] => (chunks, chunkIndex, currentChunk)
  | paragraph :: rest =>
      if (length currentChunk + length paragraph <=? CHUNK_SIZE)%nat
      then
        paragraph_loop rest chunks chunkIndex
          (currentChunk
           ++ (match currentChunk with [] => [] | _ => [10; 10]%N end)
           ++ paragraph)
      else
        let '(chunks, chunkIndex) :=
          push_chunk chunks chunkIndex currentChunk in
        if (CHUNK_SIZE <? length paragraph)%nat
        then
          let '(chunks, chunkIndex, sentenceChunk) :=
            sentence_loop (splitIntoSentences paragraph) chunks chunkIndex
                          [] in
          paragraph_loop rest chunks chunkIndex sentenceChunk
        else paragraph_loop rest chunks chunkIndex paragraph
  end.

(** [chunkText(text)] *)
Definition chunkText (text : JSString) : list Chunk :=
  let '(chunks, chunkIndex, currentChunk) :=
    paragraph_loop (split_paragraphs text) [] 0%Z [] in
  fst (push_chunk chunks chunkIndex currentChunk).

(** *** The mock embedding's hash *)

(** [ToInt32]: the number modulo 2^32, read as a signed 32-bit
    integer. *)
Definition ToInt32 (z : Z) : Z :=
  let m := (z mod 4294967296)%Z in
  if (2147483648 <=? m)%Z then (m - 4294967296)%Z else m.

(** [a << n] and [a & b] on numbers *)
Definition shl32 (a n : Z) : Z := ToInt32 (Z.shiftl (ToInt32 a) n).

Definition and32 (a b : Z) : Z := Z.land (ToInt32 a) (ToInt32 b).

(** [simpleHash(str)], the same method in [DocumentProcessor] and in
    [RAGEngine]. *)
Definition simpleHash (s : JSString) : Z :=
  fold_left
    (fun hash char =>
       let hash := (shl32 hash 5 - hash + Z.of_N char)%Z in
       and32 hash hash)
    s 0%Z.

(** *** Storing and the busy mark *)

Section Storing.
Context {num : Type} `{JSNumber num}.

(** [storeChunks(docId, chunks)]: each chunk comes with the embedding
    [generateEmbeddings] made for it. *)
Fixpoint storeChunks_loop (db : DatabaseService.Handle num)
    (docId : JSString) (chunks : list (Chunk * list num))
    (totalChunks now : Z) : result unit * DatabaseService.Handle num :=
  match chunks with
  | [] => (Ok tt, db)
  | (chunk, embedding) :: rest =>
      match DatabaseService.addUserChunk db docId (content chunk)
              (index chunk) totalChunks embedding now with
      | (Throw msg, db') => (Throw msg, db')
      | (Ok _, db') => storeChunks_loop db' docId rest totalChunks now
      end
  end.

Definition storeChunks (db : DatabaseService.Handle num)
    (docId : JSString) (chunks : list (Chunk * list num)) (now : Z)
  : result unit * DatabaseService.Handle num :=
  storeChunks_loop db docId chunks (Z.of_nat (length chunks)) now.

(** [deleteDocument(documentId)] *)
Definition deleteDocument (db : DatabaseService.Handle num)
    (documentId : JSString)
  : result unit * DatabaseService.Handle num :=
  DatabaseService.deleteUserDocument db documentId.

End Storing.

(** [processDocument] is [async]: a call that passes the check sets
    [isProcessing] and is suspended inside its [try]; [processing] is
    the event loop's list of such calls, by document id. *)
Record State : Type := mkState {
  isProcessing : bool;
  processing : list JSString
}.

Definition new_DocumentProcessor : State := mkState false [].

(** [processDocument(document)] up to its first [await]. *)
Definition processDocument_enter (s : State) (documentId : JSString)
  : result unit * State :=
  if isProcessing s
  then (Throw "Another document is being processed", s)
  else (Ok tt, mkState true (processing s ++ [documentId])).

(** The [i]-th suspended call runs on, returning or throwing, through
    its [finally]. *)
Definition processDocument_finish (s : State) (i : nat) : State :=
  match nth_error (processing s) i with
  | None => s
  | Some _ => mkState false (RAGEngine.remove_nth i (processing s))
  end.

(** [isBusy()] *)
Definition isBusy (s : State) : bool := isProcessing s.

(** What can happen to the processor, and a run of such events from
    its construction. *)
Inductive Event : Type :=
| Arrives (documentId : JSString)
| Finishes (i : nat).

Definition run_event (s : State) (e : Event) : State :=
  match e with
  | Arrives documentId => snd (processDocument_enter s documentId)
  | Finishes i => processDocument_finish s i
  end.

Definition run_events (es : list Event) : State :=
  fold_left run_event es new_DocumentProcessor.

End DocumentProcessor.

(* ------------------------------------------------------------------ *)
(** ** ASRService: a client of the model manager *)
(* ------------------------------------------------------------------ *)

(** How the native module answers [loadModel]: there is no module (the
    services then go on as if loaded), the promise resolves to a
    boolean, or it rejects. *)
Inductive NativeLoad : Type :=
| NoModule
| Resolves (loaded : bool)
| Rejects (msg : string).

Module ASRService.

Open Scope string_scope.

(** [ASRModelType]: the model's id in the registry. *)
Definition model_id (t : VoicePipeline.ASRModel) : string :=
  match t with
  | VoicePipeline.whisper_small_thai => "whisper-small-thai"
  | VoicePipeline.whisper_tiny_thai => "whisper-tiny-thai"
  end.

Definition ASRModel_eqb (a b : VoicePipeline.ASRModel) : bool :=
  match a, b with
  | VoicePipeline.whisper_small_thai, VoicePipeline.whisper_small_thai
  | VoicePipeline.whisper_tiny_thai, VoicePipeline.whisper_tiny_thai => true
  | _, _ => false
  end.

(** The fields of [class ASRService] that loading reads and writes. *)
Record State : Type := mkState {
  modelType : option VoicePipeline.ASRModel;
  isLoaded : bool
}.

Definition new_ASRService : State := mkState None false.

(** [unload()] *)
Definition unload (s : State) (manager : ModelManager.State)
  : State * ModelManager.State :=
  let manager :=
    match modelType s with
    | Some t =>
        if isLoaded s
        then snd (ModelManager.unloadModel (model_id t) manager)
        else manager
    | None => manager
    end in
  (mkState None false, manager).

(** [initialize(config)], with [config.modelType] and the answer of
    [WhisperModule.loadModel]. *)
Definition initialize (native : NativeLoad)
    (config_modelType : VoicePipeline.ASRModel) (s : State)
    (manager : ModelManager.State)
  : result unit * (State * ModelManager.State) :=
  let same :=
    match modelType s with
    | Some t => ASRModel_eqb t config_modelType
    | None => false
    end in
  if isLoaded s && same then (Ok tt, (s, manager))
  else
    let '(s, manager) :=
      if isLoaded s && negb same then unload s manager else (s, manager) in
    let s := mkState (Some config_modelType) (isLoaded s) in
    if negb (ModelManager.isModelDownloaded (model_id config_modelType)
                                            manager)
    then (Throw ("ASR model " ++ model_id config_modelType
                 ++ " not downloaded"), (s, manager))
    else
      match native with
      | Rejects msg => (Throw msg, (s, manager))
      | _ =>
          let loaded :=
            match native with Resolves loaded => loaded | _ => true end in
          let s := mkState (Some config_modelType) loaded in
          if loaded
          then
            match ModelManager.loadModel (model_id config_modelType)
                                         manager with
            | (Throw msg, manager) => (Throw msg, (s, manager))
            | (Ok _, manager) => (Ok tt, (s, manager))
            end
          else (Ok tt, (s, manager))
      end.

(** [isReady()] *)
Definition isReady (s : State) : bool := isLoaded s.

End ASRService.

(* ================================================================== *)
(** * Part II.  Properties                                             *)
(* ================================================================== *)

(* ------------------------------------------------------------------ *)
(** ** The model registry *)
(* ------------------------------------------------------------------ *)

Module ModelManagerFacts.

Import ModelManager.
Open Scope Z_scope.

(** *** Maps *)

Lemma get_set_same V (k : string) (v v' : V) m :
  JSMap.get k m = Some v -> JSMap.get k (JSMap.set k v' m) = Some v'.
Proof.
  induction m as [|[k0 v0] m IH]; simpl; [discriminate|].
  destruct (String.eqb k k0) eqn:E; simpl; rewrite E; auto.
Qed.

Lemma set_set V (k : string) (v : V) m :
  JSMap.set k v (JSMap.set k v m) = JSMap.set k v m.
Proof.
  induction m as [|[k0 v0] m IH]; simpl.
  - rewrite String.eqb_refl. reflexivity.
  - destruct (String.eqb k k0) eqn:E; simpl; rewrite E; congruence.
Qed.

(** What the registry shows of its models through a field [f], key by
    key. *)
Definition view {B} (f : ModelInfo -> B) (s : State) : list (string * B) :=
  map (fun km => (fst km, f (snd km))) (models s).

Lemma set_keeps_view B (f : ModelInfo -> B) k v v' (m : JSMap.t ModelInfo) :
  JSMap.get k m = Some v -> f v' = f v ->
  map (fun km => (fst km, f (snd km))) (JSMap.set k v' m)
  = map (fun km => (fst km, f (snd km))) m.
Proof.
  induction m as [|[k0 v0] m IH]; simpl; [discriminate|].
  destruct (String.eqb k k0) eqn:E; simpl; intros Hg Hf.
  - inversion Hg; subst. rewrite Hf. reflexivity.
  - rewrite IH; auto.
Qed.

Lemma get_in_view B (f : ModelInfo -> B) k v (m : JSMap.t ModelInfo) :
  JSMap.get k m = Some v ->
  exists k', In (k', f v) (map (fun km => (fst km, f (snd km))) m).
Proof.
  induction m as [|[k0 v0] m IH]; simpl; [discriminate|].
  destruct (String.eqb k k0) eqn:E; intros Hg.
  - inversion Hg; subst. exists k0. now left.
  - destruct (IH Hg) as [k' Hk]. exists k'. now right.
Qed.

(** *** What a call can change

    Every method changes the state through three writes only: a flag
    of a registered model, a key dropped from [loadedModels], and the
    [initialized] mark.  A relation between states that is closed
    under these writes therefore holds across every call. *)

Definition write_model (k : string) (v : ModelInfo) (s : State) : State :=
  mkState (JSMap.set k v (models s)) (loadedModels s) (initialized s).

Definition drop_handle (k : string) (s : State) : State :=
  mkState (models s) (JSMap.delete k (loadedModels s)) (initialized s).

Section Frame.
Variable R : State -> State -> Prop.
Hypothesis R_refl : forall s, R s s.
Hypothesis R_trans : forall s1 s2 s3, R s1 s2 -> R s2 s3 -> R s1 s3.
Hypothesis R_loaded : forall s k v b,
  JSMap.get k (models s) = Some v -> R s (write_model k (set_loaded b v) s).
Hypothesis R_drop : forall s k, R s (drop_handle k s).

Lemma unloadModel_frame k s : R s (snd (unloadModel k s)).
Proof.
  unfold unloadModel, bind, getModel, gets; simpl.
  destruct (JSMap.get k (models s)) eqn:E; simpl; auto.
  eapply R_trans; [apply (R_drop s k)|].
  apply (R_loaded (drop_handle k s) k false E).
Qed.

Lemma evictModels_loop_frame ids requiredMB freed s :
  R s (snd (evictModels_loop ids requiredMB freed s)).
Proof.
  revert freed s. induction ids as [|k ids IH]; intros freed s; simpl; auto.
  destruct (freed >=? requiredMB); simpl; auto.
  unfold bind at 1, getModel, gets; simpl.
  destruct (JSMap.get k (models s)) as [model|] eqn:E; auto.
  destruct (loaded model && negb (ModelType_eqb (type model) llm)); auto.
  unfold bind at 1.
  pose proof (unloadModel_frame k s) as Hu.
  destruct (unloadModel k s) as [[[]|msg] s1]; simpl in *; auto.
  eapply R_trans; [exact Hu | apply IH].
Qed.

Lemma evictModels_frame requiredMB s : R s (snd (evictModels requiredMB s)).
Proof.
  unfold evictModels, bind, gets; simpl. apply evictModels_loop_frame.
Qed.

Lemma ensureMemoryAvailable_frame requiredMB s :
  R s (snd (ensureMemoryAvailable requiredMB s)).
Proof.
  unfold ensureMemoryAvailable, bind, gets; simpl.
  destruct (_ <? _); [apply evictModels_frame | apply R_refl].
Qed.

Lemma loadModel_frame k s : R s (snd (loadModel k s)).
Proof.
  unfold loadModel, bind at 1, getModel at 1, gets; simpl.
  destruct (JSMap.get k (models s)) as [model|] eqn:E; simpl; auto.
  destruct (negb (downloaded model)); simpl; auto.
  unfold bind at 1; simpl.
  assert (Hrest :
    R s (snd ((ensureMemoryAvailable (ramRequiredMB model) ;;;
               om' <- getModel k ;;
               match om' with
               | Some model' =>
                   models_set k (set_loaded true model') ;;; ret JSnull
               | None => ret JSnull
               end) s))).
  { unfold bind at 1.
    pose proof (ensureMemoryAvailable_frame (ramRequiredMB model) s) as He.
    destruct (ensureMemoryAvailable (ramRequiredMB model) s)
      as [[[]|msg] s1]; simpl in *; auto.
    unfold bind, getModel, gets; simpl.
    destruct (JSMap.get k (models s1)) as [model'|] eqn:E1; simpl; auto.
    eapply R_trans; [exact He | apply (R_loaded s1 k true E1)]. }
  destruct (loaded model); [destruct (JSMap.get k (loadedModels s))|];
    simpl; auto.
Qed.

Hypothesis R_downloaded : forall s k v b,
  JSMap.get k (models s) = Some v ->
  R s (write_model k (set_downloaded b v) s).
Hypothesis R_initialized : forall s,
  R s (mkState (models s) (loadedModels s) true).

Lemma initialize_loop_frame fe ids s :
  R s (snd (initialize_loop fe ids s)).
Proof.
  revert s. induction ids as [|k ids IH]; intros s; simpl; auto.
  unfold bind at 1, gets; simpl.
  destruct (JSMap.get k (models s)) as [model|] eqn:E; auto.
  unfold bind at 1, models_set, modify; simpl.
  eapply R_trans; [apply (R_downloaded s k (fe (path model)) E) | apply IH].
Qed.

Lemma initialize_frame fe s : R s (snd (initialize fe s)).
Proof.
  unfold initialize, bind at 1, gets; simpl.
  destruct (initialized s); simpl; auto.
  unfold bind at 1; simpl. unfold bind.
  pose proof (initialize_loop_frame fe (JSMap.keys (models s)) s) as Hl.
  destruct (initialize_loop fe (JSMap.keys (models s)) s) as [[[]|msg] s1];
    simpl in *; auto.
  eapply R_trans; [exact Hl | apply R_initialized].
Qed.

Lemma downloadModel_frame k code s : R s (snd (downloadModel k code s)).
Proof.
  unfold downloadModel, bind, getModel, gets; simpl.
  destruct (JSMap.get k (models s)) as [model|] eqn:E; simpl; auto.
  destruct (code =? 200); simpl; auto.
  apply (R_downloaded s k true E).
Qed.

Lemma deleteModel_frame k s : R s (snd (deleteModel k s)).
Proof.
  unfold deleteModel, bind at 1, getModel at 1, gets; simpl.
  destruct (JSMap.get k (models s)) as [model|] eqn:E; simpl; auto.
  unfold bind at 1.
  assert (H1 : R s (snd ((if loaded model then unloadModel k else ret tt) s))).
  { destruct (loaded model); [apply unloadModel_frame | apply R_refl]. }
  destruct ((if loaded model then unloadModel k else ret tt) s)
    as [[[]|msg] s1]; simpl in *; auto.
  unfold bind, getModel, gets; simpl.
  destruct (JSMap.get k (models s1)) as [model'|] eqn:E1; simpl; auto.
  eapply R_trans; [exact H1 | apply (R_downloaded s1 k false E1)].
Qed.

Lemma run_call_frame c s : R s (run_call c s).
Proof.
  destruct c; simpl;
    auto using initialize_frame, downloadModel_frame, deleteModel_frame,
               loadModel_frame, unloadModel_frame.
Qed.

Lemma run_calls_frame cs s : R s (run_calls cs s).
Proof.
  revert s. induction cs as [|c cs IH]; intros s; simpl; auto.
  eapply R_trans; [apply run_call_frame | apply IH].
Qed.

End Frame.

(** A field no write touches reads the same, key by key. *)
Definition same_view {B} (f : ModelInfo -> B) (s s' : State) : Prop :=
  view f s' = view f s.

Lemma same_view_write B (f : ModelInfo -> B) (g : ModelInfo -> ModelInfo) :
  (forall m, f (g m) = f m) ->
  forall s k v, JSMap.get k (models s) = Some v ->
                same_view f s (write_model k (g v) s).
Proof.
  intros Hg s k v E. unfold same_view, view; simpl.
  eapply set_keeps_view; eauto.
Qed.

Lemma same_view_refl B (f : ModelInfo -> B) s : same_view f s s.
Proof. reflexivity. Qed.

Lemma same_view_trans B (f : ModelInfo -> B) s1 s2 s3 :
  same_view f s1 s2 -> same_view f s2 s3 -> same_view f s1 s3.
Proof. unfold same_view; congruence. Qed.

Lemma same_view_drop B (f : ModelInfo -> B) s k :
  same_view f s (drop_handle k s).
Proof. reflexivity. Qed.

Lemma same_view_initialized B (f : ModelInfo -> B) s :
  same_view f s (mkState (models s) (loadedModels s) true).
Proof. reflexivity. Qed.

Lemma same_view_loaded B (f : ModelInfo -> B) :
  (forall b m, f (set_loaded b m) = f m) ->
  forall s k v b, JSMap.get k (models s) = Some v ->
                  same_view f s (write_model k (set_loaded b v) s).
Proof. intros Hf s k v b. apply (same_view_write f (set_loaded b)). auto. Qed.

Lemma same_view_downloaded B (f : ModelInfo -> B) :
  (forall b m, f (set_downloaded b m) = f m) ->
  forall s k v b, JSMap.get k (models s) = Some v ->
                  same_view f s (write_model k (set_downloaded b v) s).
Proof.
  intros Hf s k v b. apply (same_view_write f (set_downloaded b)). auto.
Qed.

Create HintDb frame.

#[local] Hint Resolve same_view_refl same_view_trans same_view_drop
  same_view_initialized same_view_loaded same_view_downloaded : frame.

(** No call ever fills [loadedModels]. *)
Definition stays_empty (s s' : State) : Prop :=
  loadedModels s = [] -> loadedModels s' = [].

Lemma stays_empty_refl s : stays_empty s s.
Proof. unfold stays_empty; auto. Qed.

Lemma stays_empty_trans s1 s2 s3 :
  stays_empty s1 s2 -> stays_empty s2 s3 -> stays_empty s1 s3.
Proof. unfold stays_empty; auto. Qed.

Lemma stays_empty_drop s k : stays_empty s (drop_handle k s).
Proof. unfold stays_empty; simpl. intros ->. reflexivity. Qed.

Lemma view_get B (f : ModelInfo -> B) s s' k :
  view f s' = view f s ->
  option_map f (JSMap.get k (models s'))
  = option_map f (JSMap.get k (models s)).
Proof.
  unfold view. generalize (models s) as m, (models s') as m'.
  induction m as [|[k0 v0] m IH]; intros [|[k1 v1] m'] Hv; simpl in *;
    try discriminate; auto.
  inversion Hv; subst. destruct (String.eqb k k0); simpl; auto.
  f_equal; assumption.
Qed.

(** *** The RAM the registry can ever charge *)

Definition charge (total : Z) (model : ModelInfo) : Z :=
  if loaded model then total + ramRequiredMB model else total.

Definition ceiling (rams : list (string * Z)) : Z :=
  fold_right (fun kr t => Z.max 0 (snd kr) + t) 0 rams.

Lemma charge_le_ceiling (m : JSMap.t ModelInfo) (total : Z) :
  fold_left charge (JSMap.values m) total
  <= total + ceiling (map (fun km => (fst km, ramRequiredMB (snd km))) m).
Proof.
  revert total. induction m as [|[k v] m IH]; intros total;
    cbn [JSMap.values map fold_left ceiling fold_right fst snd]; [lia|].
  specialize (IH (charge total v)).
  unfold JSMap.values in IH.
  assert (charge total v <= total + Z.max 0 (ramRequiredMB v))
    by (unfold charge; destruct (loaded v); lia).
  unfold ceiling in *. lia.
Qed.

Lemma ram_le_ceiling s :
  getLoadedModelsRAM s <= ceiling (view ramRequiredMB s).
Proof.
  unfold getLoadedModelsRAM.
  pose proof (charge_le_ceiling (models s) 0) as Hc.
  unfold charge in Hc. unfold view. lia.
Qed.

(** The states a client can reach keep the registry of
    [MODELS_CONFIG] and an empty [loadedModels]. *)
Lemma reachable_registry cs :
  view ramRequiredMB (run_calls cs new_ModelManager)
  = view ramRequiredMB new_ModelManager.
Proof.
  apply (run_calls_frame (same_view ramRequiredMB)); eauto with frame.
Qed.

Lemma reachable_no_handle cs :
  loadedModels (run_calls cs new_ModelManager) = [].
Proof.
  apply (run_calls_frame stays_empty);
    eauto using stays_empty_refl, stays_empty_trans, stays_empty_drop;
    unfold stays_empty; auto.
Qed.

Lemma reachable_ram cs :
  getLoadedModelsRAM (run_calls cs new_ModelManager) <= 1650.
Proof.
  pose proof (ram_le_ceiling (run_calls cs new_ModelManager)) as H.
  rewrite reachable_registry in H. exact H.
Qed.

Lemma reachable_model_ram cs k model :
  JSMap.get k (models (run_calls cs new_ModelManager)) = Some model ->
  ramRequiredMB model <= 800.
Proof.
  intros E. destruct (get_in_view ramRequiredMB _ _ E) as [k' Hin].
  fold (view ramRequiredMB (run_calls cs new_ModelManager)) in Hin.
  rewrite reachable_registry in Hin. simpl in Hin.
  repeat (destruct Hin as [Hin|Hin]; [inversion Hin; lia|]).
  destruct Hin.
Qed.

(** With the built-in registry a load never has to evict. *)
Lemma reachable_no_eviction cs k model :
  let s := run_calls cs new_ModelManager in
  JSMap.get k (models s) = Some model ->
  ensureMemoryAvailable (ramRequiredMB model) s = (Ok tt, s).
Proof.
  intros s E.
  pose proof (reachable_ram cs) as Hr.
  pose proof (reachable_model_ram cs k E) as Hm. fold s in Hr.
  assert (Hlt : (maxRAM - getLoadedModelsRAM s <? ramRequiredMB model)
                = false)
    by (apply Z.ltb_ge; unfold maxRAM; lia).
  unfold ensureMemoryAvailable, bind, gets. cbv beta iota.
  rewrite Hlt. reflexivity.
Qed.

(** What [loadModel] does on a reachable state. *)
Lemma reachable_loadModel cs k :
  let s := run_calls cs new_ModelManager in
  loadModel k s =
  match JSMap.get k (models s) with
  | None => (Throw ("Model " ++ k ++ " not found")%string, s)
  | Some model =>
      if negb (downloaded model)
      then (Throw ("Model " ++ k ++ " not downloaded")%string, s)
      else (Ok JSnull, write_model k (set_loaded true model) s)
  end.
Proof.
  intros s. unfold loadModel, bind at 1, getModel at 1, gets; simpl.
  destruct (JSMap.get k (models s)) as [model|] eqn:E; [|reflexivity].
  destruct (negb (downloaded model)); [reflexivity|].
  unfold bind at 1; simpl.
  pose proof (reachable_no_handle cs) as Hl. fold s in Hl. rewrite Hl; simpl.
  assert (Hgo :
    (ensureMemoryAvailable (ramRequiredMB model) ;;;
     om' <- getModel k ;;
     match om' with
     | Some model' => models_set k (set_loaded true model') ;;; ret JSnull
     | None => ret JSnull
     end) s = (Ok JSnull, write_model k (set_loaded true model) s)).
  { unfold bind at 1. subst s. rewrite (reachable_no_eviction cs k E).
    unfold bind, getModel, gets; simpl. rewrite E. reflexivity. }
  destruct (loaded model); exact Hgo.
Qed.

Lemma run_calls_snoc cs c s :
  run_calls (cs ++ [c]) s = run_call c (run_calls cs s).
Proof. unfold run_calls. rewrite fold_left_app. reflexivity. Qed.

(** *** The claims *)

(** C2.  After any run of [initialize], [downloadModel], [deleteModel],
    [loadModel] and [unloadModel] calls on a fresh manager, the RAM of
    the loaded models, as [getLoadedModelsRAM] returns it, is at most
    the 4096 MB budget, and it still is after the memory check and the
    eviction step of [loadModel], whatever amount they are asked to
    free. *)
Theorem loaded_ram_within_budget (calls : list Call) :
  let s := run_calls calls new_ModelManager in
  getLoadedModelsRAM s <= maxRAM
  /\ (forall requiredMB,
        getLoadedModelsRAM (snd (evictModels requiredMB s)) <= maxRAM)
  /\ (forall requiredMB,
        getLoadedModelsRAM (snd (ensureMemoryAvailable requiredMB s))
        <= maxRAM)
  /\ (forall modelId,
        getLoadedModelsRAM (snd (loadModel modelId s)) <= maxRAM).
Proof.
  intros s.
  assert (Hany : forall s', view ramRequiredMB s' = view ramRequiredMB s ->
                            getLoadedModelsRAM s' <= maxRAM).
  { intros s' Hv. pose proof (ram_le_ceiling s') as H.
    rewrite Hv in H. subst s. rewrite reachable_registry in H.
    unfold maxRAM. simpl in H. lia. }
  repeat split.
  - apply Hany. reflexivity.
  - intros r. apply Hany.
    apply (evictModels_frame (same_view ramRequiredMB)); eauto with frame.
  - intros r. apply Hany.
    apply (ensureMemoryAvailable_frame (same_view ramRequiredMB));
      eauto with frame.
  - intros k. apply Hany.
    apply (loadModel_frame (same_view ramRequiredMB)); eauto with frame.
Qed.

(** C9.  On any reachable state, a second [loadModel] of the same id
    right after the first gives the same outcome (the same handle, or
    the same error) and leaves the state, hence [getLoadedModelsRAM],
    as the first call left it; and a first call that succeeds leaves
    the model loaded. *)
Theorem loadModel_twice (calls : list Call) (modelId : string) :
  let s := run_calls calls new_ModelManager in
  let first := loadModel modelId s in
  let second := loadModel modelId (snd first) in
  fst second = fst first
  /\ getLoadedModelsRAM (snd second) = getLoadedModelsRAM (snd first)
  /\ snd second = snd first
  /\ (forall handle, fst first = Ok handle ->
        isModelLoaded modelId (snd first) = true).
Proof.
  intros s first second.
  assert (Hs1 : snd first = run_calls (calls ++ [CallLoadModel modelId])
                                      new_ModelManager).
  { rewrite run_calls_snoc. reflexivity. }
  assert (Hfirst := reachable_loadModel calls modelId).
  cbv zeta in Hfirst. fold s in Hfirst. fold first in Hfirst.
  assert (Hsecond := reachable_loadModel (calls ++ [CallLoadModel modelId])
                                         modelId).
  cbv zeta in Hsecond. rewrite <- Hs1 in Hsecond. fold second in Hsecond.
  destruct (JSMap.get modelId (models s)) as [model|] eqn:E.
  - destruct (negb (downloaded model)) eqn:D.
    + rewrite Hfirst in Hsecond |- *. simpl in *. rewrite E, D in Hsecond.
      rewrite Hsecond. simpl. repeat split; auto. discriminate.
    + rewrite Hfirst in Hsecond |- *. simpl in *.
      pose proof (@get_set_same _ modelId model (set_loaded true model) _ E)
        as Hget.
      rewrite Hget in Hsecond. simpl in Hsecond.
      rewrite D in Hsecond. rewrite Hsecond. simpl.
      unfold write_model; simpl. rewrite set_set.
      repeat split; auto. intros handle _. unfold isModelLoaded; simpl.
      rewrite Hget. reflexivity.
  - rewrite Hfirst in Hsecond |- *. simpl in *. rewrite E in Hsecond.
    rewrite Hsecond. simpl. repeat split; auto. discriminate.
Qed.

(** The successful case at work: once the small speech model is
    downloaded, loading it twice charges its 150 MB once. *)
Example load_whisper_tiny_twice :
  let s := run_calls [CallDownloadModel "whisper-tiny-thai" 200]
                     new_ModelManager in
  let first := loadModel "whisper-tiny-thai" s in
  let second := loadModel "whisper-tiny-thai" (snd first) in
  fst first = Ok JSnull
  /\ fst second = Ok JSnull
  /\ getLoadedModelsRAM s = 0
  /\ getLoadedModelsRAM (snd first) = 150
  /\ getLoadedModelsRAM (snd second) = 150.
Proof. repeat split; vm_compute; reflexivity. Qed.

(** C10.  [loadModel], [unloadModel] and the eviction step leave the
    [downloaded] flag of every registered model as it was, in any
    state: the registry shows the same flag under every key, and
    [isModelDownloaded] answers the same. *)
Theorem load_unload_keep_downloaded (modelId : string) (s : State) :
  view downloaded (snd (loadModel modelId s)) = view downloaded s
  /\ view downloaded (snd (unloadModel modelId s)) = view downloaded s
  /\ (forall requiredMB,
        view downloaded (snd (evictModels requiredMB s)) = view downloaded s)
  /\ (forall k,
        isModelDownloaded k (snd (loadModel modelId s))
        = isModelDownloaded k s)
  /\ (forall k,
        isModelDownloaded k (snd (unloadModel modelId s))
        = isModelDownloaded k s).
Proof.
  assert (Hl : view downloaded (snd (loadModel modelId s))
               = view downloaded s).
  { apply (loadModel_frame (same_view downloaded)); eauto with frame. }
  assert (Hu : view downloaded (snd (unloadModel modelId s))
               = view downloaded s).
  { apply (unloadModel_frame (same_view downloaded)); eauto with frame. }
  assert (Hflag : forall s', view downloaded s' = view downloaded s ->
            forall k, isModelDownloaded k s' = isModelDownloaded k s).
  { intros s' Hv k. pose proof (view_get downloaded s s' k Hv) as Hg.
    unfold isModelDownloaded.
    destruct (JSMap.get k (models s')), (JSMap.get k (models s));
      simpl in Hg; congruence. }
  repeat split; auto.
  intros r.
  apply (evictModels_frame (same_view downloaded)); eauto with frame.
Qed.

End ModelManagerFacts.

(* ------------------------------------------------------------------ *)
(** ** Arrays *)
(* ------------------------------------------------------------------ *)

Module JSArrayFacts.

Import JSArray.

Section Sort.
Context {num : Type} `{JSNumber num} {A : Type}.
Variable comparefn : A -> A -> num.

Lemma sort_insert_In x y l :
  In y (sort_insert comparefn x l) <-> y = x \/ In y l.
Proof.
  induction l as [|z l IH]; simpl.
  - intuition congruence.
  - destruct (comparefn x z >? of_Z 0)%js; simpl; rewrite ?IH;
      intuition congruence.
Qed.

Lemma sort_In y l : In y (sort comparefn l) <-> In y l.
Proof.
  induction l as [|x l IH]; simpl; [tauto|].
  rewrite sort_insert_In, IH. intuition congruence.
Qed.

Lemma sort_insert_length x l :
  length (sort_insert comparefn x l) = S (length l).
Proof.
  induction l as [|z l IH]; simpl; auto.
  destruct (comparefn x z >? of_Z 0)%js; simpl; auto.
Qed.

Lemma sort_length l : length (sort comparefn l) = length l.
Proof.
  induction l as [|x l IH]; simpl; auto.
  rewrite sort_insert_length. congruence.
Qed.

(** An element is moved only behind elements the comparator puts
    strictly ahead of it: whatever a test [p] selects keeps its order,
    as long as [p] never selects both an element and one it was moved
    behind. *)
Lemma sort_insert_filter (p : A -> bool) x l :
  (forall z, p x = true -> (comparefn x z >? of_Z 0)%js = true ->
             p z = false) ->
  filter p (sort_insert comparefn x l) = filter p (x :: l).
Proof.
  intros Hp. induction l as [|z l IH]; simpl; auto.
  destruct (comparefn x z >? of_Z 0)%js eqn:C; simpl; auto.
  simpl in IH. rewrite IH.
  destruct (p x) eqn:Px; auto.
  rewrite (Hp z eq_refl C). reflexivity.
Qed.

Lemma sort_filter (p : A -> bool) l :
  (forall x z, p x = true -> (comparefn x z >? of_Z 0)%js = true ->
               p z = false) ->
  filter p (sort comparefn l) = filter p l.
Proof.
  intros Hp. induction l as [|x l IH]; simpl; auto.
  rewrite sort_insert_filter by (intros z; apply Hp).
  simpl. rewrite IH. reflexivity.
Qed.

End Sort.

Lemma slice0_length A n (l : list A) : length (slice0 n l) <= n.
Proof. unfold slice0. rewrite length_firstn. lia. Qed.

Lemma slice0_In A n (l : list A) x : In x (slice0 n l) -> In x l.
Proof.
  unfold slice0. revert l. induction n as [|n IH]; intros [|y l]; simpl;
    try tauto.
  intros [->|Hin]; auto.
Qed.

(** What a test selects from a prefix is a prefix of what it selects. *)
Lemma filter_firstn_prefix A (p : A -> bool) n (l : list A) :
  exists k, filter p (firstn n l) = firstn k (filter p l).
Proof.
  revert l. induction n as [|n IH]; intros l.
  - exists 0%nat. reflexivity.
  - destruct l as [|x l]; simpl.
    + exists 0%nat. reflexivity.
    + destruct (IH l) as [k Hk]. rewrite Hk.
      destruct (p x); [exists (S k) | exists k]; reflexivity.
Qed.


(** A prefix of a sorted list is sorted. *)
Lemma firstn_sorted A (P : A -> A -> Prop) n (l : list A) :
  StronglySorted P l -> StronglySorted P (firstn n l).
Proof.
  intros Hs. revert n. induction Hs as [|x l Hs IH Hx]; intros [|n]; simpl;
    try constructor; auto.
  apply Forall_forall. intros y Hy. rewrite Forall_forall in Hx.
  apply Hx. eapply slice0_In. exact Hy.
Qed.

Lemma filter_filter_implied A (p g : A -> bool) (l : list A) :
  (forall x, p x = true -> g x = true) ->
  filter p (filter g l) = filter p l.
Proof.
  intros Hpg. induction l as [|x l IH]; simpl; auto.
  destruct (g x) eqn:G; simpl; rewrite IH; auto.
  destruct (p x) eqn:P; auto. rewrite (Hpg x P) in G. discriminate.
Qed.

Lemma filter_filter_excluded A (p g : A -> bool) (l : list A) :
  (forall x, p x = true -> g x = false) ->
  filter p (filter g l) = [].
Proof.
  intros Hpg. induction l as [|x l IH]; simpl; auto.
  destruct (g x) eqn:G; simpl; auto.
  destruct (p x) eqn:P; auto. rewrite (Hpg x P) in G. discriminate.
Qed.

End JSArrayFacts.

(* ------------------------------------------------------------------ *)
(** ** The vector store *)
(* ------------------------------------------------------------------ *)

Module DatabaseFacts.

Import DatabaseService.

Section AnyNumbers.
Context {num : Type} `{JSNumber num}.

(** The list [vectorSearch] answers with on an open database. *)
Definition search_results (d : Database num) (q : list num) (limit : nat)
    (threshold : num) : list (VectorSearchResult.t num) :=
  JSArray.slice0 limit
    (JSArray.sort by_score_desc
       (filter (fun r => (VectorSearchResult.score r >=? threshold)%js)
               (map (row_to_result q) (select_chunks_join_embeddings d)))).

Lemma vectorSearch_open d q limit threshold :
  vectorSearch (Some d) q (Some limit) (Some threshold)
  = Ok (search_results d q limit threshold).
Proof. reflexivity. Qed.

Lemma search_results_length d q limit threshold :
  length (search_results d q limit threshold) <= limit.
Proof. apply JSArrayFacts.slice0_length. Qed.

Lemma search_results_In d q limit threshold r :
  In r (search_results d q limit threshold) ->
  (VectorSearchResult.score r >=? threshold)%js = true
  /\ In r (map (row_to_result q) (select_chunks_join_embeddings d)).
Proof.
  intros Hin. apply JSArrayFacts.slice0_In in Hin.
  apply JSArrayFacts.sort_In in Hin. apply filter_In in Hin. tauto.
Qed.

Lemma joined_rows_In (d : Database num) c e :
  In (c, e) (select_chunks_join_embeddings d) <->
  In c (chunks d) /\ In e (embeddings d)
  /\ JSString_eqb (ChunkRow.id c) (EmbeddingRow.chunk_id e) = true.
Proof.
  unfold select_chunks_join_embeddings. rewrite in_flat_map. split.
  - intros [c' [Hc Hin]]. apply in_map_iff in Hin.
    destruct Hin as [e' [Heq He]]. inversion Heq; subst.
    apply filter_In in He. tauto.
  - intros [Hc [He Hid]]. exists c. split; auto.
    apply in_map_iff. exists e. split; auto. apply filter_In. auto.
Qed.

(** Adding a user chunk writes the two user tables and nothing else. *)
Lemma addUserChunk_corpus (d : Database num) documentId content chunkIndex
    totalChunks embedding now :
  exists d',
    snd (addUserChunk (Some d) documentId content chunkIndex totalChunks
                      embedding now) = Some d'
    /\ chunks d' = chunks d /\ embeddings d' = embeddings d
    /\ length (user_chunks d') = S (length (user_chunks d))
    /\ length (user_embeddings d') = S (length (user_embeddings d)).
Proof.
  eexists. split; [reflexivity|]. simpl.
  rewrite !length_app. simpl. repeat split; lia.
Qed.







(** Every result is made of a row of [chunks] and a row of
    [embeddings] under the same id. *)
Lemma search_results_from_corpus d q limit threshold r :
  In r (search_results d q limit threshold) ->
  exists c e,
    In c (chunks d) /\ In e (embeddings d)
    /\ JSString_eqb (ChunkRow.id c) (EmbeddingRow.chunk_id e) = true
    /\ r = row_to_result q (c, e).
Proof.
  intros Hin. apply search_results_In in Hin. destruct Hin as [_ Hin].
  apply in_map_iff in Hin. destruct Hin as [[c e] [Hr Hrow]].
  apply joined_rows_In in Hrow. exists c, e. intuition.
Qed.

Lemma vectorSearch_ignores_user_tables db documentId content chunkIndex
    totalChunks embedding now q limit threshold :
  vectorSearch (snd (addUserChunk db documentId content chunkIndex
                                  totalChunks embedding now))
               q limit threshold
  = vectorSearch db q limit threshold.
Proof. destruct db; reflexivity. Qed.

(** C4 (as the code has it).  [vectorSearch] scans the corpus tables
    [chunks] and [embeddings] and no other: every result is built from
    a row of each, and a chunk stored by [addUserChunk] changes neither
    the answer of [vectorSearch] nor that of [retrieveChunks], whatever
    the filters are, [userDocumentsOnly] included. *)
Theorem search_scans_corpus_only (db : Handle num)
    (documentId content : JSString) (chunkIndex totalChunks : Z)
    (embedding : list num) (now : Z) (q : list num) (limit : option nat)
    (threshold : option num) (topK : nat) (thr : num)
    (filters : option QueryFilters.t) :
  let db' := snd (addUserChunk db documentId content chunkIndex totalChunks
                               embedding now) in
  vectorSearch db' q limit threshold = vectorSearch db q limit threshold
  /\ RAGEngine.retrieveChunks db' q topK thr filters
     = RAGEngine.retrieveChunks db q topK thr filters
  /\ (forall d results r,
        db' = Some d ->
        vectorSearch db' q limit threshold = Ok results ->
        In r results ->
        exists c e,
          In c (chunks d) /\ In e (embeddings d)
          /\ JSString_eqb (ChunkRow.id c) (EmbeddingRow.chunk_id e) = true
          /\ r = row_to_result q (c, e)).
Proof.
  intros db'. subst db'. repeat split.
  - apply vectorSearch_ignores_user_tables.
  - unfold RAGEngine.retrieveChunks.
    rewrite vectorSearch_ignores_user_tables. reflexivity.
  - intros d results r Hd Hs Hin. rewrite Hd in Hs.
    unfold vectorSearch in Hs. inversion Hs; subst; clear Hs.
    eapply (search_results_from_corpus d q
              (match limit with Some l => l | None => 10%nat end)
              (match threshold with
               | Some t => t
               | None => (of_Z 7 / of_Z 10)%js
               end)).
    exact Hin.
Qed.

End AnyNumbers.

(** *** Scenarios in binary64 *)

Module Scenario.

Import Float64.
Open Scope float_scope.
Open Scope string_scope.

Definition chunk (id : string) (content : JSString) : ChunkRow.t :=
  ChunkRow.mk (str id) (str ("sutta-" ++ id)) content 0 1
              (str "Title") (str "Pali") (str "sutta") (str "Nikaya").

Definition stored (id : string) (v : list float) : EmbeddingRow.t float :=
  EmbeddingRow.mk (str id) v (Z.of_nat (length v)).

(** No corpus at all, and one user chunk whose embedding is the
    query's. *)
Definition empty_db : Handle float := Some (mkDatabase [] [] [] []).

Definition with_user_chunk : Handle float :=
  snd (addUserChunk empty_db (str "doc1") (str "hello") 0 1 [1; 0] 0).

Definition user_documents_only : option QueryFilters.t :=
  Some (QueryFilters.mk None None (Some true)).

(** Two chunks with the same embedding, in either table order. *)
Definition db_b_then_a : Database float :=
  mkDatabase [chunk "b" (str "x"); chunk "a" (str "y")]
             [stored "a" [1; 0]; stored "b" [1; 0]] [] [].

Definition db_a_then_b : Database float :=
  mkDatabase [chunk "a" (str "x"); chunk "b" (str "y")]
             [stored "a" [1; 0]; stored "b" [1; 0]] [] [].


(** One chunk whose text alone is past the context budget. *)
Definition db_long : Database float :=
  mkDatabase [chunk "a" (repeat 97%N (82 * 100))] [stored "a" [1; 0]] [] [].

Definition ids (r : result (list (VectorSearchResult.t float)))
  : list JSString :=
  match r with
  | Ok results => map (@VectorSearchResult.id float) results
  | Throw _ => []
  end.

Definition scores (r : result (list (VectorSearchResult.t float)))
  : list float :=
  match r with
  | Ok results => map (@VectorSearchResult.score float) results
  | Throw _ => []
  end.

End Scenario.

Import Float64.

(** C4, refuted as stated.  With an empty corpus and one stored user
    chunk whose embedding is the query's (score 1 against a threshold
    of 0.5), the search that asks for user documents answers with no
    result: the user tables are never scanned. *)
Lemma user_chunk_never_found :
  (exists row,
     option_map (@user_embeddings float) Scenario.with_user_chunk
     = Some [row]
     /\ PrimFloat.leb 0.5
          (1 - cosineDistance [1; 0] (UserEmbeddingRow.embedding row))%float
        = true)
  /\ RAGEngine.retrieveChunks Scenario.with_user_chunk [1; 0]%float 5
                              0.5%float Scenario.user_documents_only
     = Ok []
  /\ vectorSearch Scenario.with_user_chunk [1; 0]%float (Some 10%nat)
                  (Some 0.5%float)
     = Ok [].
Proof.
  split; [|split; vm_compute; reflexivity].
  eexists. split; vm_compute; reflexivity.
Qed.

(** *** Dimension mismatch, in binary64 *)





End DatabaseFacts.

(* ------------------------------------------------------------------ *)
(** ** The order of binary64 numbers *)
(* ------------------------------------------------------------------ *)

(** Every binary64 number other than NaN is given an integer, its
    value in units of [2^-1074] (the infinities stand beyond every
    finite number), so that the comparisons of the engine, and the sign
    of a rounded difference, are read off integers. *)

Module Binary64Order.

Local Unset Implicit Arguments.
Open Scope Z_scope.

(** *** Digits *)

Lemma digits2_pos_bounds (m : positive) :
  2 ^ (Zpos (digits2_pos m) - 1) <= Zpos m < 2 ^ Zpos (digits2_pos m).
Proof.
  induction m as [m IH|m IH|]; cbn [digits2_pos].
  - rewrite Pos2Z.inj_succ.
    replace (Z.succ (Zpos (digits2_pos m)) - 1)
      with (Z.succ (Zpos (digits2_pos m) - 1)) by lia.
    rewrite !Z.pow_succ_r by lia. lia.
  - rewrite Pos2Z.inj_succ.
    replace (Z.succ (Zpos (digits2_pos m)) - 1)
      with (Z.succ (Zpos (digits2_pos m) - 1)) by lia.
    rewrite !Z.pow_succ_r by lia. lia.
  - simpl. lia.
Qed.


(** *** The value of a float, as an integer

    Every finite binary64 number is a multiple of [2^-1074]; [ord]
    is that multiple, with the infinities beyond every finite one. *)

Definition big : Z := 2 ^ 2098.

Definition ord (x : spec_float) : Z :=
  match x with
  | S754_zero _ => 0
  | S754_infinity false => big
  | S754_infinity true => - big
  | S754_nan => 0
  | S754_finite s m e => cond_Zopp s (Zpos m * 2 ^ (e + 1074))
  end.

Definition is_number (x : spec_float) : Prop := x <> S754_nan.

Lemma valid_finite s m e :
  valid_binary (S754_finite s m e) = true ->
  -1074 <= e <= 971
  /\ Zpos (digits2_pos m) <= 53
  /\ (-1074 < e -> Zpos (digits2_pos m) = 53).
Proof.
  unfold SpecFloat.valid_binary, bounded, canonical_mantissa, fexp, emin,
    prec, emax.
  intros H. apply andb_true_iff in H. destruct H as [Hc He].
  apply Z.eqb_eq in Hc. apply Z.leb_le in He. lia.
Qed.

Lemma pow2_pos k : 0 < 2 ^ k \/ (k < 0 /\ 2 ^ k = 0).
Proof.
  destruct (Z_lt_le_dec k 0) as [Hk|Hk].
  - right. split; [exact Hk|]. apply Z.pow_neg_r. exact Hk.
  - left. apply Z.pow_pos_nonneg; lia.
Qed.

Lemma finite_ord_bounds s m e :
  valid_binary (S754_finite s m e) = true ->
  0 < Zpos m * 2 ^ (e + 1074) < big.
Proof.
  intros Hv. destruct (valid_finite _ _ _ Hv) as [He [Hd _]].
  pose proof (digits2_pos_bounds m) as [_ Hm].
  assert (Hm53 : Zpos m < 2 ^ 53).
  { eapply Z.lt_le_trans; [exact Hm|].
    apply Z.pow_le_mono_r; lia. }
  assert (Hp : 0 < 2 ^ (e + 1074)) by (apply Z.pow_pos_nonneg; lia).
  assert (Hq : 2 ^ (e + 1074) <= 2 ^ 2045)
    by (apply Z.pow_le_mono_r; lia).
  split; [apply Z.mul_pos_pos; lia|].
  unfold big. replace 2098 with (53 + 2045) by lia.
  rewrite (Z.pow_add_r 2 53 2045) by lia.
  apply Z.le_lt_trans with (Zpos m * 2 ^ 2045).
  - apply Z.mul_le_mono_nonneg_l; lia.
  - apply Z.mul_lt_mono_pos_r; [apply Z.pow_pos_nonneg; lia|exact Hm53].
Qed.

Lemma canonical_lt s1 m1 e1 s2 m2 e2 :
  valid_binary (S754_finite s1 m1 e1) = true ->
  valid_binary (S754_finite s2 m2 e2) = true ->
  e1 < e2 ->
  Zpos m1 * 2 ^ (e1 + 1074) < Zpos m2 * 2 ^ (e2 + 1074).
Proof.
  intros H1 H2 Hlt.
  destruct (valid_finite _ _ _ H1) as [He1 [Hd1 _]].
  destruct (valid_finite _ _ _ H2) as [He2 [_ Hd2]].
  specialize (Hd2 ltac:(lia)).
  pose proof (digits2_pos_bounds m1) as [_ Hm1].
  pose proof (digits2_pos_bounds m2) as [Hm2 _].
  rewrite Hd2 in Hm2.
  assert (Hm53 : Zpos m1 < 2 ^ 53).
  { eapply Z.lt_le_trans; [exact Hm1|]. apply Z.pow_le_mono_r; lia. }
  assert (Hp : 0 < 2 ^ (e1 + 1074)) by (apply Z.pow_pos_nonneg; lia).
  assert (Hq : 2 * 2 ^ (e1 + 1074) <= 2 ^ (e2 + 1074)).
  { rewrite <- Z.pow_succ_r by lia. apply Z.pow_le_mono_r; lia. }
  change (2 ^ (53 - 1)) with (2 ^ 52) in Hm2.
  change (2 ^ 53) with (2 * 2 ^ 52) in Hm53.
  assert (Ha : 0 < 2 ^ 52) by (apply Z.pow_pos_nonneg; lia).
  set (a := 2 ^ 52) in *. set (P1 := 2 ^ (e1 + 1074)) in *.
  set (P2 := 2 ^ (e2 + 1074)) in *. clearbody a P1 P2.
  apply Z.lt_le_trans with (2 * a * P1); [nia|].
  apply Z.le_trans with (a * P2); nia.
Qed.

Lemma big_pos : 0 < big.
Proof. unfold big. apply Z.pow_pos_nonneg; lia. Qed.

(** On numbers, the comparison of two floats is that of their
    values. *)
Ltac by_compare :=
  match goal with
  | |- (_ ?= _) = Lt => apply Z.compare_lt_iff; lia
  | |- (_ ?= _) = Gt => apply Z.compare_gt_iff; lia
  | |- (_ ?= _) = Eq => apply Z.compare_eq_iff; lia
  end.

Lemma SFcompare_ord x y :
  valid_binary x = true -> valid_binary y = true ->
  is_number x -> is_number y ->
  SFcompare x y = Some (ord x ?= ord y).
Proof.
  intros Vx Vy Nx Ny. pose proof big_pos as Hbig.
  destruct x as [sx|sx| |sx mx ex]; [| |congruence|];
    destruct y as [sy|sy| |sy my ey]; try congruence;
    try pose proof (finite_ord_bounds _ _ _ Vx) as Bx;
    try pose proof (finite_ord_bounds _ _ _ Vy) as By.
  1-8: repeat match goal with s : bool |- _ => destruct s end;
       cbn [SFcompare ord cond_Zopp]; f_equal; symmetry; by_compare.
  cbn [SFcompare ord]; f_equal; symmetry.
  - set (Px := Zpos mx * 2 ^ (ex + 1074)) in *.
    set (Py := Zpos my * 2 ^ (ey + 1074)) in *.
    assert (Hcases :
      (ex < ey /\ Px < Py) \/ (ey < ex /\ Py < Px)
      \/ (ex = ey /\ (Px ?= Py) = (Zpos mx ?= Zpos my))).
    { destruct (Z.lt_total ex ey) as [H|[H|H]].
      - left. split; [exact H|].
        apply (canonical_lt sx mx ex sy my ey); assumption.
      - right. right. split; [exact H|]. unfold Px, Py. subst ey.
        symmetry. apply Zmult_compare_compat_r. apply Z.lt_gt.
        apply Z.pow_pos_nonneg; [lia|].
        destruct (valid_finite _ _ _ Vx). lia.
      - right. left. split; [exact H|].
        apply (canonical_lt sy my ey sx mx ex); assumption. }
    destruct sx, sy; cbn [cond_Zopp].
    + (* both negative *)
      rewrite Z.compare_opp.
      destruct Hcases as [[He Hp]|[[He Hp]|[He Hp]]].
      * apply Z.compare_lt_iff in He. rewrite He.
        apply Z.compare_gt_iff. lia.
      * apply Z.compare_gt_iff in He. rewrite He.
        apply Z.compare_lt_iff. lia.
      * subst ey. rewrite Z.compare_refl.
        rewrite (Z.compare_antisym Px Py), Hp. reflexivity.
    + apply Z.compare_lt_iff. lia.
    + apply Z.compare_gt_iff. lia.
    + destruct Hcases as [[He Hp]|[[He Hp]|[He Hp]]].
      * apply Z.compare_lt_iff in He. rewrite He.
        apply Z.compare_lt_iff. lia.
      * apply Z.compare_gt_iff in He. rewrite He.
        apply Z.compare_gt_iff. lia.
      * subst ey. rewrite Z.compare_refl. rewrite Hp. reflexivity.
Qed.

(** *** Rounding keeps the sign

    A value that is a non-zero multiple of [2^e] with [e] at or above
    the least exponent is never rounded to zero. *)

Lemma shr_1_m mrs : 0 <= shr_m mrs -> shr_m (shr_1 mrs) = shr_m mrs / 2.
Proof.
  destruct mrs as [m r s0]. cbn [shr_m]. intros Hm.
  destruct m as [|p|p]; [reflexivity| |lia].
  destruct p as [p|p|]; cbn [shr_1 shr_m].
  - rewrite Pos2Z.inj_xI. apply Z.div_unique with 1; lia.
  - rewrite Pos2Z.inj_xO. apply Z.div_unique with 0; lia.
  - reflexivity.
Qed.

Lemma iter_shr_1_m p : forall mrs,
  0 <= shr_m mrs ->
  shr_m (iter_pos shr_1 p mrs) = shr_m mrs / 2 ^ Zpos p.
Proof.
  assert (Hdiv : forall a b c, 0 < b -> 0 < c -> a / b / c = a / (b * c))
    by (intros; apply Z.div_div; lia).
  assert (Hnn : forall a b, 0 <= a -> 0 < b -> 0 <= a / b)
    by (intros; apply Z.div_pos; lia).
  induction p as [p IH|p IH|]; intros mrs Hm; cbn [iter_pos].
  - assert (H2 : 0 < 2 ^ Zpos p) by (apply Z.pow_pos_nonneg; lia).
    assert (Hp : 2 ^ Zpos p~1 = 2 * (2 ^ Zpos p * 2 ^ Zpos p)).
    { rewrite Pos2Z.inj_xI, <- Z.pow_add_r, <- Z.pow_succ_r by lia.
      f_equal; lia. }
    assert (H1 : 0 <= shr_m (shr_1 mrs))
      by (rewrite shr_1_m by exact Hm; apply Hnn; lia).
    assert (H3 : 0 <= shr_m (iter_pos shr_1 p (shr_1 mrs)))
      by (rewrite IH by exact H1; apply Hnn; lia).
    rewrite IH, IH, shr_1_m by assumption.
    rewrite !Hdiv by lia. rewrite Hp. f_equal; lia.
  - assert (H2 : 0 < 2 ^ Zpos p) by (apply Z.pow_pos_nonneg; lia).
    assert (Hp : 2 ^ Zpos p~0 = 2 ^ Zpos p * 2 ^ Zpos p).
    { rewrite Pos2Z.inj_xO, <- Z.pow_add_r by lia. f_equal; lia. }
    assert (H3 : 0 <= shr_m (iter_pos shr_1 p mrs))
      by (rewrite IH by exact Hm; apply Hnn; lia).
    rewrite IH, IH by assumption.
    rewrite !Hdiv by lia. rewrite Hp. reflexivity.
  - rewrite shr_1_m by exact Hm. reflexivity.
Qed.

Lemma shr_record_of_loc_m m l : shr_m (shr_record_of_loc m l) = m.
Proof. destruct l as [|[| |]]; reflexivity. Qed.

Lemma shr_fexp_pos m e l :
  0 < m -> -1074 <= e ->
  0 < shr_m (fst (shr_fexp prec emax m e l))
  /\ -1074 <= snd (shr_fexp prec emax m e l).
Proof.
  intros Hm He. unfold shr_fexp, shr.
  destruct m as [|p|p]; try lia. cbn [Zdigits2].
  set (n := fexp prec emax (Zpos (digits2_pos p) + e) - e).
  assert (Hn : n = Z.max (Zpos (digits2_pos p) - 53) (-1074 - e))
    by (unfold n, fexp, emin, prec, emax; lia).
  destruct n as [|k|k] eqn:En; cbn [fst snd];
    rewrite ?shr_record_of_loc_m; try (split; lia).
  split; [|lia].
  rewrite iter_shr_1_m by (rewrite shr_record_of_loc_m; lia).
  rewrite shr_record_of_loc_m.
  apply Z.div_str_pos. split; [apply Z.pow_pos_nonneg; lia|].
  pose proof (digits2_pos_bounds p) as [Hlow _].
  eapply Z.le_trans; [|exact Hlow].
  apply Z.pow_le_mono_r; lia.
Qed.

Lemma round_nearest_even_pos m l : 0 < m -> 0 < round_nearest_even m l.
Proof.
  intros Hm. unfold round_nearest_even.
  destruct l as [|[| |]]; try lia. destruct (Z.even m); lia.
Qed.

Definition has_sign (s : bool) (x : spec_float) : Prop :=
  x = S754_infinity s \/ exists m e, x = S754_finite s m e.

Lemma binary_round_aux_sign s m e l :
  0 < m -> -1074 <= e ->
  has_sign s (binary_round_aux prec emax s m e l).
Proof.
  intros Hm He. unfold binary_round_aux.
  destruct (shr_fexp_pos m e l Hm He) as [H1 H2].
  destruct (shr_fexp prec emax m e l) as [mrs' e'].
  cbn [fst snd] in H1, H2.
  pose proof (round_nearest_even_pos (shr_m mrs') (loc_of_shr_record mrs')
                H1) as Hr.
  destruct (shr_fexp_pos _ e' loc_Exact Hr H2) as [H3 _].
  destruct (shr_fexp prec emax
              (round_nearest_even (shr_m mrs') (loc_of_shr_record mrs'))
              e' loc_Exact) as [mrs'' e''].
  cbn [fst] in H3.
  destruct (shr_m mrs'') as [|p|p]; try lia.
  destruct (e'' <=? emax - prec); [right; eauto|left; reflexivity].
Qed.

Lemma binary_round_sign s m e :
  -1074 <= e -> has_sign s (binary_round prec emax s m e).
Proof.
  intros He. unfold binary_round, shl_align.
  set (f := fexp prec emax (Zpos (digits2_pos m) + e)).
  assert (Hf : -1074 <= f) by (unfold f, fexp, emin, prec, emax; lia).
  destruct (f - e) as [|d|d] eqn:Ed;
    apply binary_round_aux_sign; lia.
Qed.

(** *** The sign of a difference *)

Lemma iter_xO_value d m : Zpos (Pos.iter xO m d) = Zpos m * 2 ^ Zpos d.
Proof.
  induction d as [|d IH] using Pos.peano_ind.
  - simpl. lia.
  - rewrite Pos.iter_succ, Pos2Z.inj_xO, IH, Pos2Z.inj_succ,
      Z.pow_succ_r by lia. lia.
Qed.

Lemma shl_align_value m e ez :
  ez <= e -> Zpos (fst (shl_align m e ez)) = Zpos m * 2 ^ (e - ez).
Proof.
  intros He. unfold shl_align.
  destruct (ez - e) as [|d|d] eqn:Ed; cbn [fst]; try lia.
  - replace (e - ez) with 0 by lia. lia.
  - rewrite iter_xO_value. f_equal. f_equal. lia.
Qed.

Lemma zero_below s x :
  has_sign s x -> SFltb (S754_zero false) x = negb s.
Proof. intros [->|[m [e ->]]]; destruct s; reflexivity. Qed.

(** [0 < y - x] exactly when [x < y]: the difference of two binary64
    numbers is rounded, but never to zero and never across it. *)
Lemma SFsub_positive x y :
  valid_binary x = true -> valid_binary y = true ->
  is_number x -> is_number y ->
  SFltb (S754_zero false) (SFsub prec emax y x) = (ord x <? ord y).
Proof.
  intros Vx Vy Nx Ny. pose proof big_pos as Hbig.
  destruct x as [sx|sx| |sx mx ex]; [| |congruence|];
    destruct y as [sy|sy| |sy my ey]; try congruence;
    try pose proof (finite_ord_bounds _ _ _ Vx) as Bx;
    try pose proof (finite_ord_bounds _ _ _ Vy) as By.
  1-8: repeat match goal with s : bool |- _ => destruct s end;
       cbn [SFsub SFltb SFcompare ord cond_Zopp negb]; symmetry;
       first [apply Z.ltb_lt; lia | apply Z.ltb_ge; lia].
  cbn [SFsub ord].
  destruct (valid_finite _ _ _ Vx) as [Hex _].
  destruct (valid_finite _ _ _ Vy) as [Hey _].
  set (ez := Z.min ey ex).
  rewrite (shl_align_value my ey ez), (shl_align_value mx ex ez)
    by (unfold ez; lia).
  set (D := cond_Zopp sy (Zpos my * 2 ^ (ey - ez))
            - cond_Zopp sx (Zpos mx * 2 ^ (ex - ez))).
  assert (HK : 0 < 2 ^ (ez + 1074))
    by (apply Z.pow_pos_nonneg; unfold ez; lia).
  assert (Hy : Zpos my * 2 ^ (ey - ez) * 2 ^ (ez + 1074)
               = Zpos my * 2 ^ (ey + 1074)).
  { rewrite <- Z.mul_assoc, <- Z.pow_add_r by (unfold ez; lia).
    f_equal; f_equal; lia. }
  assert (Hx : Zpos mx * 2 ^ (ex - ez) * 2 ^ (ez + 1074)
               = Zpos mx * 2 ^ (ex + 1074)).
  { rewrite <- Z.mul_assoc, <- Z.pow_add_r by (unfold ez; lia).
    f_equal; f_equal; lia. }
  assert (HD : D * 2 ^ (ez + 1074)
               = cond_Zopp sy (Zpos my * 2 ^ (ey + 1074))
                 - cond_Zopp sx (Zpos mx * 2 ^ (ex + 1074))).
  { unfold D. rewrite Z.mul_sub_distr_r.
    destruct sx, sy; cbn [cond_Zopp];
      rewrite ?Z.mul_opp_l, Hx, Hy; reflexivity. }
  set (K := 2 ^ (ez + 1074)) in *.
  set (oy := cond_Zopp sy (Zpos my * 2 ^ (ey + 1074))) in *.
  set (ox := cond_Zopp sx (Zpos mx * 2 ^ (ex + 1074))) in *.
  clearbody D K oy ox.
  destruct D as [|d|d]; cbn [binary_normalize].
  - symmetry. apply Z.ltb_ge. lia.
  - rewrite (zero_below false) by (apply binary_round_sign; unfold ez; lia).
    symmetry. apply Z.ltb_lt. nia.
  - rewrite (zero_below true) by (apply binary_round_sign; unfold ez; lia).
    symmetry. apply Z.ltb_ge. nia.
Qed.

(** *** Binary64 numbers *)

Definition number (x : float) : Prop := Prim2SF x <> S754_nan.

Definition value (x : float) : Z := ord (Prim2SF x).

Lemma ltb_value x y :
  number x -> number y -> (x <? y)%float = (value x <? value y).
Proof.
  intros Nx Ny. rewrite ltb_spec. unfold SFltb, value.
  rewrite (SFcompare_ord _ _ (Prim2SF_valid x) (Prim2SF_valid y) Nx Ny).
  reflexivity.
Qed.

Lemma leb_value x y :
  number x -> number y -> (x <=? y)%float = (value x <=? value y).
Proof.
  intros Nx Ny. rewrite leb_spec. unfold SFleb, value.
  rewrite (SFcompare_ord _ _ (Prim2SF_valid x) (Prim2SF_valid y) Nx Ny).
  unfold Z.leb. destruct (ord (Prim2SF x) ?= ord (Prim2SF y)); reflexivity.
Qed.

Lemma eqb_value x y :
  number x -> number y -> (x =? y)%float = (value x =? value y).
Proof.
  intros Nx Ny. rewrite eqb_spec. unfold SFeqb, value.
  rewrite (SFcompare_ord _ _ (Prim2SF_valid x) (Prim2SF_valid y) Nx Ny).
  rewrite Z.eqb_compare. reflexivity.
Qed.

Lemma leb_number x y : (x <=? y)%float = true -> number x /\ number y.
Proof.
  rewrite leb_spec. unfold SFleb, number.
  destruct (Prim2SF x), (Prim2SF y); cbn [SFcompare];
    intros H; try discriminate; split; discriminate.
Qed.

Lemma eqb_number x y : (x =? y)%float = true -> number x /\ number y.
Proof.
  rewrite eqb_spec. unfold SFeqb, number.
  destruct (Prim2SF x), (Prim2SF y); cbn [SFcompare];
    intros H; try discriminate; split; discriminate.
Qed.

Lemma sub_positive x y :
  number x -> number y ->
  (0 <? y - x)%float = (value x <? value y).
Proof.
  intros Nx Ny. rewrite ltb_spec, sub_spec.
  change (Prim2SF 0) with (S754_zero false).
  apply SFsub_positive; auto using Prim2SF_valid.
Qed.

End Binary64Order.

(* ------------------------------------------------------------------ *)
(** ** Scores in binary64 *)
(* ------------------------------------------------------------------ *)

Module Binary64Search.

Import DatabaseService Float64 DatabaseFacts Binary64Order.
Import VectorSearchResult.
Open Scope float_scope.

Definition score_against (q stored : list float) : float :=
  VectorSearchResult.score
    (row_to_result q (Scenario.chunk "c" (str "x"),
                      Scenario.stored "c" stored)).

(** *** The cosine, as the loop computes it *)

(** The sum of products the loop of [cosineDistance] accumulates:
    from 0, left to right, each product and each sum rounded. *)
Definition dot (a b : list float) : float :=
  fold_left (fun s p => s + fst p * snd p) (combine a b) 0.

Definition cosine_similarity (a b : list float) : float :=
  dot a b / (sqrt (dot a a) * sqrt (dot b b)).

Lemma fold_left_ext (A B : Type) (f g : A -> B -> A) l a :
  (forall x y, f x y = g x y) -> fold_left f l a = fold_left g l a.
Proof.
  intros E. revert a. induction l as [|y l IH]; intros a; simpl; auto.
  rewrite E. apply IH.
Qed.

Lemma loop_splits (l : list (float * float)) d na nb :
  fold_left
    (fun '(dotProduct, normA, normB) '(ai, bi) =>
       ((dotProduct + ai * bi)%js, (normA + ai * ai)%js,
        (normB + bi * bi)%js))
    l (d, na, nb)
  = (fold_left (fun s p => s + fst p * snd p) l d,
     fold_left (fun s p => s + fst p * fst p) l na,
     fold_left (fun s p => s + snd p * snd p) l nb).
Proof.
  revert d na nb. induction l as [|[x y] l IH]; intros d na nb; simpl.
  - reflexivity.
  - apply IH.
Qed.

Lemma squares_left (a b : list float) s :
  length a = length b ->
  fold_left (fun s p => s + fst p * fst p) (combine a b) s
  = fold_left (fun s p => s + fst p * snd p) (combine a a) s.
Proof.
  revert b s. induction a as [|x a IH]; intros [|y b] s Hl;
    simpl in *; try discriminate; auto.
Qed.

Lemma squares_right (a b : list float) s :
  length a = length b ->
  fold_left (fun s p => s + snd p * snd p) (combine a b) s
  = fold_left (fun s p => s + fst p * snd p) (combine b b) s.
Proof.
  revert b s. induction a as [|x a IH]; intros [|y b] s Hl;
    simpl in *; try discriminate; auto.
Qed.

Lemma cosineDistance_cosine (a b : list float) :
  length a = length b ->
  cosineDistance a b = 1 - cosine_similarity a b.
Proof.
  intros Hl. unfold cosineDistance. rewrite Hl, Nat.eqb_refl.
  cbn [negb]. rewrite loop_splits.
  rewrite (squares_left a b _ Hl), (squares_right a b _ Hl).
  reflexivity.
Qed.

(** *** The comparator and the sort *)

Definition scored (r : VectorSearchResult.t float) : Prop :=
  number (score r).

Definition at_least (a b : VectorSearchResult.t float) : Prop :=
  (score b <=? score a) = true.

Definition score_is (v : float) (r : VectorSearchResult.t float) : bool :=
  score r =? v.

Lemma at_least_value a b :
  scored a -> scored b -> at_least a b <-> (value (score b) <= value (score a))%Z.
Proof.
  intros Na Nb. unfold at_least. rewrite (leb_value _ _ Nb Na).
  apply Z.leb_le.
Qed.

Lemma comparator_positive a b :
  scored a -> scored b ->
  (by_score_desc a b >? of_Z 0)%js
  = (value (score a) <? value (score b))%Z.
Proof.
  intros Na Nb. unfold by_score_desc. simpl.
  apply sub_positive; assumption.
Qed.

(** The comparator is positive only between two numbers. *)
Lemma comparator_positive_scored a b :
  (by_score_desc a b >? of_Z 0)%js = true -> scored a /\ scored b.
Proof.
  unfold by_score_desc, scored, number. simpl.
  rewrite ltb_spec, sub_spec.
  destruct (Prim2SF (score b)) as [sb|sb| |sb mb eb],
           (Prim2SF (score a)) as [sa|sa| |sa ma ea];
    intros C; split; try discriminate;
    cbn in C; try discriminate;
    destruct sb, sa; cbn in C; discriminate.
Qed.

Lemma sort_insert_scored x l :
  scored x -> Forall scored l ->
  Forall scored (JSArray.sort_insert by_score_desc x l).
Proof.
  intros Hx Hl. apply Forall_forall. intros y Hy.
  apply JSArrayFacts.sort_insert_In in Hy. destruct Hy as [->|Hy]; auto.
  rewrite Forall_forall in Hl. auto.
Qed.

Lemma sort_scored l :
  Forall scored l -> Forall scored (JSArray.sort by_score_desc l).
Proof.
  induction 1 as [|x l Hx Hl IH]; simpl; [constructor|].
  apply sort_insert_scored; assumption.
Qed.

Lemma sort_insert_sorted x l :
  scored x -> Forall scored l ->
  StronglySorted at_least l ->
  StronglySorted at_least (JSArray.sort_insert by_score_desc x l).
Proof.
  intros Nx Nl Hs. induction Hs as [|z l Hs IH Hz]; cbn [JSArray.sort_insert].
  - repeat constructor.
  - inversion Nl as [|? ? Nz Nl']; subst.
    rewrite (comparator_positive Nx Nz).
    destruct (value (score x) <? value (score z))%Z eqn:C.
    + apply Z.ltb_lt in C. constructor; auto.
      apply Forall_forall. intros y Hy.
      apply JSArrayFacts.sort_insert_In in Hy. destruct Hy as [->|Hy].
      * apply at_least_value; auto. lia.
      * rewrite Forall_forall in Hz. auto.
    + apply Z.ltb_ge in C.
      constructor; [constructor; auto|].
      constructor; [apply at_least_value; auto|].
      apply Forall_forall. intros y Hy.
      rewrite Forall_forall in Hz, Nl'.
      specialize (Hz y Hy). specialize (Nl' y Hy).
      apply at_least_value in Hz; auto.
      apply at_least_value; auto. lia.
Qed.

Lemma sort_sorted l :
  Forall scored l -> StronglySorted at_least (JSArray.sort by_score_desc l).
Proof.
  induction 1 as [|x l Hx Hl IH]; simpl; [constructor|].
  apply sort_insert_sorted; auto using sort_scored.
Qed.

Lemma sort_stable v l :
  filter (score_is v) (JSArray.sort by_score_desc l) = filter (score_is v) l.
Proof.
  apply JSArrayFacts.sort_filter. intros x z Px C.
  destruct (comparator_positive_scored C) as [Nx Nz].
  rewrite (comparator_positive Nx Nz) in C. apply Z.ltb_lt in C.
  unfold score_is in *.
  destruct (score z =? v) eqn:Pz; [|reflexivity].
  destruct (eqb_number _ _ Px) as [_ Nv].
  rewrite (eqb_value _ _ Nx Nv) in Px. rewrite (eqb_value _ _ Nz Nv) in Pz.
  apply Z.eqb_eq in Px, Pz. lia.
Qed.

Lemma score_is_reaches v threshold r :
  score_is v r = true ->
  (score r >=? threshold)%js = (v >=? threshold)%js.
Proof.
  unfold score_is. simpl. intros Pr.
  destruct (eqb_number _ _ Pr) as [Nr Nv].
  rewrite (eqb_value _ _ Nr Nv) in Pr. apply Z.eqb_eq in Pr.
  destruct (Prim2SF threshold) eqn:T.
  1,2,4: assert (Nt : number threshold)
           by (unfold number; rewrite T; discriminate);
         rewrite (leb_value _ _ Nt Nr), (leb_value _ _ Nt Nv), Pr;
         reflexivity.
  rewrite !leb_spec, T. reflexivity.
Qed.

Lemma passed_scored threshold (l : list (VectorSearchResult.t float)) :
  Forall scored (filter (fun r => (score r >=? threshold)%js) l).
Proof.
  apply Forall_forall. intros r Hr. apply filter_In in Hr.
  destruct Hr as [_ Hr]. simpl in Hr.
  apply leb_number in Hr. apply Hr.
Qed.

(** C5 (as the code has it).  For a query and a stored embedding of
    equal dimension, the score of the result is [1 - distance] with
    [distance = 1 - cosine_similarity], every sum, product, square
    root, quotient and difference being the binary64 one, rounded.
    The score is not confined to [[0, 1]]: some non-zero vectors of
    equal dimension score below 0, and some score above 1. *)
Theorem score_is_cosine (q : list float) (c : ChunkRow.t)
    (e : EmbeddingRow.t float) :
  length q = length (EmbeddingRow.embedding e) ->
  let r := row_to_result q (c, e) in
  score r = 1 - distance r
  /\ distance r = 1 - cosine_similarity q (EmbeddingRow.embedding e)
  /\ score r
     = 1 - (1 - dot q (EmbeddingRow.embedding e)
                / (sqrt (dot q q)
                   * sqrt (dot (EmbeddingRow.embedding e)
                               (EmbeddingRow.embedding e))))
  /\ (exists a b, length a = length b
                  /\ (0 <? dot a a) = true /\ (0 <? dot b b) = true
                  /\ (score_against a b <? 0) = true)
  /\ (exists a b, length a = length b
                  /\ (0 <? dot a a) = true /\ (0 <? dot b b) = true
                  /\ (1 <? score_against a b) = true).
Proof.
  intros Hl r.
  assert (Hd : distance r
               = 1 - cosine_similarity q (EmbeddingRow.embedding e)).
  { unfold r, row_to_result, blobToVector. cbn [distance].
    apply cosineDistance_cosine. exact Hl. }
  assert (Hs : score r = 1 - distance r) by reflexivity.
  split; [exact Hs|]. split; [exact Hd|].
  split; [rewrite Hs, Hd; reflexivity|]. split.
  - exists [1], [-1]. repeat split; vm_compute; reflexivity.
  - exists [1; 1; 1], [1; 1; 1]. repeat split; vm_compute; reflexivity.
Qed.

Lemma score_is_cosine_witness :
  let q := [1; 0.5] in
  let c := Scenario.chunk "c" (str "x") in
  let e := Scenario.stored "c" [0.5; 1] in
  let r := row_to_result q (c, e) in
  score r = 1 - distance r
  /\ distance r = 1 - cosine_similarity q (EmbeddingRow.embedding e)
  /\ score r
     = 1 - (1 - dot q (EmbeddingRow.embedding e)
                / (sqrt (dot q q)
                   * sqrt (dot (EmbeddingRow.embedding e)
                               (EmbeddingRow.embedding e))))
  /\ (exists a b, length a = length b
                  /\ (0 <? dot a a) = true /\ (0 <? dot b b) = true
                  /\ (score_against a b <? 0) = true)
  /\ (exists a b, length a = length b
                  /\ (0 <? dot a a) = true /\ (0 <? dot b b) = true
                  /\ (1 <? score_against a b) = true).
Proof.
  intros q c e.
  apply (@score_is_cosine q c e).
  reflexivity.
Defined.

(** C6 (as the code has it).  [vectorSearch] returns at most [limit]
    results, each with a score that passes [>= threshold]; they are in
    descending order of score; and the results of one score stand in
    the order of the scanned rows: for every score [v] they are a
    prefix of the rows of score [v].  No chunk id is compared. *)
Theorem vectorSearch_order (d : Database float) (q : list float)
    (limit : nat) (threshold : float) :
  exists results,
    vectorSearch (Some d) q (Some limit) (Some threshold) = Ok results
    /\ (length results <= limit)%nat
    /\ Forall (fun r => (threshold <=? score r) = true) results
    /\ StronglySorted (fun a b => (score b <=? score a) = true) results
    /\ (forall v, exists k,
          filter (fun r => score r =? v) results
          = firstn k (filter (fun r => score r =? v)
                        (map (row_to_result q)
                             (select_chunks_join_embeddings d)))).
Proof.
  exists (search_results d q limit threshold).
  split; [reflexivity|].
  split; [apply search_results_length|].
  split.
  { apply Forall_forall. intros r Hr.
    apply search_results_In in Hr. apply Hr. }
  split.
  { apply JSArrayFacts.firstn_sorted. apply sort_sorted.
    apply passed_scored. }
  intros v. unfold search_results, JSArray.slice0.
  destruct (JSArrayFacts.filter_firstn_prefix (score_is v) limit
              (JSArray.sort by_score_desc
                 (filter (fun r => (score r >=? threshold)%js)
                         (map (row_to_result q)
                              (select_chunks_join_embeddings d)))))
    as [k Hk].
  fold (score_is v). rewrite Hk, sort_stable.
  destruct (v >=? threshold)%js eqn:Dv.
  - exists k. rewrite JSArrayFacts.filter_filter_implied; [reflexivity|].
    intros x Px. rewrite (score_is_reaches threshold Px). exact Dv.
  - exists 0%nat. rewrite JSArrayFacts.filter_filter_excluded.
    + destruct k; reflexivity.
    + intros x Px. rewrite (score_is_reaches threshold Px). exact Dv.
Qed.

(** C5, refuted as stated.  The score of two opposite unit vectors is
    [-1], below the interval [[0, 1]]; and rounding takes the score of
    [[1, 1, 1]] against itself just above 1. *)
Lemma score_outside_unit_interval :
  score_against [1] [-1] = -1
  /\ PrimFloat.ltb (score_against [1] [-1]) 0 = true
  /\ score_against [1; 1; 1] [1; 1; 1] = 0x1.0000000000001p+0
  /\ PrimFloat.ltb 1 (score_against [1; 1; 1] [1; 1; 1]) = true.
Proof. repeat split; vm_compute; reflexivity. Qed.

(** The scenario of the specification: chunk A embedded as [[1, 0]]
    and chunk B as [[0, 1]]; the query [[1, 0]] at threshold 0.5 and
    limit 5 returns A alone, with score 1, and B scores 0. *)
Example chapter_one_only :
  let d := mkDatabase [Scenario.chunk "A" (str "one");
                       Scenario.chunk "B" (str "two")]
                      [Scenario.stored "A" [1; 0];
                       Scenario.stored "B" [0; 1]] [] [] in
  Scenario.ids (vectorSearch (Some d) [1; 0] (Some 5%nat) (Some 0.5))
  = [str "A"]
  /\ Scenario.scores (vectorSearch (Some d) [1; 0] (Some 5%nat) (Some 0.5))
     = [1]
  /\ score_against [1; 0] [0; 1] = 0.
Proof. repeat split; vm_compute; reflexivity. Qed.

(** C6, refuted as stated.  Two chunks ["a"] and ["b"] with the same
    score come back in the order of the [chunks] table, whichever it
    is: the tie is not settled by chunk id. *)
Lemma ties_follow_table_order :
  Scenario.ids (vectorSearch (Some Scenario.db_b_then_a) [1; 0]
                             (Some 5%nat) (Some 0.5))
  = [str "b"; str "a"]
  /\ Scenario.ids (vectorSearch (Some Scenario.db_a_then_b) [1; 0]
                                (Some 5%nat) (Some 0.5))
     = [str "a"; str "b"]
  /\ Scenario.scores (vectorSearch (Some Scenario.db_b_then_a) [1; 0]
                                   (Some 5%nat) (Some 0.5))
     = [1; 1]
  /\ Scenario.scores (vectorSearch (Some Scenario.db_a_then_b) [1; 0]
                                   (Some 5%nat) (Some 0.5))
     = [1; 1].
Proof. repeat split; vm_compute; reflexivity. Qed.

End Binary64Search.

(* ------------------------------------------------------------------ *)
(** ** The query engine *)
(* ------------------------------------------------------------------ *)

Module RAGFacts.

Import RAGEngine.

Section AnyNumbers.
Context {num : Type} `{JSNumber num}.
Variable getQueryEmbedding : JSString -> list num.
Variable llm_generate : JSString -> result JSString.

(** The citation [buildCitations] makes of one result. *)
Definition citation_of (r : VectorSearchResult.t num) : Citation.t num :=
  Citation.mk
    (SuttaMeta.id (VectorSearchResult.metadata r))
    (SuttaMeta.title_thai (VectorSearchResult.metadata r))
    (firstn 200 (VectorSearchResult.content r) ++ str "...")%list
    (VectorSearchResult.score r).

(** The results whose text [buildContext] pushed before it stopped. *)
Definition included (results : list (VectorSearchResult.t num))
  : list (VectorSearchResult.t num) :=
  firstn (length (buildContext_loop results [] 0%Z)) results.

(** The confidence as the specification words it:
    [average(similarity_score) * min(count / top_k, 1)], and 0 for no
    result. *)
Definition spec_confidence (results : list (VectorSearchResult.t num))
    (top_k : nat) : num :=
  match results with
  | [] => of_Z 0
  | _ =>
      let count := of_Z (Z.of_nat (length results)) in
      let average :=
        (fold_left (fun sum r => sum + VectorSearchResult.score r)
                   results (of_Z 0) / count)%js in
      (average * Math_min (count / of_Z (Z.of_nat top_k))%js (of_Z 1))%js
  end.

Lemma buildContext_loop_prefix (results : list (VectorSearchResult.t num))
    contexts tokens :
  exists n,
    (n <= length results)%nat
    /\ buildContext_loop results contexts tokens
       = (contexts ++ map chunk_text (firstn n results))%list.
Proof.
  revert contexts tokens.
  induction results as [|r rest IH]; intros contexts tokens; simpl.
  - exists 0%nat. rewrite app_nil_r. auto.
  - destruct (tokens + estimateTokens (chunk_text r) >? MAX_CONTEXT_TOKENS)%Z.
    + exists 0%nat. simpl. rewrite app_nil_r. split; [lia|reflexivity].
    + destruct (IH (contexts ++ [chunk_text r])%list
                   (tokens + estimateTokens (chunk_text r))%Z) as [n [Hn E]].
      exists (S n). simpl. rewrite E, <- app_assoc. split; [lia|reflexivity].
Qed.

Lemma included_spec (results : list (VectorSearchResult.t num)) :
  buildContext_loop results [] 0%Z = map chunk_text (included results)
  /\ exists dropped, results = (included results ++ dropped)%list.
Proof.
  unfold included.
  destruct (buildContext_loop_prefix results [] 0%Z) as [n [Hn E]].
  simpl in E. rewrite E, length_map, length_firstn.
  replace (Nat.min n (length results)) with n by lia.
  split; [reflexivity|].
  exists (skipn n results). symmetry. apply firstn_skipn.
Qed.

Lemma buildCitations_map (results : list (VectorSearchResult.t num)) :
  buildCitations results = map citation_of results.
Proof. reflexivity. Qed.

Lemma calculateConfidence_spec (results : list (VectorSearchResult.t num)) :
  calculateConfidence results = spec_confidence results DEFAULT_TOP_K.
Proof. destruct results; reflexivity. Qed.

(** *** Calls in flight *)

Lemma find_call_app call (l : list (nat * @Suspended num)) c s :
  find_call call (l ++ [(c, s)])
  = match find_call call l with
    | Some x => Some x
    | None => if Nat.eqb c call then Some s else None
    end.
Proof.
  induction l as [|[c' s'] l IH]; simpl; [reflexivity|].
  destruct (Nat.eqb c' call); auto.
Qed.

Lemma find_call_fresh call (l : list (nat * @Suspended num)) :
  Forall (fun p => fst p < call) l -> find_call call l = None.
Proof.
  induction 1 as [|[c s] l Hc Hl IH]; simpl; [reflexivity|].
  simpl in Hc. destruct (Nat.eqb_spec c call); [lia|exact IH].
Qed.

Lemma find_call_update_same call s (l : list (nat * @Suspended num)) :
  find_call call l <> None -> find_call call (update_call call s l) = Some s.
Proof.
  induction l as [|[c' s'] l IH]; simpl; [congruence|].
  destruct (Nat.eqb c' call) eqn:E; simpl; rewrite E; auto.
Qed.

Lemma find_call_update_other call c s (l : list (nat * @Suspended num)) :
  c <> call -> find_call call (update_call c s l) = find_call call l.
Proof.
  intros Hc. induction l as [|[c' s'] l IH]; simpl; [reflexivity|].
  destruct (Nat.eqb_spec c' c) as [->|Hc']; simpl.
  - destruct (Nat.eqb_spec c call); [contradiction|exact IH].
  - rewrite IH. reflexivity.
Qed.

Lemma find_call_drop_same call (l : list (nat * @Suspended num)) :
  find_call call (drop_call call l) = None.
Proof.
  induction l as [|[c' s'] l IH]; simpl; [reflexivity|].
  destruct (Nat.eqb c' call) eqn:E; simpl; [exact IH|].
  rewrite E. exact IH.
Qed.

Lemma find_call_drop_other call c (l : list (nat * @Suspended num)) :
  c <> call -> find_call call (drop_call c l) = find_call call l.
Proof.
  intros Hc. induction l as [|[c' s'] l IH]; simpl; [reflexivity|].
  destruct (Nat.eqb_spec c' c) as [->|Hc']; simpl.
  - destruct (Nat.eqb_spec c call); [contradiction|exact IH].
  - rewrite IH. reflexivity.
Qed.

Lemma outcomes_settle (st : @Running num) c outcome call :
  outcomes (settle st c outcome) call
  = (outcomes st call ++ if Nat.eqb c call then [outcome] else [])%list.
Proof.
  unfold outcomes, settle; simpl.
  rewrite filter_app, map_app. simpl.
  destruct (Nat.eqb c call); reflexivity.
Qed.

(** Calls are numbered in the order they enter: what is in flight
    or settled carries a number below the next one. *)
Definition in_order (st : @Running num) : Prop :=
  Forall (fun p => fst p < next_call st) (in_flight st)
  /\ Forall (fun p => fst p < next_call st) (settled st).

Lemma numbered_settle (st : @Running num) c outcome :
  find_call c (in_flight st) <> None ->
  in_order st -> in_order (settle st c outcome).
Proof.
  intros Hc [Hf Hs]. split; simpl.
  - apply Forall_forall. intros p Hp. apply filter_In in Hp.
    rewrite Forall_forall in Hf. apply Hf. tauto.
  - apply Forall_app. split; [exact Hs|]. constructor; [|constructor].
    simpl. destruct (Nat.lt_ge_cases c (next_call st)) as [Hlt|Hge]; auto.
    exfalso. apply Hc. apply find_call_fresh.
    eapply Forall_impl; [|exact Hf]. simpl. intros; lia.
Qed.

Lemma numbered_suspend (st : @Running num) c s :
  in_order st -> in_order (suspend st c s).
Proof.
  intros [Hf Hs]. split; simpl; [|exact Hs].
  unfold update_call. apply Forall_map.
  eapply Forall_impl; [|exact Hf]. intros p Hp.
  destruct (Nat.eqb (fst p) c); exact Hp.
Qed.

Lemma numbered_run_event (st : @Running num) ev :
  in_order st -> in_order (run_event st ev).
Proof.
  intros Hn. destruct ev as [q0 t0 e0|c|c g t1]; simpl.
  - unfold query_enter. destruct (negb (initialized st)); [exact Hn|].
    destruct Hn as [Hf Hs]. split; simpl.
    + apply Forall_app. split.
      * eapply Forall_impl; [|exact Hf]. simpl. intros; lia.
      * repeat constructor.
    + eapply Forall_impl; [|exact Hs]. simpl. intros; lia.
  - unfold query_resume.
    destruct (find_call c (in_flight st)) as [[q t e|q t [rs|msg]|q t rs p]|]
      eqn:F; auto using numbered_suspend.
    apply numbered_settle; congruence.
  - unfold query_settle.
    destruct (find_call c (in_flight st)) as [[q t e|q t r|q t rs p]|]
      eqn:F; auto.
    destruct g; apply numbered_settle; congruence.
Qed.

Lemma numbered_run_events evs (st : @Running num) :
  in_order st -> in_order (run_events st evs).
Proof.
  revert st. induction evs as [|ev evs IH]; intros st Hn; simpl; auto.
  apply IH. apply numbered_run_event. exact Hn.
Qed.

(** No event changes the engine's own fields. *)
Lemma run_event_engine (st : @Running num) ev :
  initialized (run_event st ev) = initialized st
  /\ db (run_event st ev) = db st
  /\ next_call st <= next_call (run_event st ev).
Proof.
  destruct ev as [q0 t0 e0|c|c g t1]; simpl.
  - unfold query_enter. destruct (negb (initialized st)); simpl; auto.
  - unfold query_resume.
    destruct (find_call c (in_flight st)) as [[q t e|q t [rs|msg]|q t rs p]|];
      simpl; auto.
  - unfold query_settle.
    destruct (find_call c (in_flight st)) as [[q t e|q t r|q t rs p]|];
      simpl; auto.
    destruct g; simpl; auto.
Qed.

Lemma run_events_engine evs (st : @Running num) :
  initialized (run_events st evs) = initialized st
  /\ db (run_events st evs) = db st
  /\ next_call st <= next_call (run_events st evs).
Proof.
  revert st. induction evs as [|ev evs IH]; intros st; simpl; auto.
  destruct (IH (run_event st ev)) as [Hi [Hd Hn]].
  destruct (run_event_engine st ev) as [Hi' [Hd' Hn']].
  repeat split; try congruence. lia.
Qed.

(** An event of another call leaves a call where it is suspended and
    its promise as it is. *)
Lemma run_event_other (st : @Running num) ev call :
  of_call call ev = false ->
  call < next_call st ->
  find_call call (in_flight (run_event st ev))
  = find_call call (in_flight st)
  /\ outcomes (run_event st ev) call = outcomes st call.
Proof.
  intros Hev Hcall. destruct ev as [q0 t0 e0|c|c g t1]; simpl in *.
  - unfold query_enter. destruct (negb (initialized st)); simpl; auto.
    split; [|reflexivity]. rewrite find_call_app.
    destruct (find_call call (in_flight st)); [reflexivity|].
    destruct (Nat.eqb_spec (next_call st) call); [lia|reflexivity].
  - apply Nat.eqb_neq in Hev. unfold query_resume.
    destruct (find_call c (in_flight st)) as [[q t e|q t [rs|msg]|q t rs p]|];
      auto; cbn [suspend settle in_flight];
      rewrite ?outcomes_settle, ?find_call_update_other,
        ?find_call_drop_other by exact Hev; auto.
    destruct (Nat.eqb_spec c call); [contradiction|].
    rewrite app_nil_r. auto.
  - apply Nat.eqb_neq in Hev. unfold query_settle.
    destruct (find_call c (in_flight st)) as [[q t e|q t r|q t rs p]|];
      auto.
    destruct g; cbn [settle in_flight];
      rewrite ?outcomes_settle, ?find_call_drop_other by exact Hev;
      destruct (Nat.eqb_spec c call); try contradiction;
      rewrite ?app_nil_r; auto.
Qed.

Lemma run_events_other evs (st : @Running num) call :
  forallb (fun ev => negb (of_call call ev)) evs = true ->
  call < next_call st ->
  find_call call (in_flight (run_events st evs))
  = find_call call (in_flight st)
  /\ outcomes (run_events st evs) call = outcomes st call
  /\ call < next_call (run_events st evs)
  /\ db (run_events st evs) = db st.
Proof.
  revert st. induction evs as [|ev evs IH]; intros st Hevs Hcall; simpl.
  - auto.
  - simpl in Hevs. apply andb_true_iff in Hevs. destruct Hevs as [Hev Hevs].
    apply negb_true_iff in Hev.
    destruct (run_event_other st ev Hev Hcall) as [Hf Ho].
    destruct (run_event_engine st ev) as [_ [Hd Hn]].
    destruct (IH (run_event st ev) Hevs ltac:(lia)) as [Hf' [Ho' [Hn' Hd']]].
    repeat split; congruence.
Qed.

Lemma run_events_app (st : @Running num) a b :
  run_events st (a ++ b) = run_events (run_events st a) b.
Proof. apply fold_left_app. Qed.

Lemma run_events_cons (st : @Running num) ev evs :
  run_events st (ev :: evs) = run_events (run_event st ev) evs.
Proof. reflexivity. Qed.

(** The outcome of a call whose generation has been sent off. *)
Definition response_to (q : RAGQuery.t num) (startTime endTime : Z)
    (searchResults : list (VectorSearchResult.t num))
    (generated : result JSString) : result (RAGResponse.t num) :=
  match generated with
  | Throw msg => Throw msg
  | Ok answer =>
      Ok (RAGResponse.mk answer (buildCitations searchResults)
            (calculateConfidence searchResults) (endTime - startTime)%Z)
  end.

Lemma query_response db q startTime endTime queryEmbedding generated :
  query (fun _ => queryEmbedding) (fun _ => generated) true db q startTime
        endTime
  = match retrieveChunks db queryEmbedding
            match RAGQuery.topK q with
            | Some (S k) => S k
            | _ => DEFAULT_TOP_K
            end
            match RAGQuery.threshold q with
            | Some t => if truthy t then t else DEFAULT_THRESHOLD
            | None => DEFAULT_THRESHOLD
            end
            (RAGQuery.filters q) with
    | Throw msg => Throw msg
    | Ok searchResults =>
        response_to q startTime endTime searchResults generated
    end.
Proof.
  unfold query, generateAnswer, response_to. cbn [negb].
  destruct (retrieveChunks _ _ _ _ _); [|reflexivity].
  destruct generated; reflexivity.
Qed.

(** The whole course of one call among the events of other calls. *)
Lemma call_runs_alone (st : @Running num) q startTime queryEmbedding
    others1 others2 others3 others4 generated endTime :
  initialized st = true ->
  in_order st ->
  let call := next_call st in
  forallb (fun ev => negb (of_call call ev))
          (others1 ++ others2 ++ others3 ++ others4) = true ->
  let final :=
    run_events st
      (Calls q startTime queryEmbedding :: others1
       ++ Resumes call :: others2
       ++ Resumes call :: others3
       ++ Settles call generated endTime :: others4) in
  outcomes final call
  = [query (fun _ => queryEmbedding) (fun _ => generated) true (db st) q
           startTime endTime]
  /\ find_call call (in_flight final) = None.
Proof.
  intros Hinit [Hfl Hst] call Hothers final.
  rewrite !forallb_app in Hothers.
  apply andb_true_iff in Hothers. destruct Hothers as [H1 Hothers].
  apply andb_true_iff in Hothers. destruct Hothers as [H2 Hothers].
  apply andb_true_iff in Hothers. destruct Hothers as [H3 H4].
  unfold final. rewrite run_events_cons.
  set (st1 := run_event st (Calls q startTime queryEmbedding)).
  assert (F1 : find_call call (in_flight st1)
               = Some (AwaitsEmbedding q startTime queryEmbedding)).
  { unfold st1; simpl. unfold query_enter. rewrite Hinit. simpl.
    unfold call. rewrite find_call_app, (find_call_fresh Hfl), Nat.eqb_refl.
    reflexivity. }
  assert (O1 : outcomes st1 call = []).
  { unfold st1; simpl. unfold query_enter. rewrite Hinit. simpl.
    unfold outcomes. simpl.
    induction Hst as [|[c o] l Hc Hl IH]; simpl; [reflexivity|].
    simpl in Hc. destruct (Nat.eqb_spec c call); [unfold call in *; lia|].
    exact IH. }
  assert (N1 : call < next_call st1).
  { unfold st1; simpl. unfold query_enter. rewrite Hinit. simpl.
    unfold call. lia. }
  assert (D1 : db st1 = db st).
  { apply (run_event_engine st (Calls q startTime queryEmbedding)). }
  clearbody st1.
  rewrite run_events_app.
  destruct (run_events_other others1 st1 H1 N1) as [F2 [O2 [N2 D2]]].
  set (st2 := run_events st1 others1) in *. clearbody st2.
  rewrite F1 in F2. rewrite O1 in O2. rewrite D1 in D2.
  rewrite run_events_cons.
  set (st3 := run_event st2 (Resumes call)).
  set (retrieved :=
         retrieveChunks (db st) queryEmbedding
           match RAGQuery.topK q with
           | Some (S k) => S k
           | _ => DEFAULT_TOP_K
           end
           match RAGQuery.threshold q with
           | Some t => if truthy t then t else DEFAULT_THRESHOLD
           | None => DEFAULT_THRESHOLD
           end
           (RAGQuery.filters q)).
  assert (F3 : find_call call (in_flight st3)
               = Some (AwaitsRetrieval q startTime retrieved)).
  { unfold st3; simpl. unfold query_resume. rewrite F2. simpl.
    rewrite find_call_update_same by congruence. rewrite D2.
    reflexivity. }
  assert (O3 : outcomes st3 call = []).
  { unfold st3; simpl. unfold query_resume. rewrite F2. exact O2. }
  assert (N3 : call < next_call st3).
  { unfold st3; simpl. unfold query_resume. rewrite F2. exact N2. }
  assert (D3 : db st3 = db st).
  { unfold st3; simpl. unfold query_resume. rewrite F2. exact D2. }
  clearbody st3.
  rewrite run_events_app.
  destruct (run_events_other others2 st3 H2 N3) as [F4 [O4 [N4 D4]]].
  set (st4 := run_events st3 others2) in *. clearbody st4.
  rewrite F3 in F4. rewrite O3 in O4. rewrite D3 in D4.
  rewrite run_events_cons.
  set (st5 := run_event st4 (Resumes call)).
  rewrite query_response. fold retrieved.
  destruct retrieved as [searchResults|msg].
  - (* the retrieval returned: on to the generation *)
    assert (F5 : find_call call (in_flight st5)
                 = Some (AwaitsGeneration q startTime searchResults
                           (generation_prompt (RAGQuery.question q)
                              (buildContext searchResults)))).
    { unfold st5; simpl. unfold query_resume. rewrite F4. simpl.
      rewrite find_call_update_same by congruence. reflexivity. }
    assert (O5 : outcomes st5 call = []).
    { unfold st5; simpl. unfold query_resume. rewrite F4. exact O4. }
    assert (N5 : call < next_call st5).
    { unfold st5; simpl. unfold query_resume. rewrite F4. exact N4. }
    clearbody st5.
    rewrite run_events_app.
    destruct (run_events_other others3 st5 H3 N5) as [F6 [O6 [N6 _]]].
    set (st6 := run_events st5 others3) in *. clearbody st6.
    rewrite F5 in F6. rewrite O5 in O6.
    rewrite run_events_cons.
    set (st7 := run_event st6 (Settles call generated endTime)).
    assert (E7 : st7 = settle st6 call
                         (response_to q startTime endTime searchResults
                                      generated)).
    { unfold st7; simpl. unfold query_settle. rewrite F6.
      destruct generated; reflexivity. }
    assert (N7 : call < next_call st7) by (rewrite E7; exact N6).
    destruct (run_events_other others4 st7 H4 N7) as [F8 [O8 _]].
    rewrite F8, O8, E7, outcomes_settle, O6, Nat.eqb_refl.
    cbn [settle in_flight]. rewrite find_call_drop_same. auto.
  - (* the retrieval threw: the call throws the same *)
    assert (E5 : st5 = settle st4 call (Throw msg)).
    { unfold st5; simpl. unfold query_resume. rewrite F4. reflexivity. }
    assert (N5 : call < next_call st5) by (rewrite E5; exact N4).
    assert (F5 : find_call call (in_flight st5) = None).
    { rewrite E5. cbn [settle in_flight]. apply find_call_drop_same. }
    assert (O5 : outcomes st5 call = [Throw msg]).
    { rewrite E5, outcomes_settle, O4, Nat.eqb_refl. reflexivity. }
    clearbody st5.
    rewrite run_events_app.
    destruct (run_events_other others3 st5 H3 N5) as [F6 [O6 [N6 _]]].
    set (st6 := run_events st5 others3) in *. clearbody st6.
    rewrite F5 in F6. rewrite O5 in O6.
    rewrite run_events_cons.
    assert (E7 : run_event st6 (Settles call generated endTime) = st6).
    { simpl. unfold query_settle. rewrite F6. reflexivity. }
    rewrite E7.
    destruct (run_events_other others4 st6 H4 N6) as [F8 [O8 _]].
    rewrite F8, O8. auto.
Qed.

(** C3 (as the code has it).  [query] keeps no mark of a call in
    flight and has no busy error.  On an initialized engine, after
    whatever calls have entered and run so far, a new call is let in,
    beside the calls still in flight.  Whatever other calls then enter
    and run between its steps, the call is settled once, with the
    outcome [query] has on its own for the same embedding and the same
    answer of the language model.  The one guard is in the voice
    pipeline: while an interaction is processing,
    [startVoiceInteraction] returns at once, throwing nothing and
    leaving the state to the interaction under way. *)
Theorem query_accepts_concurrent_calls (db0 : DatabaseService.Handle num)
    (before : list Event) (q : RAGQuery.t num) (startTime : Z)
    (queryEmbedding : list num) :
  let st := run_events (mkRunning true db0 0 [] []) before in
  let call := next_call st in
  query_enter st q startTime queryEmbedding
  = (Accepted call,
     mkRunning true db0 (S call)
       (in_flight st
        ++ [(call, AwaitsEmbedding q startTime queryEmbedding)])%list
       (settled st))
  /\ (forall others1 others2 others3 others4 generated endTime,
        forallb (fun ev => negb (of_call call ev))
                (others1 ++ others2 ++ others3 ++ others4) = true ->
        let final :=
          run_events st
            (Calls q startTime queryEmbedding :: others1
             ++ Resumes call :: others2
             ++ Resumes call :: others3
             ++ Settles call generated endTime :: others4) in
        outcomes final call
        = [query (fun _ => queryEmbedding) (fun _ => generated) true db0 q
                 startTime endTime]
        /\ find_call call (in_flight final) = None)
  /\ (forall s : VoicePipeline.State num,
        VoicePipeline.isProcessing s = true ->
        VoicePipeline.startVoiceInteraction_enter s
        = (VoicePipeline.Returned, s)).
Proof.
  intros st call.
  destruct (run_events_engine before (mkRunning true db0 0 [] []))
    as [Hinit [Hdb _]].
  fold st in Hinit, Hdb. simpl in Hinit, Hdb.
  assert (Hnum : in_order st).
  { apply numbered_run_events. split; constructor. }
  split; [|split].
  - unfold query_enter. rewrite Hinit, Hdb. reflexivity.
  - intros others1 others2 others3 others4 generated endTime Hothers.
    rewrite <- Hdb.
    apply (call_runs_alone q startTime queryEmbedding others1 others2
             others3 others4 generated endTime Hinit Hnum Hothers).
  - intros s Hs. unfold VoicePipeline.startVoiceInteraction_enter.
    rewrite Hs. reflexivity.
Qed.

End AnyNumbers.

(** *** Scenarios in binary64 *)

Module Scenario.

Import Float64 DatabaseFacts.Scenario.
Open Scope float_scope.

(** An embedding model that maps every question to [[1, 0]] and a
    language model that always answers. *)
Definition embed (question : JSString) : list float := [1; 0].

Definition llm (prompt : JSString) : result JSString := Ok (str "answer").

(** A query for the two best results at threshold 0.5. *)
Definition top_two : RAGQuery.t float :=
  RAGQuery.mk (str "q") (Some 2%nat) (Some 0.5) None.

Definition ask (d : DatabaseService.Database float)
  : result (RAGResponse.t float) :=
  query embed llm true (Some d) top_two 0 7.

Definition response_of (r : result (RAGResponse.t float))
  : RAGResponse.t float :=
  match r with
  | Ok response => response
  | Throw _ => RAGResponse.mk [] [] 0 0
  end.

Definition retrieved (d : DatabaseService.Database float)
  : list (VectorSearchResult.t float) :=
  match retrieveChunks (Some d) [1; 0] 2 0.5 None with
  | Ok results => results
  | Throw _ => []
  end.

(** An engine with nothing in flight, then with [top_two] let in as
    call 0, its embedding being [[1, 0]]. *)
Definition idle : @Running float :=
  mkRunning true (Some db_a_then_b) 0 [] [].

Definition one_in_flight : @Running float :=
  run_events idle [Calls top_two 0 [1; 0]].

(** A second call enters at time 1; the two calls then take their
    steps in turn, and the language model answers the second first. *)
Definition both_run : list (@Event float) :=
  [Calls top_two 1 [1; 0]; Resumes 0; Resumes 1; Resumes 0; Resumes 1;
   Settles 1 (Ok (str "second")) 8; Settles 0 (Ok (str "first")) 9].

Definition is_Ok {A} (r : result A) : bool :=
  match r with
  | Ok _ => true
  | Throw _ => false
  end.

End Scenario.

Import Float64.

(** C1, refuted as stated.  The one retrieved chunk is too long for
    the 2048-token budget: [buildContext] takes nothing in and hands
    the model an empty context, and the response still cites the
    chunk. *)
Lemma dropped_chunk_still_cited :
  Scenario.ask DatabaseFacts.Scenario.db_long
  = Ok (Scenario.response_of (Scenario.ask DatabaseFacts.Scenario.db_long))
  /\ map (@Citation.suttaId float)
         (RAGResponse.sources
            (Scenario.response_of
               (Scenario.ask DatabaseFacts.Scenario.db_long)))
     = [str "sutta-a"]
  /\ length (Scenario.retrieved DatabaseFacts.Scenario.db_long) = 1%nat
  /\ included (Scenario.retrieved DatabaseFacts.Scenario.db_long) = []
  /\ buildContext (Scenario.retrieved DatabaseFacts.Scenario.db_long) = [].
Proof. repeat split; vm_compute; reflexivity. Qed.

(** C8, refuted as stated.  A query with [topK = 2] retrieves two
    results of score 1 and both enter the context: the formula with
    [top_k = 2] gives 1, the response says [2/5].  And where the one
    retrieved result is dropped from the context, so that nothing is
    included, the response says [1/5], not 0. *)
Lemma confidence_differs_from_formula :
  RAGResponse.confidence
    (Scenario.response_of (Scenario.ask DatabaseFacts.Scenario.db_a_then_b))
  = (2 / 5)%float
  /\ included (Scenario.retrieved DatabaseFacts.Scenario.db_a_then_b)
     = Scenario.retrieved DatabaseFacts.Scenario.db_a_then_b
  /\ spec_confidence
       (included (Scenario.retrieved DatabaseFacts.Scenario.db_a_then_b)) 2
     = 1%float
  /\ RAGResponse.confidence
       (Scenario.response_of (Scenario.ask DatabaseFacts.Scenario.db_long))
     = (1 / 5)%float
  /\ spec_confidence
       (included (Scenario.retrieved DatabaseFacts.Scenario.db_long)) 2
     = 0%float.
Proof. repeat split; vm_compute; reflexivity. Qed.

Lemma query_accepts_concurrent_calls_witness :
  query_enter Scenario.one_in_flight Scenario.top_two 1 [1; 0]%float
  = (Accepted 1,
     mkRunning true (Some DatabaseFacts.Scenario.db_a_then_b) 2
       (in_flight Scenario.one_in_flight
        ++ [(1%nat, AwaitsEmbedding Scenario.top_two 1 [1; 0]%float)])%list
       (settled Scenario.one_in_flight))
  /\ (let final :=
        run_events Scenario.one_in_flight
          (Calls Scenario.top_two 1 [1; 0]%float :: [Resumes 0]
           ++ Resumes 1 :: [Resumes 0]
           ++ Resumes 1 :: [Settles 0 (Ok (str "first")) 9]
           ++ Settles 1 (Ok (str "second")) 8 :: []) in
      outcomes final 1
      = [query (fun _ => [1; 0]%float) (fun _ => Ok (str "second")) true
               (Some DatabaseFacts.Scenario.db_a_then_b) Scenario.top_two
               1 8]
      /\ find_call 1 (in_flight final) = None).
Proof.
  destruct (@query_accepts_concurrent_calls float _
              (Some DatabaseFacts.Scenario.db_a_then_b)
              [Calls Scenario.top_two 0 [1; 0]%float]
              Scenario.top_two 1%Z [1; 0]%float) as [Hin [Hrun _]].
  split; [exact Hin|].
  exact (Hrun [Resumes 0] [Resumes 0] [Settles 0 (Ok (str "first")) 9%Z] []
              (Ok (str "second")) 8%Z eq_refl).
Defined.

(** C3, refuted as stated.  With one query in flight a second call is
    let in, not refused as busy; the two are then in flight together,
    take their steps in turn, and each is settled with a response. *)
Lemma second_query_accepted :
  length (in_flight Scenario.one_in_flight) = 1%nat
  /\ fst (query_enter Scenario.one_in_flight Scenario.top_two 1 [1; 0]%float)
     = Accepted 1
  /\ length (in_flight
               (snd (query_enter Scenario.one_in_flight Scenario.top_two 1
                                 [1; 0]%float)))
     = 2%nat
  /\ map Scenario.is_Ok
         (outcomes (run_events Scenario.one_in_flight Scenario.both_run) 0)
     = [true]
  /\ map Scenario.is_Ok
         (outcomes (run_events Scenario.one_in_flight Scenario.both_run) 1)
     = [true]
  /\ in_flight (run_events Scenario.one_in_flight Scenario.both_run) = [].
Proof. repeat split; vm_compute; reflexivity. Qed.

End RAGFacts.

(* ================================================================== *)
(** * Part III.  Further properties of the services                    *)
(* ================================================================== *)

(* ------------------------------------------------------------------ *)
(** ** The model registry: loading, unloading, eviction *)
(* ------------------------------------------------------------------ *)

Module ModelLifecycle.

Import ModelManager ModelManagerFacts.
Open Scope Z_scope.

(** *** Maps and sums *)

Lemma get_set_other V (k k' : string) (v : V) m :
  k' <> k -> JSMap.get k' (JSMap.set k v m) = JSMap.get k' m.
Proof.
  intros Hk. induction m as [|[k0 v0] m IH]; simpl.
  - destruct (String.eqb k' k) eqn:E; [|reflexivity].
    apply String.eqb_eq in E. contradiction.
  - destruct (String.eqb k k0) eqn:E; simpl.
    + apply String.eqb_eq in E. subst k0.
      destruct (String.eqb k' k) eqn:E'; [|reflexivity].
      apply String.eqb_eq in E'. contradiction.
    + destruct (String.eqb k' k0); auto.
Qed.

Lemma get_Some_In_keys V (k : string) (v : V) m :
  JSMap.get k m = Some v -> In k (JSMap.keys m).
Proof.
  induction m as [|[k0 v0] m IH]; simpl; [discriminate|].
  destruct (String.eqb k k0) eqn:E; intros Hg.
  - apply String.eqb_eq in E. auto.
  - auto.
Qed.

Lemma charge_shift (l : list ModelInfo) (total : Z) :
  fold_left charge l total = total + fold_left charge l 0.
Proof.
  revert total. induction l as [|m l IH]; intros total;
    cbn [fold_left]; [lia|].
  rewrite (IH (charge total m)), (IH (charge 0 m)).
  unfold charge. destruct (loaded m); lia.
Qed.

Definition ram_of (m : JSMap.t ModelInfo) : Z :=
  fold_left charge (JSMap.values m) 0.

Lemma getLoadedModelsRAM_ram_of s : getLoadedModelsRAM s = ram_of (models s).
Proof. reflexivity. Qed.

Lemma ram_of_cons k v (m : JSMap.t ModelInfo) :
  ram_of ((k, v) :: m)
  = (if loaded v then ramRequiredMB v else 0) + ram_of m.
Proof.
  unfold ram_of, JSMap.values. cbn [map fold_left snd].
  rewrite charge_shift. unfold charge at 1. destruct (loaded v); lia.
Qed.

(** Clearing the [loaded] flag of the model under a key takes its RAM
    off the sum, if it was charged. *)
Lemma ram_of_unload k v (m : JSMap.t ModelInfo) :
  JSMap.get k m = Some v ->
  ram_of (JSMap.set k (set_loaded false v) m)
  = ram_of m - (if loaded v then ramRequiredMB v else 0).
Proof.
  induction m as [|[k0 v0] m IH]; simpl; [discriminate|].
  destruct (String.eqb k k0) eqn:E; intros Hg.
  - inversion Hg; subst. rewrite !ram_of_cons. simpl.
    destruct (loaded v); lia.
  - rewrite !ram_of_cons, IH by assumption. lia.
Qed.

Lemma ram_of_load k v (m : JSMap.t ModelInfo) :
  JSMap.get k m = Some v ->
  ram_of (JSMap.set k (set_loaded true v) m)
  = ram_of m + (if loaded v then 0 else ramRequiredMB v).
Proof.
  induction m as [|[k0 v0] m IH]; simpl; [discriminate|].
  destruct (String.eqb k k0) eqn:E; intros Hg.
  - inversion Hg; subst. rewrite !ram_of_cons. simpl.
    destruct (loaded v); lia.
  - rewrite !ram_of_cons, IH by assumption. lia.
Qed.

(** *** What [unloadModel] does *)

Lemma unloadModel_known k model s :
  JSMap.get k (models s) = Some model ->
  unloadModel k s
  = (Ok tt, write_model k (set_loaded false model) (drop_handle k s)).
Proof.
  intros E. unfold unloadModel, bind, getModel, gets; simpl.
  rewrite E. reflexivity.
Qed.

Lemma unloadModel_unknown k s :
  JSMap.get k (models s) = None -> unloadModel k s = (Ok tt, s).
Proof.
  intros E. unfold unloadModel, bind, getModel, gets; simpl.
  rewrite E. reflexivity.
Qed.

(** X1.  [unloadModel] never throws.  For an id the registry does not
    know it changes nothing.  For a registered id it clears the
    model's [loaded] flag and drops its handle, leaves every other
    entry of the registry as it was, and takes the model's RAM off
    [getLoadedModelsRAM] exactly when the model was loaded. *)
Theorem unloadModel_effect (modelId : string) (s : State) :
  fst (unloadModel modelId s) = Ok tt
  /\ match JSMap.get modelId (models s) with
     | None => snd (unloadModel modelId s) = s
     | Some model =>
         let s' := snd (unloadModel modelId s) in
         isModelLoaded modelId s' = false
         /\ (forall k, k <> modelId ->
               JSMap.get k (models s') = JSMap.get k (models s))
         /\ loadedModels s' = JSMap.delete modelId (loadedModels s)
         /\ getLoadedModelsRAM s'
            = getLoadedModelsRAM s
              - (if loaded model then ramRequiredMB model else 0)
     end.
Proof.
  destruct (JSMap.get modelId (models s)) as [model|] eqn:E.
  - rewrite (unloadModel_known _ _ E). simpl. split; [reflexivity|].
    repeat split.
    + unfold isModelLoaded; simpl.
      rewrite (@get_set_same _ modelId model (set_loaded false model) _ E).
      reflexivity.
    + intros k Hk. apply get_set_other. exact Hk.
    + rewrite !getLoadedModelsRAM_ram_of. simpl.
      apply ram_of_unload. exact E.
  - rewrite (unloadModel_unknown _ _ E). auto.
Qed.

(** *** What eviction does *)

(** The one write of the eviction loop: a loaded model that is not a
    language model loses its flag and its handle. *)
Definition evict (k : string) (v : ModelInfo) (s : State) : State :=
  write_model k (set_loaded false v) (drop_handle k s).

Lemma ModelType_eqb_eq a b : ModelType_eqb a b = true <-> a = b.
Proof. destruct a, b; simpl; split; congruence. Qed.

Section Evicting.
Variable R : State -> State -> Prop.
Hypothesis R_refl : forall s, R s s.
Hypothesis R_trans : forall s1 s2 s3, R s1 s2 -> R s2 s3 -> R s1 s3.
Hypothesis R_evict : forall s k v,
  JSMap.get k (models s) = Some v -> loaded v = true -> type v <> llm ->
  R s (evict k v s).

Lemma evictModels_loop_evicting ids requiredMB freed s :
  R s (snd (evictModels_loop ids requiredMB freed s)).
Proof.
  revert freed s. induction ids as [|k ids IH]; intros freed s; simpl; auto.
  destruct (freed >=? requiredMB); simpl; auto.
  unfold bind at 1, getModel, gets; simpl.
  destruct (JSMap.get k (models s)) as [model|] eqn:E; auto.
  destruct (loaded model) eqn:L; simpl; auto.
  destruct (ModelType_eqb (type model) llm) eqn:T; simpl; auto.
  unfold bind at 1. rewrite (unloadModel_known _ _ E).
  eapply R_trans; [|apply IH].
  apply R_evict; auto. intros Hllm. apply ModelType_eqb_eq in Hllm.
  congruence.
Qed.

Lemma evictModels_evicting requiredMB s :
  R s (snd (evictModels requiredMB s)).
Proof.
  unfold evictModels, bind, gets; simpl. apply evictModels_loop_evicting.
Qed.

Lemma ensureMemoryAvailable_evicting requiredMB s :
  R s (snd (ensureMemoryAvailable requiredMB s)).
Proof.
  unfold ensureMemoryAvailable, bind, gets. cbv beta iota.
  destruct (_ <? _); [apply evictModels_evicting | apply R_refl].
Qed.

End Evicting.

(** Eviction never throws. *)
Lemma evictModels_loop_Ok ids requiredMB freed s :
  fst (evictModels_loop ids requiredMB freed s) = Ok tt.
Proof.
  revert freed s. induction ids as [|k ids IH]; intros freed s; simpl; auto.
  destruct (freed >=? requiredMB); simpl; auto.
  unfold bind at 1, getModel, gets; simpl.
  destruct (JSMap.get k (models s)) as [model|] eqn:E; auto.
  destruct (loaded model && negb (ModelType_eqb (type model) llm)); auto.
  unfold bind at 1. rewrite (unloadModel_known _ _ E). apply IH.
Qed.

Lemma ensureMemoryAvailable_Ok requiredMB s :
  fst (ensureMemoryAvailable requiredMB s) = Ok tt.
Proof.
  unfold ensureMemoryAvailable, bind, gets. cbv beta iota.
  destruct (_ <? _); [|reflexivity].
  unfold evictModels, bind, gets; simpl. apply evictModels_loop_Ok.
Qed.

(** The flag of a language model, and nothing of the other models. *)
Definition llm_flag (m : ModelInfo) : option bool :=
  match type m with
  | llm => Some (loaded m)
  | _ => None
  end.

Lemma same_view_evict B (f : ModelInfo -> B) :
  (forall v, type v <> llm -> f (set_loaded false v) = f v) ->
  forall s k v,
    JSMap.get k (models s) = Some v -> loaded v = true -> type v <> llm ->
    same_view f s (evict k v s).
Proof.
  intros Hf s k v E _ T. unfold same_view, view, evict; simpl.
  eapply set_keeps_view; eauto.
Qed.

(** Eviction keeps what it finds under a key apart from a [loaded]
    flag it may clear: it never loads. *)
Definition only_unloads (s s' : State) : Prop :=
  forall k m,
    JSMap.get k (models s) = Some m ->
    exists m',
      JSMap.get k (models s') = Some m'
      /\ type m' = type m
      /\ (loaded m' = true -> loaded m = true).

Lemma only_unloads_refl s : only_unloads s s.
Proof. intros k m E. exists m. auto. Qed.

Lemma only_unloads_trans s1 s2 s3 :
  only_unloads s1 s2 -> only_unloads s2 s3 -> only_unloads s1 s3.
Proof.
  intros H12 H23 k m E.
  destruct (H12 k m E) as [m2 [E2 [T2 L2]]].
  destruct (H23 k m2 E2) as [m3 [E3 [T3 L3]]].
  exists m3. repeat split; auto. congruence.
Qed.

Lemma only_unloads_evict s k v :
  JSMap.get k (models s) = Some v -> loaded v = true -> type v <> llm ->
  only_unloads s (evict k v s).
Proof.
  intros E _ _ k' m E'. unfold evict; simpl.
  destruct (String.eqb k' k) eqn:K.
  - apply String.eqb_eq in K. subst k'.
    exists (set_loaded false v).
    rewrite (@get_set_same _ k v (set_loaded false v) _ E).
    assert (m = v) by congruence. subst m.
    repeat split; auto. simpl. discriminate.
  - apply String.eqb_neq in K. exists m.
    rewrite get_set_other by assumption. auto.
Qed.

Lemma eviction_keeps_keys ids requiredMB freed s k :
  JSMap.get k (models s) = None ->
  JSMap.get k (models (snd (evictModels_loop ids requiredMB freed s)))
  = None.
Proof.
  intros E.
  assert (Hv : same_view (fun _ : ModelInfo => tt) s
                 (snd (evictModels_loop ids requiredMB freed s))).
  { apply (evictModels_loop_frame (same_view (fun _ : ModelInfo => tt)));
      eauto using same_view_refl, same_view_trans, same_view_drop,
                  same_view_loaded. }
  pose proof (view_get (fun _ : ModelInfo => tt) s _ k Hv) as Hg.
  rewrite E in Hg.
  destruct (JSMap.get k (models (snd (evictModels_loop ids requiredMB
                                                       freed s))));
    [discriminate | reflexivity].
Qed.

Lemma evictModels_loop_step k0 ids requiredMB freed s :
  evictModels_loop (k0 :: ids) requiredMB freed s
  = if freed >=? requiredMB then (Ok tt, s)
    else
      match JSMap.get k0 (models s) with
      | None => evictModels_loop ids requiredMB freed s
      | Some model =>
          if loaded model && negb (ModelType_eqb (type model) llm)
          then evictModels_loop ids requiredMB
                                (freed + ramRequiredMB model)
                                (evict k0 model s)
          else evictModels_loop ids requiredMB freed s
      end.
Proof.
  cbn [evictModels_loop]. destruct (freed >=? requiredMB); [reflexivity|].
  unfold bind at 1, getModel, gets. cbv beta iota.
  destruct (JSMap.get k0 (models s)) as [model|] eqn:E; [|reflexivity].
  destruct (loaded model && negb (ModelType_eqb (type model) llm));
    [|reflexivity].
  unfold bind at 1. rewrite (unloadModel_known _ _ E). reflexivity.
Qed.

Lemma evictModels_loop_post ids requiredMB freed s :
  let s' := snd (evictModels_loop ids requiredMB freed s) in
  getLoadedModelsRAM s' <= getLoadedModelsRAM s - (requiredMB - freed)
  \/ (forall k m,
        In k ids -> JSMap.get k (models s') = Some m ->
        loaded m = true -> type m = llm).
Proof.
  revert freed s. induction ids as [|k0 ids IH]; intros freed s.
  - right. intros k m [].
  - cbv zeta. rewrite evictModels_loop_step.
    destruct (freed >=? requiredMB) eqn:F.
    { left. simpl. apply Z.geb_le in F. lia. }
    destruct (JSMap.get k0 (models s)) as [model|] eqn:E.
    + destruct (loaded model && negb (ModelType_eqb (type model) llm))
        eqn:V.
      * apply andb_true_iff in V. destruct V as [L T].
        set (s1 := evict k0 model s).
        assert (Hram : getLoadedModelsRAM s1
                       = getLoadedModelsRAM s - ramRequiredMB model).
        { rewrite !getLoadedModelsRAM_ram_of. unfold s1, evict; simpl.
          rewrite (ram_of_unload _ _ E), L. reflexivity. }
        destruct (IH (freed + ramRequiredMB model) s1) as [Hl|Hr].
        -- left. cbv zeta in Hl. lia.
        -- right. intros k m [<-|Hin] Hg Hm; [|eauto].
           assert (E1 : JSMap.get k0 (models s1)
                        = Some (set_loaded false model)).
           { unfold s1, evict; simpl.
             apply (@get_set_same _ k0 model). exact E. }
           destruct (evictModels_loop_evicting only_unloads
                       only_unloads_refl only_unloads_trans
                       only_unloads_evict ids requiredMB
                       (freed + ramRequiredMB model) s1 k0 _ E1)
             as [m' [Hg' [_ Hl']]].
           rewrite Hg in Hg'. inversion Hg'; subst m'.
           specialize (Hl' Hm). discriminate.
      * destruct (IH freed s) as [Hl|Hr]; [left; exact Hl|].
        right. intros k m [<-|Hin] Hg Hm; [|eauto].
        destruct (evictModels_loop_evicting only_unloads
                    only_unloads_refl only_unloads_trans
                    only_unloads_evict ids requiredMB freed s k0 _ E)
          as [m' [Hg' [Ht' Hl']]].
        rewrite Hg in Hg'. inversion Hg'; subst m'.
        specialize (Hl' Hm). rewrite Hl' in V. simpl in V.
        apply negb_false_iff, ModelType_eqb_eq in V. congruence.
    + destruct (IH freed s) as [Hl|Hr]; [left; exact Hl|].
      right. intros k m [<-|Hin] Hg Hm; [|eauto].
      rewrite (eviction_keeps_keys ids requiredMB freed s _ E) in Hg.
      discriminate.
Qed.

(** X2.  Eviction never touches a language model: across
    [evictModels] and [ensureMemoryAvailable], whatever amount is
    asked for, every model of type [llm] keeps its [loaded] flag, and
    no model that was not loaded becomes loaded. *)
Theorem eviction_spares_llm (requiredMB : Z) (s : State) :
  view llm_flag (snd (evictModels requiredMB s)) = view llm_flag s
  /\ view llm_flag (snd (ensureMemoryAvailable requiredMB s))
     = view llm_flag s
  /\ only_unloads s (snd (evictModels requiredMB s))
  /\ (forall k model,
        JSMap.get k (models s) = Some model -> type model = llm ->
        isModelLoaded k (snd (evictModels requiredMB s)) = loaded model).
Proof.
  assert (Hflag : forall v, type v <> llm ->
                            llm_flag (set_loaded false v) = llm_flag v).
  { intros v Hv. unfold llm_flag; simpl. destruct (type v); congruence. }
  assert (H1 : view llm_flag (snd (evictModels requiredMB s))
               = view llm_flag s).
  { apply (evictModels_evicting (same_view llm_flag));
      eauto using same_view_refl, same_view_trans, same_view_evict. }
  split; [exact H1|]. split; [|split].
  - apply (ensureMemoryAvailable_evicting (same_view llm_flag));
      eauto using same_view_refl, same_view_trans, same_view_evict.
  - apply (evictModels_evicting only_unloads);
      auto using only_unloads_refl, only_unloads_evict.
    apply only_unloads_trans.
  - intros k model E T.
    pose proof (view_get llm_flag s _ k H1) as Hg. rewrite E in Hg.
    unfold isModelLoaded.
    destruct (JSMap.get k (models (snd (evictModels requiredMB s))))
      as [m'|]; simpl in Hg; [|discriminate].
    unfold llm_flag in Hg. rewrite T in Hg.
    destruct (type m'); congruence.
Qed.

(** X3.  [evictModels(requiredMB)] stops in one of two ways: it has
    taken at least [requiredMB] off [getLoadedModelsRAM], or it has
    gone through the whole registry and every model still loaded is a
    language model.  It never throws. *)
Theorem evictModels_frees_or_exhausts (requiredMB : Z) (s : State) :
  let s' := snd (evictModels requiredMB s) in
  fst (evictModels requiredMB s) = Ok tt
  /\ (getLoadedModelsRAM s' <= getLoadedModelsRAM s - requiredMB
      \/ (forall k m,
            JSMap.get k (models s') = Some m -> loaded m = true ->
            type m = llm)).
Proof.
  cbv zeta. split.
  - unfold evictModels, bind, gets; simpl. apply evictModels_loop_Ok.
  - unfold evictModels, bind, gets. cbv beta iota.
    destruct (evictModels_loop_post (JSMap.keys (models s)) requiredMB 0 s)
      as [Hl|Hr]; cbv zeta in *.
    + left. lia.
    + right. intros k m Hg Hm. apply (Hr k m); auto.
      destruct (JSMap.get k (models s)) as [m0|] eqn:E.
      * eapply get_Some_In_keys. exact E.
      * rewrite (eviction_keeps_keys _ requiredMB 0 s _ E) in Hg.
        discriminate.
Qed.

(** *** Loading *)

Lemma ensureMemoryAvailable_keeps_key requiredMB s k model :
  JSMap.get k (models s) = Some model ->
  exists model',
    JSMap.get k (models (snd (ensureMemoryAvailable requiredMB s)))
    = Some model'
    /\ downloaded model' = downloaded model.
Proof.
  intros E.
  assert (Hv : same_view downloaded s
                 (snd (ensureMemoryAvailable requiredMB s))).
  { apply (ensureMemoryAvailable_frame (same_view downloaded));
      eauto using same_view_refl, same_view_trans, same_view_drop,
                  same_view_loaded. }
  pose proof (view_get downloaded s _ k Hv) as Hg. rewrite E in Hg.
  destruct (JSMap.get k (models (snd (ensureMemoryAvailable requiredMB s))))
    as [model'|]; simpl in Hg; [|discriminate].
  exists model'. split; congruence.
Qed.

(** What [loadModel] does for a registered, downloaded model. *)
Lemma loadModel_downloaded k model s :
  JSMap.get k (models s) = Some model ->
  downloaded model = true ->
  (exists handle,
     loaded model = true
     /\ JSMap.get k (loadedModels s) = Some handle
     /\ loadModel k s = (Ok handle, s))
  \/ (exists model',
        JSMap.get k (models (snd (ensureMemoryAvailable
                                    (ramRequiredMB model) s)))
        = Some model'
        /\ loadModel k s
           = (Ok JSnull,
              write_model k (set_loaded true model')
                (snd (ensureMemoryAvailable (ramRequiredMB model) s)))).
Proof.
  intros E D.
  destruct (ensureMemoryAvailable_keeps_key (ramRequiredMB model) s k E)
    as [model' [E' _]].
  assert (Hgo :
    (ensureMemoryAvailable (ramRequiredMB model) ;;;
     om' <- getModel k ;;
     match om' with
     | Some model' => models_set k (set_loaded true model') ;;; ret JSnull
     | None => ret JSnull
     end) s
    = (Ok JSnull,
       write_model k (set_loaded true model')
         (snd (ensureMemoryAvailable (ramRequiredMB model) s)))).
  { unfold bind at 1.
    pose proof (ensureMemoryAvailable_Ok (ramRequiredMB model) s) as Hok.
    destruct (ensureMemoryAvailable (ramRequiredMB model) s) as [r s1].
    simpl in Hok, E' |- *. subst r.
    unfold bind, getModel, gets; simpl. rewrite E'. reflexivity. }
  assert (Heq :
    loadModel k s
    = match loaded model, JSMap.get k (loadedModels s) with
      | true, Some handle => (Ok handle, s)
      | _, _ =>
          (Ok JSnull,
           write_model k (set_loaded true model')
             (snd (ensureMemoryAvailable (ramRequiredMB model) s)))
      end).
  { unfold loadModel, bind at 1, getModel at 1, gets. cbv beta iota.
    rewrite E, D. cbn [negb]. cbv iota.
    unfold bind at 1. cbv beta iota.
    destruct (loaded model);
      [destruct (JSMap.get k (loadedModels s))|];
      try exact Hgo; reflexivity. }
  rewrite Heq.
  destruct (loaded model) eqn:L;
    [destruct (JSMap.get k (loadedModels s)) as [handle|] eqn:C|].
  - left. exists handle. auto.
  - right. exists model'. auto.
  - right. exists model'. auto.
Qed.

(** X4.  Loading a registered, downloaded model always succeeds and
    leaves it loaded: [loadModel] reports no memory shortage, whatever
    is loaded already and whether or not eviction could free the RAM
    the model needs. *)
Theorem loadModel_always_succeeds (modelId : string) (model : ModelInfo)
    (s : State) :
  JSMap.get modelId (models s) = Some model ->
  downloaded model = true ->
  exists handle,
    fst (loadModel modelId s) = Ok handle
    /\ isModelLoaded modelId (snd (loadModel modelId s)) = true
    /\ isModelDownloaded modelId (snd (loadModel modelId s)) = true.
Proof.
  intros E D.
  destruct (loadModel_downloaded _ s E D)
    as [[handle [L [_ ->]]] | [model' [E' ->]]].
  - exists handle. simpl. unfold isModelLoaded, isModelDownloaded.
    rewrite E. auto.
  - exists JSnull. simpl. unfold isModelLoaded, isModelDownloaded; simpl.
    rewrite (@get_set_same _ modelId model' (set_loaded true model') _ E').
    simpl. repeat split.
    destruct (ensureMemoryAvailable_keeps_key (ramRequiredMB model) s
                modelId E) as [m2 [E2 D2]].
    congruence.
Qed.

Lemma loadModel_always_succeeds_witness :
  let s := run_calls [CallDownloadModel "whisper-tiny-thai" 200]
                     new_ModelManager in
  exists handle,
    fst (loadModel "whisper-tiny-thai" s) = Ok handle
    /\ isModelLoaded "whisper-tiny-thai"
         (snd (loadModel "whisper-tiny-thai" s)) = true
    /\ isModelDownloaded "whisper-tiny-thai"
         (snd (loadModel "whisper-tiny-thai" s)) = true.
Proof.
  intros s.
  apply (@loadModel_always_succeeds "whisper-tiny-thai"
           (mkModelInfo "whisper-tiny-thai" "Whisper Tiny Thai" asr 39 150
                        "models/asr/whisper-tiny-thai.pte" true false) s);
    reflexivity.
Defined.

(** With a registry other than the built-in one the load goes through
    over the budget: two language models of 3000 MB, one loaded. *)
Example load_over_budget :
  let big (k : string) (l : bool) :=
    mkModelInfo k k llm 2000 3000 k true l in
  let s := mkState [("one", big "one" true); ("two", big "two" false)]
                   [] true in
  fst (loadModel "two" s) = Ok JSnull
  /\ getLoadedModelsRAM (snd (loadModel "two" s)) = 6000.
Proof. split; vm_compute; reflexivity. Qed.

(** *** Installing and removing *)

Lemma downloadModel_known k model s :
  JSMap.get k (models s) = Some model ->
  downloadModel k 200 s
  = (Ok tt, write_model k (set_downloaded true model) s).
Proof.
  intros E. unfold downloadModel, bind, getModel, gets; simpl.
  rewrite E. reflexivity.
Qed.

Lemma deleteModel_known k model s :
  JSMap.get k (models s) = Some model ->
  deleteModel k s
  = (Ok tt,
     if loaded model
     then write_model k (set_downloaded false (set_loaded false model))
            (write_model k (set_loaded false model) (drop_handle k s))
     else write_model k (set_downloaded false model) s).
Proof.
  intros E. unfold deleteModel, bind at 1, getModel at 1, gets.
  cbv beta iota. rewrite E. unfold bind at 1.
  destruct (loaded model) eqn:L.
  - rewrite (unloadModel_known _ _ E). cbv beta iota.
    unfold bind, getModel, gets; simpl.
    rewrite (@get_set_same _ k model (set_loaded false model) _ E).
    reflexivity.
  - unfold ret. cbv beta iota. unfold bind, getModel, gets; simpl.
    rewrite E. reflexivity.
Qed.

(** X5.  For a registered model: after a download answered with
    status 200 the model can be loaded; a download answered otherwise
    throws and changes nothing; after [deleteModel] the model is
    neither loaded nor downloaded, and loading it throws
    "not downloaded". *)
Theorem install_then_load_remove_then_fail (modelId : string)
    (model : ModelInfo) (s : State) :
  JSMap.get modelId (models s) = Some model ->
  (exists handle,
     fst (loadModel modelId (snd (downloadModel modelId 200 s)))
     = Ok handle)
  /\ (forall statusCode, statusCode <> 200 ->
        exists msg, downloadModel modelId statusCode s = (Throw msg, s))
  /\ fst (deleteModel modelId s) = Ok tt
  /\ isModelLoaded modelId (snd (deleteModel modelId s)) = false
  /\ isModelDownloaded modelId (snd (deleteModel modelId s)) = false
  /\ loadModel modelId (snd (deleteModel modelId s))
     = (Throw ("Model " ++ modelId ++ " not downloaded")%string,
        snd (deleteModel modelId s)).
Proof.
  intros E. split; [|split].
  - rewrite (downloadModel_known _ _ E). simpl.
    destruct (@loadModel_downloaded modelId (set_downloaded true model)
                (write_model modelId (set_downloaded true model) s))
      as [[handle [_ [_ ->]]] | [model' [_ ->]]].
    + simpl. apply (@get_set_same _ modelId model). exact E.
    + reflexivity.
    + exists handle. reflexivity.
    + exists JSnull. reflexivity.
  - intros code Hcode. eexists.
    unfold downloadModel, bind, getModel, gets; simpl. rewrite E.
    apply Z.eqb_neq in Hcode. rewrite Hcode. reflexivity.
  - rewrite (deleteModel_known _ _ E). simpl.
    set (s' := if loaded model
               then write_model modelId
                      (set_downloaded false (set_loaded false model))
                      (write_model modelId (set_loaded false model)
                                   (drop_handle modelId s))
               else write_model modelId (set_downloaded false model) s).
    assert (Hg : exists m', JSMap.get modelId (models s') = Some m'
                            /\ loaded m' = false /\ downloaded m' = false).
    { unfold s'. destruct (loaded model) eqn:L; simpl.
      - exists (set_downloaded false (set_loaded false model)).
        split; [|auto].
        apply (@get_set_same _ modelId (set_loaded false model)).
        apply (@get_set_same _ modelId model). exact E.
      - exists (set_downloaded false model). split; [|auto].
        apply (@get_set_same _ modelId model). exact E. }
    destruct Hg as [m' [Hg [Hl Hd]]].
    unfold isModelLoaded, isModelDownloaded. rewrite Hg.
    repeat split; auto.
    unfold loadModel, bind at 1, getModel at 1, gets. cbv beta iota.
    rewrite Hg, Hd. reflexivity.
Qed.

Lemma install_then_load_remove_then_fail_witness :
  let modelId := "whisper-tiny-thai" in
  let s := new_ModelManager in
  (exists handle,
     fst (loadModel modelId (snd (downloadModel modelId 200 s)))
     = Ok handle)
  /\ (forall statusCode, statusCode <> 200 ->
        exists msg, downloadModel modelId statusCode s = (Throw msg, s))
  /\ fst (deleteModel modelId s) = Ok tt
  /\ isModelLoaded modelId (snd (deleteModel modelId s)) = false
  /\ isModelDownloaded modelId (snd (deleteModel modelId s)) = false
  /\ loadModel modelId (snd (deleteModel modelId s))
     = (Throw ("Model " ++ modelId ++ " not downloaded")%string,
        snd (deleteModel modelId s)).
Proof.
  intros modelId s.
  apply (@install_then_load_remove_then_fail modelId
           (mkModelInfo "whisper-tiny-thai" "Whisper Tiny Thai" asr 39 150
                        "models/asr/whisper-tiny-thai.pte" false false) s).
  reflexivity.
Defined.

(** *** Start-up *)

Lemma initialize_loop_step fe k0 ids s :
  initialize_loop fe (k0 :: ids) s
  = match JSMap.get k0 (models s) with
    | None => initialize_loop fe ids s
    | Some model =>
        initialize_loop fe ids
          (write_model k0 (set_downloaded (fe (path model)) model) s)
    end.
Proof.
  cbn [initialize_loop]. unfold bind at 1, gets. cbv beta iota.
  destruct (JSMap.get k0 (models s)); reflexivity.
Qed.

Lemma initialize_loop_spec fe ids s :
  fst (initialize_loop fe ids s) = Ok tt
  /\ loadedModels (snd (initialize_loop fe ids s)) = loadedModels s
  /\ initialized (snd (initialize_loop fe ids s)) = initialized s
  /\ forall k m,
       JSMap.get k (models s) = Some m ->
       JSMap.get k (models (snd (initialize_loop fe ids s)))
       = Some (if existsb (String.eqb k) ids
               then set_downloaded (fe (path m)) m
               else m).
Proof.
  revert s. induction ids as [|k0 ids IH]; intros s.
  - simpl. auto.
  - rewrite initialize_loop_step.
    destruct (JSMap.get k0 (models s)) as [m0|] eqn:E0.
    + destruct (IH (write_model k0 (set_downloaded (fe (path m0)) m0) s))
        as [Hok [Hl [Hi Hget]]].
      split; [exact Hok|]. split; [exact Hl|]. split; [exact Hi|].
      intros k m E. cbn [existsb].
      destruct (String.eqb k k0) eqn:K.
      * apply String.eqb_eq in K. subst k0.
        assert (m0 = m) by congruence. subst m0.
        rewrite (Hget k (set_downloaded (fe (path m)) m)).
        -- simpl. destruct (existsb (String.eqb k) ids); reflexivity.
        -- simpl. apply (@get_set_same _ k m). exact E.
      * apply String.eqb_neq in K. simpl. apply Hget. simpl.
        rewrite get_set_other by assumption. exact E.
    + destruct (IH s) as [Hok [Hl [Hi Hget]]].
      split; [exact Hok|]. split; [exact Hl|]. split; [exact Hi|].
      intros k m E. cbn [existsb].
      destruct (String.eqb k k0) eqn:K.
      * apply String.eqb_eq in K. subst k0. congruence.
      * simpl. apply Hget. exact E.
Qed.

Lemma existsb_eqb_keys V (k : string) (v : V) m :
  JSMap.get k m = Some v -> existsb (String.eqb k) (JSMap.keys m) = true.
Proof.
  intros E. apply existsb_exists. exists k. split.
  - eapply get_Some_In_keys. exact E.
  - apply String.eqb_refl.
Qed.

(** X6.  The first [initialize] sets the [downloaded] flag of every
    registered model to whether its file exists, touches no other
    field and no handle, and marks the manager initialized; any later
    [initialize] changes nothing, whatever the files have become. *)
Theorem initialize_reads_files_once (file_exists : string -> bool)
    (s : State) :
  initialized s = false ->
  let s' := snd (initialize file_exists s) in
  fst (initialize file_exists s) = Ok tt
  /\ initialized s' = true
  /\ loadedModels s' = loadedModels s
  /\ (forall k model,
        JSMap.get k (models s) = Some model ->
        JSMap.get k (models s')
        = Some (set_downloaded (file_exists (path model)) model))
  /\ (forall k model,
        JSMap.get k (models s) = Some model ->
        isModelDownloaded k s' = file_exists (path model)
        /\ isModelLoaded k s' = loaded model)
  /\ (forall later, initialize later s' = (Ok tt, s')).
Proof.
  intros Hinit. cbv zeta.
  destruct (initialize_loop_spec file_exists (JSMap.keys (models s)) s)
    as [Hok [Hl [Hi Hget]]].
  assert (Heq : initialize file_exists s
                = (Ok tt,
                   mkState
                     (models (snd (initialize_loop file_exists
                                     (JSMap.keys (models s)) s)))
                     (loadedModels (snd (initialize_loop file_exists
                                           (JSMap.keys (models s)) s)))
                     true)).
  { unfold initialize, bind at 1, gets. cbv beta iota. rewrite Hinit.
    unfold bind at 1. cbv beta iota. unfold bind.
    destruct (initialize_loop file_exists (JSMap.keys (models s)) s)
      as [r s1]. simpl in Hok. subst r. reflexivity. }
  rewrite Heq. simpl.
  assert (Hall : forall k model,
            JSMap.get k (models s) = Some model ->
            JSMap.get k (models (snd (initialize_loop file_exists
                                        (JSMap.keys (models s)) s)))
            = Some (set_downloaded (file_exists (path model)) model)).
  { intros k model E. rewrite (Hget k model E).
    rewrite (existsb_eqb_keys _ _ E). reflexivity. }
  repeat split; auto.
  - unfold isModelDownloaded; simpl. rewrite (Hall k model H). reflexivity.
  - unfold isModelLoaded; simpl. rewrite (Hall k model H). reflexivity.
Qed.

Lemma initialize_reads_files_once_witness :
  let file_exists := String.eqb "models/asr/whisper-tiny-thai.pte" in
  let s := new_ModelManager in
  let s' := snd (initialize file_exists s) in
  fst (initialize file_exists s) = Ok tt
  /\ initialized s' = true
  /\ loadedModels s' = loadedModels s
  /\ (forall k model,
        JSMap.get k (models s) = Some model ->
        JSMap.get k (models s')
        = Some (set_downloaded (file_exists (path model)) model))
  /\ (forall k model,
        JSMap.get k (models s) = Some model ->
        isModelDownloaded k s' = file_exists (path model)
        /\ isModelLoaded k s' = loaded model)
  /\ (forall later, initialize later s' = (Ok tt, s')).
Proof.
  intros file_exists s.
  apply (@initialize_reads_files_once file_exists s). reflexivity.
Defined.

(** *** Loading with the built-in registry *)

(** X7.  With the registry the manager is built with, whatever calls
    came before: [loadedModels] holds nothing, so a [loadModel] that
    succeeds answers [null] and never a handle; it throws only for an
    id it does not know or a model not downloaded, changing nothing
    then; and it never evicts, leaving every other model's entry as it
    was. *)
Theorem reachable_load_evicts_nothing (calls : list Call)
    (modelId : string) :
  let s := run_calls calls new_ModelManager in
  let s' := snd (loadModel modelId s) in
  loadedModels s = []
  /\ loadedModels s' = []
  /\ (forall k, k <> modelId ->
        JSMap.get k (models s') = JSMap.get k (models s))
  /\ (fst (loadModel modelId s) = Ok JSnull
      /\ isModelDownloaded modelId s = true
      /\ isModelLoaded modelId s' = true
      \/ (exists msg, fst (loadModel modelId s) = Throw msg)
         /\ isModelDownloaded modelId s = false
         /\ s' = s).
Proof.
  intros s s'. subst s'.
  assert (Hempty := reachable_no_handle calls). fold s in Hempty.
  assert (Hload := reachable_loadModel calls modelId).
  cbv zeta in Hload. fold s in Hload. rewrite Hload.
  unfold isModelDownloaded, isModelLoaded.
  destruct (JSMap.get modelId (models s)) as [model|] eqn:E.
  - destruct (downloaded model) eqn:D; simpl.
    + split; [exact Hempty|]. split; [exact Hempty|]. split.
      * intros k Hk. apply get_set_other. exact Hk.
      * left. split; [reflexivity|]. split; [reflexivity|].
        rewrite (@get_set_same _ modelId model (set_loaded true model) _ E).
        reflexivity.
    + split; [exact Hempty|]. split; [exact Hempty|].
      split; [reflexivity|]. right.
      split; [eexists; reflexivity|]. split; reflexivity.
  - simpl. split; [exact Hempty|]. split; [exact Hempty|].
    split; [reflexivity|]. right.
    split; [eexists; reflexivity|]. split; reflexivity.
Qed.

End ModelLifecycle.

(* ------------------------------------------------------------------ *)
(** ** The voice pipeline: memory status and the processing flag *)
(* ------------------------------------------------------------------ *)

Module VoiceSession.

Import VoicePipeline.
Open Scope Z_scope.

Section Session.
Context {num : Type} `{JSNumber num}.

(** X8.  On every state of the model manager a client can reach,
    [getMemoryStatus] reports [used + available = 4096] with [used]
    between 0 and 1650, and [canLoadAll = true] for every pipeline
    configuration: the voice models always fit. *)
Theorem memory_status_always_fits (calls : list ModelManager.Call)
    (s : State num) :
  let status :=
    getMemoryStatus s
      (ModelManager.run_calls calls ModelManager.new_ModelManager) in
  used status + available status = 4096
  /\ 0 <= used status <= 1650
  /\ 2446 <= available status
  /\ canLoadAll status = true.
Proof.
  cbv zeta. unfold getMemoryStatus; cbn [used available canLoadAll].
  set (manager := ModelManager.run_calls calls
                    ModelManager.new_ModelManager).
  assert (Hhi : ModelManager.getLoadedModelsRAM manager <= 1650)
    by apply ModelManagerFacts.reachable_ram.
  assert (Hlo : 0 <= ModelManager.getLoadedModelsRAM manager).
  { rewrite ModelLifecycle.getLoadedModelsRAM_ram_of.
    assert (Hreg := ModelManagerFacts.reachable_registry calls).
    fold manager in Hreg. unfold ModelManagerFacts.view in Hreg.
    assert (Hnn : forall m : JSMap.t ModelManager.ModelInfo,
              Forall (fun kr => 0 <= snd kr)
                (map (fun km => (fst km,
                                 ModelManager.ramRequiredMB (snd km))) m) ->
              0 <= ModelLifecycle.ram_of m).
    { induction m as [|[k v] m IH]; intros Hf.
      - unfold ModelLifecycle.ram_of; simpl. lia.
      - rewrite ModelLifecycle.ram_of_cons. inversion Hf; subst.
        simpl in *. specialize (IH H3).
        destruct (ModelManager.loaded v); lia. }
    apply Hnn. rewrite Hreg. simpl.
    repeat (constructor; [simpl; lia|]). constructor. }
  repeat split; try lia.
  apply Z.geb_le.
  destruct (option_map (@asrModel num) (config s)) as [[|]|];
    destruct (option_map (@ttsModel num) (config s)) as [[| |]|]; lia.
Qed.

(** X9.  The [isProcessing] guard holds one voice interaction against
    another and nothing else.  With a configured, idle pipeline: an
    interaction starts and sets the flag; a second
    [startVoiceInteraction] then returns at once; but
    [startStreamingInteraction] goes ahead all the same, and once it
    finishes, or once [stop] is called, the flag is cleared and a
    further [startVoiceInteraction] starts although the first has not
    reached its [finally].  The [finally] of the first gives back the
    state it started from. *)
Theorem processing_flag_guards_voice_only (s : State num)
    (c : VoicePipelineConfig num) :
  config s = Some c ->
  isProcessing s = false ->
  let under_way := snd (startVoiceInteraction_enter s) in
  fst (startVoiceInteraction_enter s) = Listening
  /\ isActive under_way = true
  /\ startVoiceInteraction_enter under_way = (Returned, under_way)
  /\ fst (startStreamingInteraction_enter under_way) = Listening
  /\ fst (startVoiceInteraction_enter
           (startStreamingInteraction_finally
              (snd (startStreamingInteraction_enter under_way))))
     = Listening
  /\ fst (startVoiceInteraction_enter (stop under_way)) = Listening
  /\ startVoiceInteraction_finally under_way = s.
Proof.
  intros Hc Hp. destruct s as [p cfg]. simpl in Hc, Hp. subst p cfg.
  cbv zeta. unfold startVoiceInteraction_enter,
    startStreamingInteraction_enter, startStreamingInteraction_finally,
    stop, startVoiceInteraction_finally, isActive; simpl.
  repeat split.
Qed.

End Session.

Lemma processing_flag_guards_voice_only_witness :
  let c := mkConfig whisper_tiny_thai vits female 1%Z 0%Z true in
  let s := mkState false (Some c) in
  let under_way := snd (startVoiceInteraction_enter s) in
  fst (startVoiceInteraction_enter s) = Listening
  /\ isActive under_way = true
  /\ startVoiceInteraction_enter under_way = (Returned, under_way)
  /\ fst (startStreamingInteraction_enter under_way) = Listening
  /\ fst (startVoiceInteraction_enter
           (startStreamingInteraction_finally
              (snd (startStreamingInteraction_enter under_way))))
     = Listening
  /\ fst (startVoiceInteraction_enter (stop under_way)) = Listening
  /\ startVoiceInteraction_finally under_way = s.
Proof.
  intros c s.
  apply (@processing_flag_guards_voice_only Z s c); reflexivity.
Defined.

End VoiceSession.

(* ------------------------------------------------------------------ *)
(** ** The user tables of the database *)
(* ------------------------------------------------------------------ *)

Lemma JSString_eqb_eq (a b : JSString) : JSString_eqb a b = true <-> a = b.
Proof.
  revert b. induction a as [|x a IH]; intros [|y b]; simpl;
    try (split; [discriminate|discriminate]); try tauto.
  rewrite andb_true_iff, N.eqb_eq, IH. split.
  - intros [-> ->]. reflexivity.
  - intros E. inversion E. auto.
Qed.

Lemma JSString_eqb_refl (a : JSString) : JSString_eqb a a = true.
Proof. apply JSString_eqb_eq. reflexivity. Qed.

Lemma JSString_eqb_neq (a b : JSString) : JSString_eqb a b = false <-> a <> b.
Proof.
  rewrite <- JSString_eqb_eq. destruct (JSString_eqb a b); split;
    congruence.
Qed.

Module UserDocuments.

Import DatabaseService.

Section AnyNumbers.
Context {num : Type} `{JSNumber num}.

(** [`user-chunk-${documentId}-${chunkIndex}`] *)
Definition user_chunk_id (documentId : JSString) (chunkIndex : Z)
  : JSString :=
  (str "user-chunk-" ++ documentId ++ str "-"
   ++ Number_toString chunkIndex)%list.

(** *** What [addUserContent] stores *)

Fixpoint stored_chunks (documentId : JSString)
    (chunks : list (JSString * list num)) (i total now : Z)
  : list UserChunkRow.t :=
  match chunks with
  | [] => []
  | (content, _) :: rest =>
      UserChunkRow.mk (user_chunk_id documentId i) documentId content i
                      total now
      :: stored_chunks documentId rest (i + 1) total now
  end.

Fixpoint stored_embeddings (documentId : JSString)
    (chunks : list (JSString * list num)) (i now : Z)
  : list (UserEmbeddingRow.t num) :=
  match chunks with
  | [] => []
  | (_, embedding) :: rest =>
      UserEmbeddingRow.mk (user_chunk_id documentId i)
                          (vectorToBlob embedding)
                          (Z.of_nat (length embedding))
                          (str "sentence-transformers") now
      :: stored_embeddings documentId rest (i + 1) now
  end.

Lemma addUserContent_loop_open (d : Database num) documentId cs i total
    now :
  RAGEngine.addUserContent_loop (Some d) documentId cs i total now
  = (Ok tt,
     Some (mkDatabase (chunks d) (embeddings d)
             (user_chunks d ++ stored_chunks documentId cs i total now)
             (user_embeddings d
                ++ stored_embeddings documentId cs i now))).
Proof.
  revert d i. induction cs as [|[content embedding] rest IH]; intros d i.
  - simpl. rewrite !app_nil_r. destruct d; reflexivity.
  - cbn [RAGEngine.addUserContent_loop addUserChunk stored_chunks
         stored_embeddings].
    rewrite IH. cbn [chunks embeddings user_chunks user_embeddings].
    rewrite <- !app_assoc. reflexivity.
Qed.

Lemma stored_chunks_length documentId (cs : list (JSString * list num)) i
    total now :
  length (stored_chunks documentId cs i total now) = length cs.
Proof.
  revert i. induction cs as [|[c e] rest IH]; intros i; simpl; auto.
Qed.

Lemma stored_embeddings_length documentId
    (cs : list (JSString * list num)) i now :
  length (stored_embeddings documentId cs i now) = length cs.
Proof.
  revert i. induction cs as [|[c e] rest IH]; intros i; simpl; auto.
Qed.

Lemma stored_chunks_nth documentId (cs : list (JSString * list num)) i
    total now k content embedding :
  nth_error cs k = Some (content, embedding) ->
  nth_error (stored_chunks documentId cs i total now) k
  = Some (UserChunkRow.mk (user_chunk_id documentId (i + Z.of_nat k))
                          documentId content (i + Z.of_nat k) total now).
Proof.
  revert i k. induction cs as [|[c e] rest IH]; intros i [|k] Hk;
    simpl in Hk; try discriminate.
  - inversion Hk; subst. simpl. rewrite Z.add_0_r. reflexivity.
  - cbn [stored_chunks nth_error]. rewrite (IH (i + 1)%Z k Hk).
    replace (i + 1 + Z.of_nat k)%Z with (i + Z.of_nat (S k))%Z by lia.
    reflexivity.
Qed.

Lemma stored_embeddings_nth documentId (cs : list (JSString * list num)) i
    now k content embedding :
  nth_error cs k = Some (content, embedding) ->
  nth_error (stored_embeddings documentId cs i now) k
  = Some (UserEmbeddingRow.mk (user_chunk_id documentId (i + Z.of_nat k))
            (vectorToBlob embedding) (Z.of_nat (length embedding))
            (str "sentence-transformers") now).
Proof.
  revert i k. induction cs as [|[c e] rest IH]; intros i [|k] Hk;
    simpl in Hk; try discriminate.
  - inversion Hk; subst. simpl. rewrite Z.add_0_r. reflexivity.
  - cbn [stored_embeddings nth_error]. rewrite (IH (i + 1)%Z k Hk).
    replace (i + 1 + Z.of_nat k)%Z with (i + Z.of_nat (S k))%Z by lia.
    reflexivity.
Qed.

Lemma stored_chunks_document documentId (cs : list (JSString * list num))
    i total now row :
  In row (stored_chunks documentId cs i total now) ->
  UserChunkRow.document_id row = documentId
  /\ exists k, (k < length cs)%nat
       /\ UserChunkRow.id row = user_chunk_id documentId (i + Z.of_nat k).
Proof.
  revert i. induction cs as [|[c e] rest IH]; intros i; simpl.
  - tauto.
  - intros [<-|Hin].
    + split; [reflexivity|]. exists 0%nat. simpl.
      rewrite Z.add_0_r. split; [lia|reflexivity].
    + destruct (IH _ Hin) as [Hd [k [Hk Hid]]]. split; [exact Hd|].
      exists (S k). split; [lia|]. rewrite Hid. f_equal. lia.
Qed.

Lemma stored_embeddings_chunk_ids documentId
    (cs : list (JSString * list num)) i total now :
  map (@UserEmbeddingRow.chunk_id num)
      (stored_embeddings documentId cs i now)
  = map UserChunkRow.id (stored_chunks documentId cs i total now).
Proof.
  revert i. induction cs as [|[c e] rest IH]; intros i; simpl; auto.
  rewrite IH. reflexivity.
Qed.

(** X10.  On an open database [addUserContent] never throws and appends,
    behind the rows already there, one row to [user_chunks] and one to
    [user_embeddings] for each chunk given, in their order and touching
    nothing else.  The row of chunk number [k] carries the id
    [user-chunk-<documentId>-<k>], the document id, the content, the
    index [k] and the number of chunks as total, so that every index
    is below its total; its embedding row has the same id, the numbers
    rounded to 32-bit floats, and the length before rounding as
    dimensions. *)
Theorem addUserContent_stores_document (d : Database num)
    (documentId : JSString) (cs : list (JSString * list num)) (now : Z) :
  exists rows blobs,
    RAGEngine.addUserContent (Some d) documentId cs now
    = (Ok tt,
       Some (mkDatabase (chunks d) (embeddings d)
                        (user_chunks d ++ rows)
                        (user_embeddings d ++ blobs)))
    /\ length rows = length cs
    /\ length blobs = length cs
    /\ forall k content embedding,
         nth_error cs k = Some (content, embedding) ->
         exists row blob,
           nth_error rows k = Some row
           /\ nth_error blobs k = Some blob
           /\ UserChunkRow.id row = user_chunk_id documentId (Z.of_nat k)
           /\ UserChunkRow.document_id row = documentId
           /\ UserChunkRow.content row = content
           /\ UserChunkRow.chunk_index row = Z.of_nat k
           /\ UserChunkRow.total_chunks row = Z.of_nat (length cs)
           /\ (0 <= UserChunkRow.chunk_index row
               < UserChunkRow.total_chunks row)%Z
           /\ UserEmbeddingRow.chunk_id blob = UserChunkRow.id row
           /\ UserEmbeddingRow.embedding blob = map Math_fround embedding
           /\ UserEmbeddingRow.dimensions blob
              = Z.of_nat (length embedding).
Proof.
  exists (stored_chunks documentId cs 0 (Z.of_nat (length cs)) now),
         (stored_embeddings documentId cs 0 now).
  split; [apply addUserContent_loop_open|].
  split; [apply stored_chunks_length|].
  split; [apply stored_embeddings_length|].
  intros k content embedding Hk.
  eexists. eexists.
  split; [apply (stored_chunks_nth _ _ _ _ _ _ Hk)|].
  split; [apply (stored_embeddings_nth _ _ _ _ _ Hk)|].
  assert (k < length cs)%nat by (apply nth_error_Some; congruence).
  simpl. repeat split; try reflexivity; lia.
Qed.

(** *** Deleting a document *)

Definition of_document (id : JSString) (c : UserChunkRow.t) : bool :=
  JSString_eqb (UserChunkRow.document_id c) id.

Lemma deleteUserDocument_open (d : Database num) id :
  deleteUserDocument (Some d) id
  = (Ok tt,
     Some (mkDatabase (chunks d) (embeddings d)
             (filter (fun c => negb (of_document id c)) (user_chunks d))
             (filter
                (fun e =>
                   negb (JSArray.includes (UserEmbeddingRow.chunk_id e)
                           (map UserChunkRow.id
                                (filter (of_document id) (user_chunks d)))))
                (user_embeddings d)))).
Proof. reflexivity. Qed.

Lemma filter_all A (p : A -> bool) (l : list A) :
  (forall x, In x l -> p x = true) -> filter p l = l.
Proof.
  induction l as [|x l IH]; simpl; intros Hall; auto.
  rewrite (Hall x) by auto. rewrite IH; auto.
Qed.

Lemma filter_none A (p : A -> bool) (l : list A) :
  (forall x, In x l -> p x = false) -> filter p l = [].
Proof.
  induction l as [|x l IH]; simpl; intros Hall; auto.
  rewrite (Hall x) by auto. apply IH; auto.
Qed.

Lemma includes_In x (l : list JSString) :
  JSArray.includes x l = true <-> In x l.
Proof.
  unfold JSArray.includes. rewrite existsb_exists. split.
  - intros [y [Hy E]]. apply JSString_eqb_eq in E. subst. exact Hy.
  - intros Hin. exists x. split; [exact Hin|apply JSString_eqb_refl].
Qed.

(** X11.  On an open database [deleteUserDocument] never throws.  It
    leaves the corpus tables alone, removes from [user_chunks] exactly
    the rows of that document, keeping the others in their order, and
    removes from [user_embeddings] exactly the rows whose chunk id is
    the id of a row of that document.  No chunk of the document is
    left, a document without chunks costs nothing, and deleting a
    second time changes nothing more. *)
Theorem deleteUserDocument_effect (d : Database num) (id : JSString) :
  exists d',
    deleteUserDocument (Some d) id = (Ok tt, Some d')
    /\ chunks d' = chunks d
    /\ embeddings d' = embeddings d
    /\ (forall c, In c (user_chunks d') <->
                  In c (user_chunks d) /\ UserChunkRow.document_id c <> id)
    /\ (forall e, In e (user_embeddings d') <->
                  In e (user_embeddings d)
                  /\ ~ exists c, In c (user_chunks d)
                         /\ UserChunkRow.document_id c = id
                         /\ UserChunkRow.id c = UserEmbeddingRow.chunk_id e)
    /\ user_chunks d'
       = filter (fun c => negb (JSString_eqb (UserChunkRow.document_id c)
                                             id))
                (user_chunks d)
    /\ ((forall c, In c (user_chunks d) ->
                   UserChunkRow.document_id c <> id) -> d' = d)
    /\ deleteUserDocument (Some d') id = (Ok tt, Some d').
Proof.
  eexists. split; [apply deleteUserDocument_open|].
  cbn [chunks embeddings user_chunks user_embeddings].
  split; [reflexivity|]. split; [reflexivity|].
  assert (Hchunk : forall c,
            In c (filter (fun c => negb (of_document id c)) (user_chunks d))
            <-> In c (user_chunks d) /\ UserChunkRow.document_id c <> id).
  { intros c. rewrite filter_In, negb_true_iff. unfold of_document.
    rewrite JSString_eqb_neq. tauto. }
  split; [exact Hchunk|]. split.
  { intros e. rewrite filter_In, negb_true_iff.
    rewrite <- not_true_iff_false, includes_In, in_map_iff.
    split; intros [He Hno]; (split; [exact He|]).
    - intros [c [Hc [Hd Hid]]]. apply Hno. exists c. split; [exact Hid|].
      apply filter_In. split; [exact Hc|]. unfold of_document.
      apply JSString_eqb_eq. exact Hd.
    - intros [c [Hid Hc]]. apply filter_In in Hc. destruct Hc as [Hc Hd].
      apply JSString_eqb_eq in Hd. apply Hno. exists c. auto. }
  split; [reflexivity|]. split.
  { intros Hnone.
    rewrite (@filter_all _ (fun c => negb (of_document id c))).
    2:{ intros c Hc. apply negb_true_iff, JSString_eqb_neq. auto. }
    rewrite (@filter_none _ (of_document id)).
    2:{ intros c Hc. apply JSString_eqb_neq. auto. }
    simpl. rewrite filter_all by auto. destruct d; reflexivity. }
  rewrite deleteUserDocument_open.
  cbn [chunks embeddings user_chunks user_embeddings].
  assert (Hgone : filter (of_document id)
                    (filter (fun c => negb (of_document id c))
                            (user_chunks d)) = []).
  { apply filter_none. intros c Hc. apply filter_In in Hc.
    apply negb_true_iff. tauto. }
  rewrite Hgone. simpl.
  rewrite (@filter_all _ (fun c => negb (of_document id c))
             (filter _ (user_chunks d))).
  2:{ intros c Hc. apply filter_In in Hc. tauto. }
  rewrite (@filter_all _ (fun _ => true)) by auto.
  reflexivity.
Qed.

(** X12.  Storing a document and deleting it again gives back the
    database as it was, provided the document id is new: no row of
    [user_chunks] belongs to it, and no row of [user_embeddings] has
    one of its chunk ids. *)
Theorem add_then_delete_restores (d : Database num)
    (documentId : JSString) (cs : list (JSString * list num)) (now : Z) :
  (forall c, In c (user_chunks d) ->
             UserChunkRow.document_id c <> documentId) ->
  (forall e k, In e (user_embeddings d) -> (k < length cs)%nat ->
               UserEmbeddingRow.chunk_id e
               <> user_chunk_id documentId (Z.of_nat k)) ->
  deleteUserDocument
    (snd (RAGEngine.addUserContent (Some d) documentId cs now)) documentId
  = (Ok tt, Some d).
Proof.
  intros Hfresh Hids. unfold RAGEngine.addUserContent.
  rewrite addUserContent_loop_open. cbn [snd].
  rewrite deleteUserDocument_open.
  cbn [chunks embeddings user_chunks user_embeddings].
  set (rows := stored_chunks documentId cs 0 (Z.of_nat (length cs)) now).
  set (blobs := stored_embeddings documentId cs 0 now).
  assert (Hrows : forall r, In r rows -> of_document documentId r = true).
  { intros r Hr. apply stored_chunks_document in Hr.
    apply JSString_eqb_eq. tauto. }
  assert (Hold : forall c, In c (user_chunks d) ->
                           of_document documentId c = false).
  { intros c Hc. apply JSString_eqb_neq. auto. }
  assert (Hdoomed :
            map UserChunkRow.id
                (filter (of_document documentId) (user_chunks d ++ rows))
            = map UserChunkRow.id rows).
  { rewrite filter_app, (filter_none _ _ Hold), (filter_all _ _ Hrows).
    reflexivity. }
  rewrite Hdoomed.
  rewrite !filter_app.
  rewrite (@filter_all _ (fun c => negb (of_document documentId c))
             (user_chunks d))
    by (intros c Hc; rewrite (Hold c Hc); reflexivity).
  rewrite (@filter_none _ (fun c => negb (of_document documentId c)) rows)
    by (intros c Hc; rewrite (Hrows c Hc); reflexivity).
  rewrite (@filter_all _ _ (user_embeddings d)).
  2:{ intros e He. apply negb_true_iff, not_true_iff_false.
      rewrite includes_In, in_map_iff. intros [r [Hid Hr]].
      apply stored_chunks_document in Hr. destruct Hr as [_ [k [Hk Hr]]].
      apply (Hids e k He Hk). rewrite <- Hid, Hr. reflexivity. }
  rewrite (@filter_none _ _ blobs).
  2:{ intros e He. apply negb_false_iff, includes_In.
      unfold rows, blobs.
      rewrite <- (stored_embeddings_chunk_ids documentId cs 0
                    (Z.of_nat (length cs)) now).
      apply in_map. exact He. }
  rewrite !app_nil_r. destruct d; reflexivity.
Qed.

(** *** Looking a chunk up by its id *)

Lemma left_join_none (d : Database num) id :
  select_chunk_left_join_embeddings d id = [] <->
  ~ exists c, In c (chunks d) /\ ChunkRow.id c = id.
Proof.
  unfold select_chunk_left_join_embeddings.
  destruct (filter (fun c => JSString_eqb (ChunkRow.id c) id) (chunks d))
    as [|c0 cs0] eqn:F.
  - simpl. split; [|reflexivity]. intros _ [c [Hc Hid]].
    assert (Hin : In c (filter (fun c => JSString_eqb (ChunkRow.id c) id)
                               (chunks d))).
    { apply filter_In. split; [exact Hc|]. apply JSString_eqb_eq.
      exact Hid. }
    rewrite F in Hin. destruct Hin.
  - assert (Hin : In c0 (filter (fun c => JSString_eqb (ChunkRow.id c) id)
                                (chunks d)))
      by (rewrite F; left; reflexivity).
    apply filter_In in Hin. destruct Hin as [Hc Hid].
    apply JSString_eqb_eq in Hid.
    split.
    + cbn [flat_map].
      destruct (filter (fun e => JSString_eqb (ChunkRow.id c0)
                                              (EmbeddingRow.chunk_id e))
                       (embeddings d)); discriminate.
    + intros Hno. exfalso. apply Hno. exists c0. auto.
Qed.

Lemma left_join_joined (d : Database num) c e :
  In c (chunks d) -> In e (embeddings d) ->
  JSString_eqb (ChunkRow.id c) (EmbeddingRow.chunk_id e) = true ->
  exists c0 e0 rest,
    select_chunk_left_join_embeddings d (ChunkRow.id c)
    = (c0, Some e0) :: rest
    /\ ChunkRow.id c0 = ChunkRow.id c.
Proof.
  intros Hc He Hid. unfold select_chunk_left_join_embeddings.
  destruct (filter (fun c' => JSString_eqb (ChunkRow.id c') (ChunkRow.id c))
                   (chunks d)) as [|c0 cs0] eqn:F.
  - assert (Hin : In c (filter (fun c' => JSString_eqb (ChunkRow.id c')
                                                       (ChunkRow.id c))
                               (chunks d))).
    { apply filter_In. split; [exact Hc|apply JSString_eqb_refl]. }
    rewrite F in Hin. destruct Hin.
  - assert (Hin : In c0 (filter (fun c' => JSString_eqb (ChunkRow.id c')
                                                        (ChunkRow.id c))
                                (chunks d)))
      by (rewrite F; left; reflexivity).
    apply filter_In in Hin. destruct Hin as [_ Hid0].
    apply JSString_eqb_eq in Hid0. cbn [flat_map].
    destruct (filter (fun e' => JSString_eqb (ChunkRow.id c0)
                                             (EmbeddingRow.chunk_id e'))
                     (embeddings d)) as [|e0 es] eqn:G.
    + assert (Hin : In e (filter (fun e' => JSString_eqb (ChunkRow.id c0)
                                              (EmbeddingRow.chunk_id e'))
                                 (embeddings d))).
      { apply filter_In. split; [exact He|]. rewrite Hid0. exact Hid. }
      rewrite G in Hin. destruct Hin.
    + exists c0, e0. eexists. split; [reflexivity|exact Hid0].
Qed.

(** X13.  Every result of [vectorSearch] can be fetched again:
    [getChunkById] on the result's id answers with a chunk, never
    [null], that has this id and carries an embedding.  It answers
    [null] exactly for an id that no row of [chunks] has, and a chunk
    stored by [addUserChunk] changes none of its answers: user chunks
    cannot be fetched by id. *)
Theorem getChunkById_finds_search_results (d : Database num)
    (q : list num) (limit : option nat) (threshold : option num)
    (now : Z) :
  (exists results,
     vectorSearch (Some d) q limit threshold = Ok results
     /\ Forall
          (fun r =>
             exists chunk vector,
               getChunkById (Some d) (VectorSearchResult.id r) now
               = Ok (Some chunk)
               /\ DocumentChunk.id chunk = VectorSearchResult.id r
               /\ DocumentChunk.embedding chunk = Some vector)
          results)
  /\ (forall id,
        getChunkById (Some d) id now = Ok None <->
        ~ exists c, In c (chunks d) /\ ChunkRow.id c = id)
  /\ (forall documentId content chunkIndex totalChunks embedding id,
        getChunkById
          (snd (addUserChunk (Some d) documentId content chunkIndex
                             totalChunks embedding now)) id now
        = getChunkById (Some d) id now).
Proof.
  split; [|split].
  - eexists. split; [reflexivity|]. apply Forall_forall. intros r Hr.
    apply DatabaseFacts.search_results_from_corpus in Hr.
    destruct Hr as [c [e [Hc [He [Hid ->]]]]].
    destruct (left_join_joined d c e Hc He Hid)
      as [c0 [e0 [rest [Hsel Hid0]]]].
    cbn [row_to_result VectorSearchResult.id getChunkById].
    rewrite Hsel. eexists. eexists. split; [reflexivity|].
    cbn [DocumentChunk.id DocumentChunk.embedding option_map].
    split; [exact Hid0|reflexivity].
  - intros id. rewrite <- left_join_none. unfold getChunkById.
    destruct (select_chunk_left_join_embeddings d id) as [|[c e] rest].
    + tauto.
    + split; discriminate.
  - reflexivity.
Qed.

End AnyNumbers.

Import Float64.

Lemma add_then_delete_restores_witness :
  let other :=
    UserChunkRow.mk (user_chunk_id (str "notes") 0) (str "notes")
                    (str "kept") 0 1 5 in
  let d : Database float :=
    mkDatabase [] [] [other]
      [UserEmbeddingRow.mk (user_chunk_id (str "notes") 0) [1%float] 1
                           (str "sentence-transformers") 5] in
  deleteUserDocument
    (snd (RAGEngine.addUserContent (Some d) (str "diary")
            [(str "one", [1%float; 2%float]); (str "two", [3%float])] 9))
    (str "diary")
  = (Ok tt, Some d).
Proof.
  intros other d.
  apply (@add_then_delete_restores float _ d (str "diary")
           [(str "one", [1%float; 2%float]); (str "two", [3%float])] 9%Z).
  - intros c [<-|[]]. vm_compute. discriminate.
  - intros e k [<-|[]] Hk. simpl in Hk.
    destruct k as [|[|k]]; [vm_compute; discriminate
                           |vm_compute; discriminate|lia].
Defined.

End UserDocuments.

(* ------------------------------------------------------------------ *)
(** ** Retrieval, the context budget and the answer *)
(* ------------------------------------------------------------------ *)

Module RetrievalFacts.

Import DatabaseService RAGEngine.

(** The tokens [buildContext] counts for a list of chunk texts. *)
Definition total_tokens (texts : list JSString) : Z :=
  fold_right Z.add 0%Z (map estimateTokens texts).

Definition total_length (texts : list JSString) : Z :=
  fold_right Z.add 0%Z (map (fun t => Z.of_nat (length t)) texts).

Lemma total_tokens_app a b :
  total_tokens (a ++ b) = (total_tokens a + total_tokens b)%Z.
Proof.
  unfold total_tokens. induction a as [|x a IH]; simpl; [reflexivity|].
  rewrite IH. lia.
Qed.

Lemma thai_count_le (text : JSString) :
  (length (filter is_thai text) <= length text)%nat.
Proof.
  induction text as [|c text IH]; simpl; [lia|].
  destruct (is_thai c); simpl; lia.
Qed.

(** X14.  [estimateTokens] lies between a quarter and a half of the
    length in code units, both rounded up: it is [ceil(n / 4)] for a
    text without Thai characters and [ceil(n / 2)] for an all-Thai
    text.  It is 0 only for the empty string, never decreases when
    text is appended, and the estimate of a concatenation is at most
    the sum of the estimates. *)
Theorem estimateTokens_bounds (a b : JSString) :
  let n := Z.of_nat (length a) in
  ((n + 3) / 4 <= estimateTokens a <= (n + 1) / 2)%Z
  /\ (filter is_thai a = [] -> estimateTokens a = ((n + 3) / 4)%Z)
  /\ (filter is_thai a = a -> estimateTokens a = ((n + 1) / 2)%Z)
  /\ (estimateTokens a = 0%Z <-> a = [])
  /\ (estimateTokens a <= estimateTokens (a ++ b))%Z
  /\ (estimateTokens (a ++ b) <= estimateTokens a + estimateTokens b)%Z.
Proof.
  cbv zeta. unfold estimateTokens.
  rewrite filter_app, !length_app.
  assert (Ha := thai_count_le a). assert (Hb := thai_count_le b).
  set (ta := length (filter is_thai a)) in *.
  set (tb := length (filter is_thai b)) in *.
  split; [|split; [|split; [|split; [|split]]]].
  - split; Z.div_mod_to_equations; lia.
  - intros E. unfold ta. rewrite E. simpl. f_equal. lia.
  - intros E. unfold ta. rewrite E.
    Z.div_mod_to_equations; lia.
  - split.
    + intros E. destruct a as [|c a]; [reflexivity|]. exfalso.
      simpl length in *. Z.div_mod_to_equations; lia.
    + intros ->. reflexivity.
  - Z.div_mod_to_equations; lia.
  - Z.div_mod_to_equations; lia.
Qed.

Lemma length_le_tokens (text : JSString) :
  (Z.of_nat (length text) <= 4 * estimateTokens text)%Z.
Proof.
  unfold estimateTokens. assert (Ht := thai_count_le text).
  Z.div_mod_to_equations; lia.
Qed.

Lemma total_length_le_tokens texts :
  (total_length texts <= 4 * total_tokens texts)%Z.
Proof.
  unfold total_length, total_tokens.
  induction texts as [|t texts IH]; cbn [map fold_right]; [lia|].
  assert (Ht := length_le_tokens t). lia.
Qed.

Section AnyNumbers.
Context {num : Type} `{JSNumber num}.
Variable getQueryEmbedding : JSString -> list num.
Variable llm_generate : JSString -> result JSString.

(** The loop of [buildContext] from any point: what it adds stays in
    the budget, and it stops only at the end or before a chunk that
    does not fit. *)
Lemma buildContext_loop_budget (results : list (VectorSearchResult.t num))
    contexts tokens :
  exists n,
    (n <= length results)%nat
    /\ buildContext_loop results contexts tokens
       = (contexts ++ map chunk_text (firstn n results))%list
    /\ ((tokens <= MAX_CONTEXT_TOKENS)%Z ->
        (tokens + total_tokens (map chunk_text (firstn n results))
         <= MAX_CONTEXT_TOKENS)%Z)
    /\ (forall r, nth_error results n = Some r ->
          (tokens + total_tokens (map chunk_text (firstn n results))
           + estimateTokens (chunk_text r) > MAX_CONTEXT_TOKENS)%Z).
Proof.
  revert contexts tokens.
  induction results as [|r rest IH]; intros contexts tokens.
  - exists 0%nat. simpl. rewrite app_nil_r.
    split; [lia|]. split; [reflexivity|]. split.
    + unfold total_tokens; simpl. lia.
    + intros r Hr. discriminate.
  - cbn [buildContext_loop].
    destruct (tokens + estimateTokens (chunk_text r) >? MAX_CONTEXT_TOKENS)%Z
      eqn:Hover.
    + exists 0%nat. simpl. rewrite app_nil_r.
      split; [lia|]. split; [reflexivity|]. split.
      * unfold total_tokens; simpl. lia.
      * intros r' Hr. inversion Hr; subst.
        unfold total_tokens; simpl. apply Z.gtb_lt in Hover. lia.
    + destruct (IH (contexts ++ [chunk_text r])%list
                   (tokens + estimateTokens (chunk_text r))%Z)
        as [n [Hn [E [Hin Hnext]]]].
      assert (Hfit : (tokens + estimateTokens (chunk_text r)
                      <= MAX_CONTEXT_TOKENS)%Z).
      { destruct (Z.gtb_spec (tokens + estimateTokens (chunk_text r))
                             MAX_CONTEXT_TOKENS); [discriminate|lia]. }
      exists (S n). cbn [firstn map length nth_error].
      split; [lia|]. split; [rewrite E, <- app_assoc; reflexivity|].
      assert (Hsum : total_tokens (chunk_text r
                                   :: map chunk_text (firstn n rest))
                     = (estimateTokens (chunk_text r)
                        + total_tokens (map chunk_text (firstn n rest)))%Z)
        by reflexivity.
      rewrite Hsum. split.
      * intros _. specialize (Hin Hfit). lia.
      * intros r' Hr. specialize (Hnext r' Hr). lia.
Qed.

(** X15.  The chunk texts [buildContext] joins are those of a prefix of
    the results and stay within the budget: their estimated tokens add
    up to at most 2048, hence their lengths to at most 8192 code
    units.  The prefix is the longest that fits: a result left out
    either follows one that was left out or would itself take the
    count over 2048. *)
Theorem buildContext_within_budget
    (results : list (VectorSearchResult.t num)) :
  let texts := buildContext_loop results [] 0%Z in
  buildContext results = JSArray.join [10; 45; 45; 45; 10]%N texts
  /\ texts = map chunk_text (firstn (length texts) results)
  /\ (total_tokens texts <= 2048)%Z
  /\ (total_length texts <= 8192)%Z
  /\ (forall r, nth_error results (length texts) = Some r ->
        (total_tokens texts + estimateTokens (chunk_text r) > 2048)%Z).
Proof.
  cbv zeta.
  destruct (buildContext_loop_budget results [] 0%Z)
    as [n [Hn [E [Hin Hnext]]]].
  simpl in E. rewrite E.
  rewrite length_map, length_firstn.
  replace (Nat.min n (length results)) with n by lia.
  assert (Hb : (total_tokens (map chunk_text (firstn n results)) <= 2048)%Z).
  { unfold MAX_CONTEXT_TOKENS in Hin. lia. }
  split; [unfold buildContext; rewrite E; reflexivity|].
  split; [reflexivity|]. split; [exact Hb|]. split.
  - assert (Hl := total_length_le_tokens
                    (map chunk_text (firstn n results))). lia.
  - intros r Hr. specialize (Hnext r Hr).
    unfold MAX_CONTEXT_TOKENS in Hnext. lia.
Qed.

(** *** What [retrieveChunks] returns *)

(** X16.  On an open database [retrieveChunks] never throws and returns
    at most [topK] results.  Each of them is among the [2 * topK] best
    that [vectorSearch] finds at this threshold, so its score reaches
    the threshold; under a non-empty [pitaka] filter its pitaka is one
    of those listed, and under a non-empty [nikaya] filter its nikaya
    is.  Empty filter lists filter nothing. *)
Theorem retrieveChunks_respects_request (d : Database num) (q : list num)
    (topK : nat) (threshold : num) (filters : option QueryFilters.t) :
  (exists results,
     retrieveChunks (Some d) q topK threshold filters = Ok results
     /\ (length results <= topK)%nat
     /\ Forall
          (fun r =>
             In r (DatabaseFacts.search_results d q (topK * 2) threshold)
             /\ (VectorSearchResult.score r >=? threshold)%js = true
             /\ (forall f p ps,
                   filters = Some f ->
                   QueryFilters.pitaka f = Some (p :: ps) ->
                   exists p', In p' (p :: ps)
                     /\ SuttaMeta.pitaka (VectorSearchResult.metadata r)
                        = PitakaType_str p')
             /\ (forall f n ns,
                   filters = Some f ->
                   QueryFilters.nikaya f = Some (n :: ns) ->
                   In (SuttaMeta.nikaya (VectorSearchResult.metadata r))
                      (n :: ns)))
          results)
  /\ (forall u,
        retrieveChunks (Some d) q topK threshold
          (Some (QueryFilters.mk (Some []) (Some []) u))
        = retrieveChunks (Some d) q topK threshold None)
  /\ retrieveChunks (Some d) q topK threshold None
     = Ok (firstn topK
             (DatabaseFacts.search_results d q (topK * 2) threshold)).
Proof.
  split; [|split; reflexivity].
  unfold retrieveChunks. rewrite DatabaseFacts.vectorSearch_open.
  set (found := DatabaseFacts.search_results d q (topK * 2) threshold).
  eexists. split; [reflexivity|].
  split; [apply JSArrayFacts.slice0_length|].
  apply Forall_forall. intros r Hr. apply JSArrayFacts.slice0_In in Hr.
  assert (Hfound : forall r0, In r0 found ->
            (VectorSearchResult.score r0 >=? threshold)%js = true).
  { intros r0 H0. apply DatabaseFacts.search_results_In in H0. tauto. }
  destruct filters as [f|]; [|repeat split; auto; discriminate].
  destruct f as [pf nf u]. cbn [QueryFilters.pitaka QueryFilters.nikaya] in *.
  set (after_pitaka :=
         match pf with
         | Some (p :: ps) =>
             filter
               (fun r =>
                  JSArray.includes
                    (SuttaMeta.pitaka (VectorSearchResult.metadata r))
                    (map PitakaType_str (p :: ps)))
               found
         | _ => found
         end) in *.
  assert (Hp : forall r0, In r0 after_pitaka ->
            In r0 found
            /\ forall p ps, pf = Some (p :: ps) ->
                 exists p', In p' (p :: ps)
                   /\ SuttaMeta.pitaka (VectorSearchResult.metadata r0)
                      = PitakaType_str p').
  { intros r0 H0. unfold after_pitaka in H0.
    destruct pf as [[|p ps]|].
    - split; [exact H0|discriminate].
    - apply filter_In in H0. destruct H0 as [H0 Hinc].
      split; [exact H0|]. intros p0 ps0 E. inversion E; subst.
      apply UserDocuments.includes_In in Hinc.
      apply in_map_iff in Hinc. destruct Hinc as [p' [Hs Hin]].
      exists p'. auto.
    - split; [exact H0|discriminate]. }
  assert (Hn : In r after_pitaka
               /\ forall n ns, nf = Some (n :: ns) ->
                    In (SuttaMeta.nikaya (VectorSearchResult.metadata r))
                       (n :: ns)).
  { destruct nf as [[|n ns]|].
    - split; [exact Hr|discriminate].
    - apply filter_In in Hr. destruct Hr as [Hr Hinc].
      split; [exact Hr|]. intros n0 ns0 E. inversion E; subst.
      apply UserDocuments.includes_In in Hinc. exact Hinc.
    - split; [exact Hr|discriminate]. }
  destruct Hn as [Hr' Hnik]. destruct (Hp r Hr') as [Hf Hpit].
  split; [exact Hf|]. split; [apply Hfound; exact Hf|]. split.
  - intros f p ps E Epf. inversion E; subst. simpl in Epf.
    apply Hpit. exact Epf.
  - intros f n ns E Enf. inversion E; subst. simpl in Enf.
    apply Hnik. exact Enf.
Qed.

(** *** The whole query *)

Lemma retrieveChunks_open (d : Database num) (q : list num) (topK : nat)
    (threshold : num) (filters : option QueryFilters.t) :
  exists results,
    retrieveChunks (Some d) q topK threshold filters = Ok results
    /\ (length results <= topK)%nat
    /\ Forall
         (fun r => (VectorSearchResult.score r >=? threshold)%js = true)
         results.
Proof.
  unfold retrieveChunks. rewrite DatabaseFacts.vectorSearch_open.
  eexists. split; [reflexivity|].
  split; [apply JSArrayFacts.slice0_length|].
  apply Forall_forall. intros r Hr. apply JSArrayFacts.slice0_In in Hr.
  assert (Hfound : In r (DatabaseFacts.search_results d q (topK * 2)
                                                      threshold)).
  { destruct filters as [[[[|p ps]|] [[|n ns]|] u]|]; simpl in Hr;
      repeat (apply filter_In in Hr; destruct Hr as [Hr _]); exact Hr. }
  apply DatabaseFacts.search_results_In in Hfound. tauto.
Qed.


(** [query.topK || DEFAULT_TOP_K] and
    [query.threshold || DEFAULT_THRESHOLD] *)
Definition requested_topK (q : RAGQuery.t num) : nat :=
  match RAGQuery.topK q with
  | Some (S k) => S k
  | _ => DEFAULT_TOP_K
  end.

Definition requested_threshold (q : RAGQuery.t num) : num :=
  match RAGQuery.threshold q with
  | Some t => if truthy t then t else DEFAULT_THRESHOLD
  | None => DEFAULT_THRESHOLD
  end.

Lemma query_open (d : Database num) q startTime endTime :
  exists retrieved,
    retrieveChunks (Some d) (getQueryEmbedding (RAGQuery.question q))
                   (requested_topK q) (requested_threshold q)
                   (RAGQuery.filters q) = Ok retrieved
    /\ query getQueryEmbedding llm_generate true (Some d) q startTime
             endTime
       = match generateAnswer llm_generate (RAGQuery.question q)
                              (buildContext retrieved) with
         | Throw msg => Throw msg
         | Ok answer =>
             Ok (RAGResponse.mk answer (buildCitations retrieved)
                   (calculateConfidence retrieved)
                   (endTime - startTime)%Z)
         end.
Proof.
  destruct (retrieveChunks_open d
              (getQueryEmbedding (RAGQuery.question q))
              (requested_topK q) (requested_threshold q)
              (RAGQuery.filters q)) as [retrieved [E _]].
  exists retrieved. split; [exact E|].
  unfold query. cbn [negb].
  fold (requested_topK q). fold (requested_threshold q).
  rewrite E. reflexivity.
Qed.

(** X17.  A response of [query] cites at most [topK] sources, each with
    a relevance that reaches the threshold, where a [topK] of 0 or
    none counts as 5 and a threshold of 0, NaN or none counts as 0.6;
    its processing time is the difference of the two clock
    readings. *)
Theorem query_respects_request (db : Handle num) (q : RAGQuery.t num)
    (startTime endTime : Z) (response : RAGResponse.t num) :
  query getQueryEmbedding llm_generate true db q startTime endTime
  = Ok response ->
  (length (RAGResponse.sources response)
   <= match RAGQuery.topK q with Some (S k) => S k | _ => 5 end)%nat
  /\ Forall
       (fun c =>
          (Citation.relevance c
           >=? match RAGQuery.threshold q with
               | Some t => if truthy t then t else (of_Z 6 / of_Z 10)%js
               | None => (of_Z 6 / of_Z 10)%js
               end)%js = true)
       (RAGResponse.sources response)
  /\ RAGResponse.processingTime response = (endTime - startTime)%Z.
Proof.
  intros E. destruct db as [d|]; [|discriminate].
  destruct (query_open d q startTime endTime) as [retrieved [HR HQ]].
  rewrite HQ in E.
  destruct (generateAnswer llm_generate (RAGQuery.question q)
                           (buildContext retrieved)) as [answer|msg];
    [|discriminate].
  inversion E; subst; clear E. cbn [RAGResponse.sources
    RAGResponse.processingTime].
  destruct (retrieveChunks_open d
              (getQueryEmbedding (RAGQuery.question q))
              (requested_topK q) (requested_threshold q)
              (RAGQuery.filters q)) as [retrieved' [E' [Hlen Hall]]].
  rewrite HR in E'. inversion E'; subst retrieved'; clear E'.
  split; [|split; [|reflexivity]].
  - unfold buildCitations. rewrite length_map. exact Hlen.
  - unfold buildCitations. apply Forall_map.
    eapply Forall_impl; [|exact Hall]. intros r Hr.
    cbn [Citation.relevance]. exact Hr.
Qed.

Lemma no_chunks_no_rows (d : Database num) :
  chunks d = [] \/ embeddings d = [] ->
  select_chunks_join_embeddings d = [].
Proof.
  unfold select_chunks_join_embeddings. intros [-> | ->];
    [reflexivity|].
  induction (chunks d) as [|c cs IH]; simpl; auto.
Qed.

(** X18.  What [query] does at the edges.  An engine that is not
    initialized throws [RAG Engine not initialized] whatever the
    database is; an initialized engine over a closed database throws
    [Database not initialized].  Finding nothing is no error: over a
    corpus without chunks or without embeddings the language model is
    still asked, with an empty context, and its answer comes back with
    no sources and confidence 0; what the model throws, [query]
    throws. *)
Theorem query_edge_cases (db : Handle num) (q : RAGQuery.t num)
    (startTime endTime : Z) :
  query getQueryEmbedding llm_generate false db q startTime endTime
  = Throw "RAG Engine not initialized"
  /\ query getQueryEmbedding llm_generate true None q startTime endTime
     = Throw "Database not initialized"
  /\ (forall d,
        chunks d = [] \/ embeddings d = [] ->
        query getQueryEmbedding llm_generate true (Some d) q startTime
              endTime
        = match generateAnswer llm_generate (RAGQuery.question q) [] with
          | Throw msg => Throw msg
          | Ok answer =>
              Ok (RAGResponse.mk answer [] (of_Z 0)
                                 (endTime - startTime)%Z)
          end).
Proof.
  split; [reflexivity|]. split; [reflexivity|].
  intros d Hd. destruct (query_open d q startTime endTime)
    as [retrieved [HR HQ]].
  rewrite HQ. unfold retrieveChunks in HR.
  rewrite DatabaseFacts.vectorSearch_open in HR.
  unfold DatabaseFacts.search_results in HR.
  rewrite (no_chunks_no_rows d Hd) in HR. simpl in HR.
  assert (retrieved = []).
  { destruct (RAGQuery.filters q) as [[[[|p ps]|] [[|n ns]|] u]|];
      simpl in HR; unfold JSArray.slice0 in HR;
      rewrite !firstn_nil in HR; inversion HR; reflexivity. }
  subst retrieved. reflexivity.
Qed.

End AnyNumbers.

Import Float64.

Lemma query_respects_request_witness :
  let response :=
    RAGFacts.Scenario.response_of
      (RAGFacts.Scenario.ask DatabaseFacts.Scenario.db_a_then_b) in
  (length (RAGResponse.sources response) <= 2)%nat
  /\ Forall (fun c => (Citation.relevance c >=? 0.5%float)%js = true)
            (RAGResponse.sources response)
  /\ RAGResponse.processingTime response = 7%Z.
Proof.
  intros response.
  assert (E : query RAGFacts.Scenario.embed RAGFacts.Scenario.llm true
                    (Some DatabaseFacts.Scenario.db_a_then_b)
                    RAGFacts.Scenario.top_two 0 7 = Ok response)
    by (vm_compute; reflexivity).
  exact (@query_respects_request float _ RAGFacts.Scenario.embed
           RAGFacts.Scenario.llm
           (Some DatabaseFacts.Scenario.db_a_then_b)
           RAGFacts.Scenario.top_two 0%Z 7%Z response E).
Defined.

End RetrievalFacts.

(* ------------------------------------------------------------------ *)
(** ** The response of a query *)
(* ------------------------------------------------------------------ *)

Module QueryFacts.

Import DatabaseService RAGEngine RAGFacts RetrievalFacts.

Section AnyNumbers.
Context {num : Type} `{JSNumber num}.
Variable getQueryEmbedding : JSString -> list num.
Variable llm_generate : JSString -> result JSString.

(** What a successful [query] is made of: the results retrieved for
    the request, the prefix of them that fits the budget, the answer
    generated from that prefix, and the sources and confidence made
    from all of them. *)
Lemma query_Ok initialized db q startTime endTime response :
  query getQueryEmbedding llm_generate initialized db q startTime endTime
  = Ok response ->
  exists searchResults n,
    retrieveChunks db (getQueryEmbedding (RAGQuery.question q))
                   (requested_topK q) (requested_threshold q)
                   (RAGQuery.filters q) = Ok searchResults
    /\ (n <= length searchResults)%nat
    /\ included searchResults = firstn n searchResults
    /\ (total_tokens (map chunk_text (firstn n searchResults)) <= 2048)%Z
    /\ (forall r, nth_error searchResults n = Some r ->
          (total_tokens (map chunk_text (firstn n searchResults))
           + estimateTokens (chunk_text r) > 2048)%Z)
    /\ generateAnswer llm_generate (RAGQuery.question q)
         (JSArray.join [10; 45; 45; 45; 10]%N
            (map chunk_text (included searchResults)))
       = Ok (RAGResponse.answer response)
    /\ RAGResponse.sources response = map citation_of searchResults
    /\ RAGResponse.confidence response = calculateConfidence searchResults.
Proof.
  unfold query. destruct (negb initialized); [discriminate|].
  fold (requested_topK q). fold (requested_threshold q).
  destruct (retrieveChunks db (getQueryEmbedding (RAGQuery.question q))
              (requested_topK q) (requested_threshold q)
              (RAGQuery.filters q)) as [searchResults|msg]; [|discriminate].
  destruct (generateAnswer llm_generate (RAGQuery.question q)
                           (buildContext searchResults))
    as [answer|msg] eqn:G; [|discriminate].
  intros E. inversion E; subst; clear E.
  cbn [RAGResponse.answer RAGResponse.sources RAGResponse.confidence].
  destruct (buildContext_loop_budget searchResults [] 0%Z)
    as [n [Hn [E [Hin Hnext]]]].
  simpl in E.
  assert (Hinc : included searchResults = firstn n searchResults).
  { unfold included. rewrite E, length_map, length_firstn.
    replace (Nat.min n (length searchResults)) with n by lia.
    reflexivity. }
  exists searchResults, n.
  split; [reflexivity|]. split; [exact Hn|]. split; [exact Hinc|].
  split; [unfold MAX_CONTEXT_TOKENS in Hin; lia|]. split.
  - intros r Hr. specialize (Hnext r Hr).
    unfold MAX_CONTEXT_TOKENS in Hnext. lia.
  - split; [|split; reflexivity].
    rewrite Hinc, <- E. exact G.
Qed.

(** C1 (as the code has it).  In the response of a query, the
    citations are those of the results retrieved for the request (its
    embedding, its [topK] or 5, its threshold or 0.6, its filters), one
    for each and in their order.  The context handed to the model is
    made of the longest prefix of those results whose estimated tokens
    stay within 2048: every result of the prefix is cited, and so is
    every result behind it, dropped by the budget. *)
Theorem citations_follow_retrieval (initialized : bool)
    (db : Handle num) (q : RAGQuery.t num)
    (startTime endTime : Z) (response : RAGResponse.t num) :
  query getQueryEmbedding llm_generate initialized db q startTime endTime
  = Ok response ->
  exists searchResults n,
    retrieveChunks db (getQueryEmbedding (RAGQuery.question q))
      match RAGQuery.topK q with Some (S k) => S k | _ => 5%nat end
      match RAGQuery.threshold q with
      | Some t => if truthy t then t else (of_Z 6 / of_Z 10)%js
      | None => (of_Z 6 / of_Z 10)%js
      end
      (RAGQuery.filters q) = Ok searchResults
    /\ RAGResponse.sources response = map citation_of searchResults
    /\ (n <= length searchResults)%nat
    /\ included searchResults = firstn n searchResults
    /\ (total_tokens (map chunk_text (firstn n searchResults)) <= 2048)%Z
    /\ (forall r, nth_error searchResults n = Some r ->
          (total_tokens (map chunk_text (firstn n searchResults))
           + estimateTokens (chunk_text r) > 2048)%Z)
    /\ generateAnswer llm_generate (RAGQuery.question q)
         (JSArray.join [10; 45; 45; 45; 10]%N
            (map chunk_text (firstn n searchResults)))
       = Ok (RAGResponse.answer response)
    /\ (forall r, In r (firstn n searchResults) ->
          In (citation_of r) (RAGResponse.sources response))
    /\ (forall r, In r (skipn n searchResults) ->
          In (citation_of r) (RAGResponse.sources response)).
Proof.
  intros E. destruct (query_Ok _ _ _ _ _ E)
    as [rs [n [HR [Hn [Hinc [Hfit [Hnext [HG [HS _]]]]]]]]].
  exists rs, n.
  split; [exact HR|]. split; [exact HS|]. split; [exact Hn|].
  split; [exact Hinc|]. split; [exact Hfit|]. split; [exact Hnext|].
  split; [rewrite <- Hinc; exact HG|].
  split; intros r Hr; rewrite HS; apply in_map;
    rewrite <- (firstn_skipn n rs); apply in_or_app; auto.
Qed.

(** C8 (as the code has it).  The confidence of a response is the
    specification's formula read over all the results retrieved for
    the request, while the context is made of those the budget lets
    in; and it is read with the constant [DEFAULT_TOP_K = 5] for
    [top_k], whatever [topK] the query asked for.  It is 0 when
    nothing was retrieved. *)
Theorem confidence_over_retrieved (initialized : bool)
    (db : Handle num) (q : RAGQuery.t num)
    (startTime endTime : Z) (response : RAGResponse.t num) :
  query getQueryEmbedding llm_generate initialized db q startTime endTime
  = Ok response ->
  exists searchResults,
    retrieveChunks db (getQueryEmbedding (RAGQuery.question q))
      match RAGQuery.topK q with Some (S k) => S k | _ => 5%nat end
      match RAGQuery.threshold q with
      | Some t => if truthy t then t else (of_Z 6 / of_Z 10)%js
      | None => (of_Z 6 / of_Z 10)%js
      end
      (RAGQuery.filters q) = Ok searchResults
    /\ generateAnswer llm_generate (RAGQuery.question q)
         (JSArray.join [10; 45; 45; 45; 10]%N
            (map chunk_text (included searchResults)))
       = Ok (RAGResponse.answer response)
    /\ RAGResponse.confidence response = spec_confidence searchResults 5
    /\ (searchResults = [] -> RAGResponse.confidence response = of_Z 0).
Proof.
  intros E. destruct (query_Ok _ _ _ _ _ E)
    as [rs [n [HR [_ [_ [_ [_ [HG [_ HC]]]]]]]]].
  exists rs.
  split; [exact HR|]. split; [exact HG|]. split.
  - rewrite HC. apply calculateConfidence_spec.
  - intros ->. rewrite HC. reflexivity.
Qed.

End AnyNumbers.

Import Float64.

Lemma citations_follow_retrieval_witness :
  let response :=
    RAGFacts.Scenario.response_of
      (RAGFacts.Scenario.ask DatabaseFacts.Scenario.db_a_then_b) in
  exists searchResults n,
    retrieveChunks (Some DatabaseFacts.Scenario.db_a_then_b)
      [1; 0]%float 2 0.5%float None = Ok searchResults
    /\ RAGResponse.sources response = map citation_of searchResults
    /\ (n <= length searchResults)%nat
    /\ included searchResults = firstn n searchResults
    /\ (total_tokens (map chunk_text (firstn n searchResults)) <= 2048)%Z
    /\ (forall r, nth_error searchResults n = Some r ->
          (total_tokens (map chunk_text (firstn n searchResults))
           + estimateTokens (chunk_text r) > 2048)%Z)
    /\ generateAnswer RAGFacts.Scenario.llm (str "q")
         (JSArray.join [10; 45; 45; 45; 10]%N
            (map chunk_text (firstn n searchResults)))
       = Ok (RAGResponse.answer response)
    /\ (forall r, In r (firstn n searchResults) ->
          In (citation_of r) (RAGResponse.sources response))
    /\ (forall r, In r (skipn n searchResults) ->
          In (citation_of r) (RAGResponse.sources response)).
Proof.
  intros response.
  assert (E : query RAGFacts.Scenario.embed RAGFacts.Scenario.llm true
                    (Some DatabaseFacts.Scenario.db_a_then_b)
                    RAGFacts.Scenario.top_two 0 7 = Ok response)
    by (vm_compute; reflexivity).
  exact (@citations_follow_retrieval float _ RAGFacts.Scenario.embed
           RAGFacts.Scenario.llm true
           (Some DatabaseFacts.Scenario.db_a_then_b)
           RAGFacts.Scenario.top_two 0%Z 7%Z response E).
Defined.

Lemma confidence_over_retrieved_witness :
  let response :=
    RAGFacts.Scenario.response_of
      (RAGFacts.Scenario.ask DatabaseFacts.Scenario.db_a_then_b) in
  exists searchResults,
    retrieveChunks (Some DatabaseFacts.Scenario.db_a_then_b)
      [1; 0]%float 2 0.5%float None = Ok searchResults
    /\ generateAnswer RAGFacts.Scenario.llm (str "q")
         (JSArray.join [10; 45; 45; 45; 10]%N
            (map chunk_text (included searchResults)))
       = Ok (RAGResponse.answer response)
    /\ RAGResponse.confidence response = spec_confidence searchResults 5
    /\ (searchResults = [] -> RAGResponse.confidence response = of_Z 0).
Proof.
  intros response.
  assert (E : query RAGFacts.Scenario.embed RAGFacts.Scenario.llm true
                    (Some DatabaseFacts.Scenario.db_a_then_b)
                    RAGFacts.Scenario.top_two 0 7 = Ok response)
    by (vm_compute; reflexivity).
  exact (@confidence_over_retrieved float _ RAGFacts.Scenario.embed
           RAGFacts.Scenario.llm true
           (Some DatabaseFacts.Scenario.db_a_then_b)
           RAGFacts.Scenario.top_two 0%Z 7%Z response E).
Defined.

End QueryFacts.

(* ------------------------------------------------------------------ *)
(** ** Chunking and storing an imported document *)
(* ------------------------------------------------------------------ *)

Module DocumentFacts.

Import DocumentProcessor.

(** *** Trimming *)

Lemma trimStart_suffix s : exists a, s = (a ++ trimStart s)%list
  /\ forallb is_space a = true.
Proof.
  induction s as [|c s IH]; simpl.
  - exists []. auto.
  - destruct (is_space c) eqn:E.
    + destruct IH as [a [Ha Hs]]. exists (c :: a). simpl.
      rewrite E, Hs. split; [congruence|reflexivity].
    + exists []. auto.
Qed.

Lemma trimEnd_prefix s : exists b, s = (trimEnd s ++ b)%list
  /\ forallb is_space b = true.
Proof.
  unfold trimEnd. destruct (trimStart_suffix (rev s)) as [a [Ha Hs]].
  exists (rev a). split.
  - rewrite <- rev_app_distr, <- Ha, rev_involutive. reflexivity.
  - rewrite forallb_forall in *. intros x Hx. apply Hs.
    apply in_rev. exact Hx.
Qed.

(** [trim] takes whitespace off both ends and nothing else. *)
Lemma trim_infix s : exists a b,
  s = (a ++ trim s ++ b)%list
  /\ forallb is_space a = true /\ forallb is_space b = true.
Proof.
  destruct (trimStart_suffix s) as [a [Ha Hsa]].
  destruct (trimEnd_prefix (trimStart s)) as [b [Hb Hsb]].
  exists a, b. unfold trim. rewrite <- Hb. auto.
Qed.

Lemma trim_length s : (length (trim s) <= length s)%nat.
Proof.
  destruct (trim_infix s) as [a [b [E _]]].
  rewrite E at 2. rewrite !length_app. lia.
Qed.

Lemma trimStart_idem s : trimStart (trimStart s) = trimStart s.
Proof.
  induction s as [|c s IH]; simpl; auto.
  destruct (is_space c) eqn:E; auto. simpl. rewrite E. reflexivity.
Qed.

Lemma trimStart_keeps_last s c :
  is_space c = false ->
  exists z, trimStart (s ++ [c]) = (z ++ [c])%list.
Proof.
  intros Hc. induction s as [|x s IH]; simpl.
  - rewrite Hc. exists []. reflexivity.
  - destruct (is_space x); [exact IH|].
    exists (x :: s). reflexivity.
Qed.

Lemma trimStart_fixed s :
  trimStart s = s <->
  match s with [] => True | c :: _ => is_space c = false end.
Proof.
  destruct s as [|c s]; simpl; [tauto|].
  destruct (is_space c) eqn:E; split; try congruence; try discriminate.
  intros Heq. exfalso.
  destruct (trimStart_suffix s) as [a [Ha _]].
  assert (Hl : length (trimStart s) = S (length s)) by (rewrite Heq; auto).
  rewrite Ha in Hl at 2. rewrite length_app in Hl. lia.
Qed.

(** A string that [trim] made has no whitespace at either end. *)
Lemma trim_idem s : trimStart (trim s) = trim s /\ trimEnd (trim s) = trim s.
Proof.
  split.
  - unfold trim, trimEnd.
    destruct (trimStart (rev (trimStart s))) as [|c r] eqn:E;
      [reflexivity|].
    (* the first code unit of [trimStart s] is not whitespace and is
       the last of its reverse *)
    destruct (trimStart s) as [|h t] eqn:Es.
    { simpl in E. discriminate. }
    assert (Hh : is_space h = false).
    { assert (Hf : trimStart (h :: t) = h :: t)
        by (rewrite <- Es; apply trimStart_idem).
      apply trimStart_fixed in Hf. exact Hf. }
    simpl rev in E.
    destruct (@trimStart_keeps_last (rev t) h Hh) as [z Hz].
    rewrite Hz in E. rewrite <- E, rev_app_distr. simpl.
    rewrite Hh. reflexivity.
  - unfold trim, trimEnd. rewrite rev_involutive, trimStart_idem.
    reflexivity.
Qed.

Lemma trim_trim s : trim (trim s) = trim s.
Proof.
  destruct (trim_idem s) as [Hs He].
  unfold trim at 1. rewrite Hs. exact He.
Qed.

(** *** The indexes of the chunks *)

Definition numbered (chunks : list Chunk) (chunkIndex : Z) : Prop :=
  map index chunks = map Z.of_nat (seq 0 (length chunks))
  /\ chunkIndex = Z.of_nat (length chunks).

Lemma push_chunk_numbered chunks chunkIndex s :
  numbered chunks chunkIndex ->
  numbered (fst (push_chunk chunks chunkIndex s))
           (snd (push_chunk chunks chunkIndex s)).
Proof.
  intros [Hm Hi]. unfold push_chunk.
  destruct (MIN_CHUNK_SIZE <=? length s)%nat; simpl; [|split; auto].
  split.
  - rewrite map_app, length_app, Hm. simpl length.
    rewrite Nat.add_1_r, seq_S, map_app. simpl. rewrite Hi. reflexivity.
  - rewrite length_app. simpl. lia.
Qed.

Lemma sentence_loop_numbered sentences chunks chunkIndex sentenceChunk :
  numbered chunks chunkIndex ->
  let '(chunks', chunkIndex', _) :=
    sentence_loop sentences chunks chunkIndex sentenceChunk in
  numbered chunks' chunkIndex'.
Proof.
  revert chunks chunkIndex sentenceChunk.
  induction sentences as [|sentence rest IH];
    intros chunks chunkIndex sentenceChunk Hn; simpl; [exact Hn|].
  destruct (length sentenceChunk + length sentence <=? CHUNK_SIZE)%nat.
  - apply IH. exact Hn.
  - pose proof (push_chunk_numbered sentenceChunk Hn) as Hp.
    destruct (push_chunk chunks chunkIndex sentenceChunk) as [c i].
    apply IH. exact Hp.
Qed.

Lemma paragraph_loop_numbered paragraphs chunks chunkIndex currentChunk :
  numbered chunks chunkIndex ->
  let '(chunks', chunkIndex', _) :=
    paragraph_loop paragraphs chunks chunkIndex currentChunk in
  numbered chunks' chunkIndex'.
Proof.
  revert chunks chunkIndex currentChunk.
  induction paragraphs as [|paragraph rest IH];
    intros chunks chunkIndex currentChunk Hn; simpl; [exact Hn|].
  destruct (length currentChunk + length paragraph <=? CHUNK_SIZE)%nat.
  - apply IH. exact Hn.
  - pose proof (push_chunk_numbered currentChunk Hn) as Hp.
    destruct (push_chunk chunks chunkIndex currentChunk) as [c i].
    simpl in Hp.
    destruct (CHUNK_SIZE <? length paragraph)%nat.
    + pose proof (sentence_loop_numbered (splitIntoSentences paragraph)
                    [] Hp) as Hs.
      destruct (sentence_loop (splitIntoSentences paragraph) c i [])
        as [[c' i'] sc].
      apply IH. exact Hs.
    + apply IH. exact Hp.
Qed.

Lemma chunkText_numbered text :
  map index (chunkText text)
  = map Z.of_nat (seq 0 (length (chunkText text))).
Proof.
  unfold chunkText.
  assert (H0 : numbered [] 0%Z) by (split; reflexivity).
  pose proof (paragraph_loop_numbered (split_paragraphs text) [] H0) as Hp.
  destruct (paragraph_loop (split_paragraphs text) [] 0%Z [])
    as [[c i] cur].
  apply (push_chunk_numbered cur) in Hp. destruct Hp as [Hm _]. exact Hm.
Qed.

(** *** Storing the chunks *)

Section Storing.
Context {num : Type} `{JSNumber num}.

Lemma storeChunks_loop_as_content (db : DatabaseService.Handle num) docId
    (chunks : list (Chunk * list num)) (i total now : Z) :
  map (fun ce => index (fst ce)) chunks
  = map (fun k => (i + Z.of_nat k)%Z) (seq 0 (length chunks)) ->
  storeChunks_loop db docId chunks total now
  = RAGEngine.addUserContent_loop db docId
      (map (fun ce => (content (fst ce), snd ce)) chunks) i total now.
Proof.
  revert db i. induction chunks as [|[chunk e] rest IH]; intros db i Hi;
    [reflexivity|].
  cbn [storeChunks_loop map RAGEngine.addUserContent_loop fst snd].
  simpl in Hi. inversion Hi as [[Hhead Htail]].
  rewrite Z.add_0_r in Hhead. rewrite Hhead.
  destruct (DatabaseService.addUserChunk db docId (content chunk) i total
                                         e now) as [[id|msg] db'];
    [|reflexivity].
  apply IH. rewrite Htail, <- seq_shift, map_map.
  apply map_ext. intros k. lia.
Qed.

(** X19.  The chunks [chunkText] makes are numbered 0, 1, 2, ... in
    their order, and each content is trimmed: it has no whitespace at
    either end.  Hence [storeChunks], given these chunks with whatever
    embeddings, writes exactly what [RAGEngine.addUserContent] writes
    for their contents: on an open database it stores chunk number [k]
    under index [k] with the number of chunks as total. *)
Theorem chunkText_numbers_chunks (text : JSString)
    (db : DatabaseService.Handle num) (docId : JSString)
    (embeddings : list (list num)) (now : Z) :
  map index (chunkText text)
  = map Z.of_nat (seq 0 (length (chunkText text)))
  /\ Forall (fun c => trim (content c) = content c) (chunkText text)
  /\ storeChunks db docId (combine (chunkText text) embeddings) now
     = RAGEngine.addUserContent db docId
         (combine (map content (chunkText text)) embeddings) now.
Proof.
  split; [apply chunkText_numbered|]. split.
  - unfold chunkText.
    assert (Hinv : forall paragraphs chunks i cur,
              Forall (fun c => trim (content c) = content c) chunks ->
              let '(chunks', _, _) :=
                paragraph_loop paragraphs chunks i cur in
              Forall (fun c => trim (content c) = content c) chunks').
    { assert (Hpush : forall chunks i s,
                Forall (fun c => trim (content c) = content c) chunks ->
                Forall (fun c => trim (content c) = content c)
                       (fst (push_chunk chunks i s))).
      { intros chunks i s Hc. unfold push_chunk.
        destruct (MIN_CHUNK_SIZE <=? length s)%nat; simpl; [|exact Hc].
        apply Forall_app. split; [exact Hc|].
        constructor; [apply trim_trim|constructor]. }
      assert (Hsent : forall sentences chunks i sc,
                Forall (fun c => trim (content c) = content c) chunks ->
                let '(chunks', _, _) := sentence_loop sentences chunks i sc in
                Forall (fun c => trim (content c) = content c) chunks').
      { induction sentences as [|sentence rest IH]; intros chunks i sc Hc;
          simpl; [exact Hc|].
        destruct (length sc + length sentence <=? CHUNK_SIZE)%nat.
        - apply IH. exact Hc.
        - pose proof (Hpush chunks i sc Hc) as Hp.
          destruct (push_chunk chunks i sc) as [c' i']. apply IH.
          exact Hp. }
      induction paragraphs as [|paragraph rest IH]; intros chunks i cur Hc;
        simpl; [exact Hc|].
      destruct (length cur + length paragraph <=? CHUNK_SIZE)%nat.
      - apply IH. exact Hc.
      - pose proof (Hpush chunks i cur Hc) as Hp.
        destruct (push_chunk chunks i cur) as [c' i']. simpl in Hp.
        destruct (CHUNK_SIZE <? length paragraph)%nat.
        + pose proof (Hsent (splitIntoSentences paragraph) c' i' [] Hp)
            as Hs.
          destruct (sentence_loop (splitIntoSentences paragraph) c' i' [])
            as [[c'' i''] sc].
          apply IH. exact Hs.
        + apply IH. exact Hp. }
    pose proof (Hinv (split_paragraphs text) [] 0%Z [] (Forall_nil _))
      as Hp.
    destruct (paragraph_loop (split_paragraphs text) [] 0%Z [])
      as [[c i] cur].
    unfold push_chunk.
    destruct (MIN_CHUNK_SIZE <=? length cur)%nat; simpl; [|exact Hp].
    apply Forall_app. split; [exact Hp|].
    constructor; [apply trim_trim|constructor].
  - unfold storeChunks, RAGEngine.addUserContent.
    rewrite !length_combine, length_map.
    set (chunks := chunkText text).
    assert (Hc : map (fun ce : Chunk * list num => (content (fst ce), snd ce))
                     (combine chunks embeddings)
                 = combine (map content chunks) embeddings).
    { clear. revert embeddings.
      induction chunks as [|c cs IH]; intros [|e es]; simpl; auto.
      rewrite IH. reflexivity. }
    rewrite <- Hc. apply storeChunks_loop_as_content.
    assert (Hidx : forall (cs : list Chunk) (es : list (list num)) n,
              map index cs = map Z.of_nat (seq n (length cs)) ->
              map (fun ce : Chunk * list num => index (fst ce))
                  (combine cs es)
              = map Z.of_nat (seq n (length (combine cs es)))).
    { induction cs as [|c cs IH]; intros [|e es] n Hm; simpl; auto.
      simpl in Hm. inversion Hm as [[Hh Ht]].
      rewrite <- (IH es (S n) Ht), Hh. reflexivity. }
    rewrite (Hidx chunks embeddings 0%nat (chunkText_numbered text)).
    apply map_ext. intros k. lia.
Qed.

End Storing.

(** *** The hash *)

Lemma ToInt32_range z : (-2147483648 <= ToInt32 z < 2147483648)%Z.
Proof.
  unfold ToInt32.
  assert (H := Z.mod_pos_bound z 4294967296 ltac:(lia)).
  destruct (Z.leb_spec 2147483648 (z mod 4294967296)); lia.
Qed.

Lemma ToInt32_congr a k : ToInt32 (a + k * 4294967296) = ToInt32 a.
Proof. unfold ToInt32. rewrite Z_mod_plus_full. reflexivity. Qed.

Lemma ToInt32_shift z : exists k, ToInt32 z = (z + k * 4294967296)%Z.
Proof.
  unfold ToInt32.
  assert (E := Z.div_mod z 4294967296 ltac:(lia)).
  destruct (Z.leb_spec 2147483648 (z mod 4294967296)).
  - exists (- (z / 4294967296) - 1)%Z. lia.
  - exists (- (z / 4294967296))%Z. lia.
Qed.

Definition hash_step (hash : Z) (char : N) : Z :=
  let hash := (shl32 hash 5 - hash + Z.of_N char)%Z in
  and32 hash hash.

Lemma hash_step_polynomial h h' c :
  h = ToInt32 h' ->
  hash_step h c = ToInt32 (31 * h' + Z.of_N c).
Proof.
  intros ->. unfold hash_step, and32, shl32. cbv zeta.
  rewrite Z.land_diag, Z.shiftl_mul_pow2 by lia.
  change (2 ^ 5)%Z with 32%Z.
  destruct (ToInt32_shift h') as [k1 E1].
  destruct (ToInt32_shift (ToInt32 h')) as [k2 E2].
  destruct (ToInt32_shift (ToInt32 (ToInt32 h') * 32)) as [k3 E3].
  rewrite E3, E2, E1.
  replace (((h' + k1 * 4294967296 + k2 * 4294967296) * 32
            + k3 * 4294967296 - (h' + k1 * 4294967296) + Z.of_N c))%Z
    with (31 * h' + Z.of_N c
          + (32 * k1 + 32 * k2 + k3 - k1) * 4294967296)%Z by lia.
  apply ToInt32_congr.
Qed.

(** X20.  [simpleHash] is the polynomial hash with multiplier 31 over
    the code units, as a signed 32-bit integer: the value of
    [31 * hash + char] taken from 0 along the string, reduced modulo
    2^32 into the range from -2^31 up to 2^31 - 1.  It is 0 for the
    empty string. *)
Theorem simpleHash_is_polynomial (s : JSString) :
  simpleHash s
  = ToInt32 (fold_left (fun hash char => 31 * hash + Z.of_N char)%Z s 0%Z)
  /\ (-2147483648 <= simpleHash s <= 2147483647)%Z
  /\ simpleHash [] = 0%Z.
Proof.
  assert (Hgen : forall (l : JSString) h h',
            h = ToInt32 h' ->
            fold_left hash_step l h
            = ToInt32 (fold_left (fun hash char => 31 * hash + Z.of_N char)%Z
                                 l h')).
  { induction l as [|c l IH]; intros h h' Hh; simpl; [exact Hh|].
    apply IH. apply hash_step_polynomial. exact Hh. }
  assert (E : simpleHash s
              = ToInt32 (fold_left
                           (fun hash char => 31 * hash + Z.of_N char)%Z
                           s 0%Z)).
  { apply (Hgen s 0%Z 0%Z). reflexivity. }
  split; [exact E|]. split; [|reflexivity].
  rewrite E.
  assert (H := ToInt32_range
                 (fold_left (fun hash char => 31 * hash + Z.of_N char)%Z
                            s 0%Z)).
  lia.
Qed.

(** *** One document at a time *)

Lemma remove_nth_length A (l : list A) i x :
  nth_error l i = Some x ->
  length (RAGEngine.remove_nth i l) = pred (length l).
Proof.
  revert i. induction l as [|y l IH]; intros [|i] Hn; simpl in *;
    try discriminate; auto.
  rewrite (IH i Hn). destruct l; [destruct i; discriminate|reflexivity].
Qed.

(** X21.  The busy mark of the document processor holds: whatever calls
    of [processDocument] arrive and finish, at most one is under way,
    and [isBusy] is true exactly while one is.  A call that arrives
    meanwhile throws [Another document is being processed] and leaves
    the mark set for the call under way. *)
Theorem one_document_at_a_time (events : list Event) :
  let s := run_events events in
  (length (processing s) <= 1)%nat
  /\ (isBusy s = true <-> processing s <> [])
  /\ (forall documentId,
        processing s <> [] ->
        processDocument_enter s documentId
        = (Throw "Another document is being processed", s)).
Proof.
  cbv zeta.
  assert (Hinv : (length (processing (run_events events)) <= 1)%nat
                 /\ (isBusy (run_events events) = true
                     <-> processing (run_events events) <> [])).
  { unfold run_events.
    induction events as [|e es IH] using rev_ind; simpl.
    - split; [lia|]. split; [discriminate|congruence].
    - rewrite fold_left_app. simpl.
      set (s := fold_left run_event es new_DocumentProcessor) in *.
      destruct IH as [Hlen Hbusy]. unfold isBusy in *.
      destruct e as [documentId|i]; simpl.
      + unfold processDocument_enter.
        destruct (isProcessing s) eqn:P; simpl.
        * rewrite P. auto.
        * assert (Hnil : processing s = []).
          { destruct (processing s); [reflexivity|].
            assert (false = true) by (apply Hbusy; discriminate).
            discriminate. }
          rewrite Hnil. simpl. split; [lia|].
          split; [discriminate|reflexivity].
      + unfold processDocument_finish.
        destruct (nth_error (processing s) i) as [d|] eqn:N; [|auto].
        simpl. rewrite (remove_nth_length _ _ N).
        split; [lia|]. split; [discriminate|].
        intros Hne. exfalso. apply Hne.
        destruct (RAGEngine.remove_nth i (processing s)) eqn:R;
          [reflexivity|].
        assert (Hl := remove_nth_length _ _ N). rewrite R in Hl.
        simpl in Hl. lia. }
  destruct Hinv as [Hlen Hbusy]. split; [exact Hlen|].
  split; [exact Hbusy|].
  intros documentId Hne. apply Hbusy in Hne. unfold isBusy in Hne.
  unfold processDocument_enter. rewrite Hne. reflexivity.
Qed.

(** *** Sentences *)

Definition nonspace (c : N) : bool := negb (is_space c).

(** A sentence-ending mark, if the string has one, is its last code
    unit. *)
Definition ends_last (s : JSString) : Prop :=
  forall pre c post,
    s = (pre ++ c :: post)%list -> is_sentence_end c = true -> post = [].

(** In a marked text every sentence-ending mark is followed by a
    newline. *)
Fixpoint marked (text : JSString) : bool :=
  match text with
  | [] => true
  | c :: rest =>
      (if is_sentence_end c
       then match rest with
            | c' :: _ => (c' =? 10)%N
            | [] => false
            end
       else true)
      && marked rest
  end.

Lemma replace_sentence_ends_marked text in_match :
  marked (replace_sentence_ends_from text in_match) = true.
Proof.
  revert in_match. induction text as [|c rest IH]; intros in_match;
    [reflexivity|].
  cbn [replace_sentence_ends_from].
  destruct (in_match && is_space c); [apply IH|].
  destruct (is_sentence_end c) eqn:E.
  - cbn [marked]. rewrite E, IH. reflexivity.
  - cbn [marked]. rewrite E, IH. reflexivity.
Qed.

Lemma replace_sentence_ends_nonspace text in_match :
  filter nonspace (replace_sentence_ends_from text in_match)
  = filter nonspace text.
Proof.
  revert in_match. induction text as [|c rest IH]; intros in_match;
    [reflexivity|].
  assert (H10 : nonspace 10 = false) by reflexivity.
  assert (Hn : nonspace c = negb (is_space c)) by reflexivity.
  cbn [replace_sentence_ends_from filter].
  destruct in_match, (is_space c), (is_sentence_end c);
    cbn [andb filter negb] in *; rewrite ?Hn, ?H10, ?IH; reflexivity.
Qed.

Lemma split_lines_nonspace text current :
  filter nonspace (concat (split_lines_from text current))
  = (filter nonspace current ++ filter nonspace text)%list.
Proof.
  revert current. induction text as [|c rest IH]; intros current.
  - simpl. rewrite !app_nil_r. reflexivity.
  - cbn [split_lines_from]. destruct (N.eqb_spec c 10) as [->|Hc].
    + cbn [concat]. rewrite filter_app, IH. reflexivity.
    + rewrite IH, filter_app, <- app_assoc.
      change (c :: rest) with ([c] ++ rest)%list.
      rewrite (filter_app nonspace [c] rest). reflexivity.
Qed.

Lemma all_space_nonspace a :
  forallb is_space a = true -> filter nonspace a = [].
Proof.
  induction a as [|c a IH]; simpl; [reflexivity|].
  intros Hs. apply andb_true_iff in Hs. destruct Hs as [Hc Ha].
  unfold nonspace at 1. rewrite Hc. simpl. auto.
Qed.

Lemma trim_nonspace s : filter nonspace (trim s) = filter nonspace s.
Proof.
  destruct (trim_infix s) as [a [b [E [Ha Hb]]]].
  rewrite E at 2. rewrite !filter_app.
  rewrite (all_space_nonspace _ Ha), (all_space_nonspace _ Hb), app_nil_r.
  reflexivity.
Qed.

Lemma trimmed_lines_nonspace (lines : list JSString) :
  filter nonspace
    (concat (filter (fun s => (0 <? length s)%nat) (map trim lines)))
  = filter nonspace (concat lines).
Proof.
  induction lines as [|l lines IH]; [reflexivity|].
  cbn [map concat]. rewrite filter_app, <- IH, <- (trim_nonspace l).
  cbn [filter].
  destruct (trim l) as [|c t]; [reflexivity|].
  cbn [length Nat.ltb Nat.leb concat]. rewrite filter_app. reflexivity.
Qed.

Lemma ends_last_snoc s c :
  forallb (fun x => negb (is_sentence_end x)) s = true ->
  ends_last (s ++ [c]).
Proof.
  intros Hs pre x post E Hx.
  destruct post as [|p post] using rev_ind; [reflexivity|]. exfalso.
  clear IHpost.
  change (pre ++ x :: post ++ [p])%list
    with (pre ++ (x :: post) ++ [p])%list in E.
  rewrite app_assoc in E. apply app_inj_tail in E. destruct E as [E _].
  rewrite forallb_forall in Hs.
  assert (Hin : In x s) by (rewrite E; apply in_or_app; right; now left).
  apply Hs in Hin. rewrite Hx in Hin. discriminate.
Qed.

Lemma ends_last_none s :
  forallb (fun x => negb (is_sentence_end x)) s = true -> ends_last s.
Proof.
  intros Hs pre x post E Hx. exfalso.
  rewrite forallb_forall in Hs.
  assert (Hin : In x s) by (rewrite E; apply in_or_app; right; now left).
  apply Hs in Hin. rewrite Hx in Hin. discriminate.
Qed.

Lemma split_lines_ends text current :
  marked text = true ->
  forallb (fun x => negb (is_sentence_end x)) current = true ->
  Forall ends_last (split_lines_from text current).
Proof.
  revert current. induction text as [|c rest IH]; intros current Hm Hc.
  - constructor; [apply ends_last_none; exact Hc|constructor].
  - cbn [marked] in Hm. apply andb_true_iff in Hm.
    destruct Hm as [Hhead Hrest]. cbn [split_lines_from].
    destruct (N.eqb_spec c 10) as [->|Hne].
    + constructor; [apply ends_last_none; exact Hc|].
      apply IH; [exact Hrest|reflexivity].
    + destruct (is_sentence_end c) eqn:E.
      * destruct rest as [|c' rest']; [discriminate|].
        apply N.eqb_eq in Hhead. subst c'.
        cbn [split_lines_from]. rewrite N.eqb_refl.
        constructor; [apply ends_last_snoc; exact Hc|].
        assert (H0 := IH [] Hrest eq_refl).
        cbn [split_lines_from] in H0. rewrite N.eqb_refl in H0.
        inversion H0; assumption.
      * apply IH; [exact Hrest|].
        rewrite forallb_app, Hc. simpl. rewrite E. reflexivity.
Qed.

Lemma split_lines_no_newline text current :
  ~ In 10%N current ->
  Forall (fun l => ~ In 10%N l) (split_lines_from text current).
Proof.
  revert current. induction text as [|c rest IH]; intros current Hc.
  - constructor; [exact Hc|constructor].
  - cbn [split_lines_from]. destruct (N.eqb_spec c 10) as [->|Hne].
    + constructor; [exact Hc|]. apply IH. intros [].
    + apply IH. intros Hin. apply in_app_or in Hin.
      destruct Hin as [Hin|[Hin|[]]]; [auto|congruence].
Qed.

(** X22.  The sentences [splitIntoSentences] returns are never empty and
    have no whitespace at either end and no newline inside; a
    sentence-ending mark ([.], [!], [?] or one of the three wide
    forms) occurs in a sentence only as its last code unit.  Nothing
    but whitespace is lost: the sentences, put one after the other,
    have the code units of the text that are not whitespace, in the
    same order. *)
Theorem splitIntoSentences_sentences (text : JSString) :
  Forall
    (fun s =>
       s <> []
       /\ trim s = s
       /\ ~ In 10%N s
       /\ (forall pre c post,
             s = (pre ++ c :: post)%list ->
             is_sentence_end c = true -> post = []))
    (splitIntoSentences text)
  /\ filter (fun c => negb (is_space c)) (concat (splitIntoSentences text))
     = filter (fun c => negb (is_space c)) text.
Proof.
  split.
  - apply Forall_forall. intros s Hin. unfold splitIntoSentences in Hin.
    apply filter_In in Hin. destruct Hin as [Hin Hlen].
    apply in_map_iff in Hin. destruct Hin as [l [<- Hl]].
    unfold split_lines, replace_sentence_ends in Hl.
    destruct (trim_infix l) as [a [b [E _]]].
    split; [|split; [|split]].
    + intros Hnil. rewrite Hnil in Hlen. discriminate.
    + apply trim_trim.
    + pose proof (@split_lines_no_newline
                    (replace_sentence_ends_from text false) []
                    (fun H => H)) as Hno.
      rewrite Forall_forall in Hno. specialize (Hno l Hl).
      intros Hin. apply Hno. rewrite E.
      apply in_or_app. right. apply in_or_app. left. exact Hin.
    + pose proof (@split_lines_ends
                    (replace_sentence_ends_from text false) []
                    (replace_sentence_ends_marked text false) eq_refl)
        as Hends.
      rewrite Forall_forall in Hends. specialize (Hends l Hl).
      intros pre c post Es Hc.
      assert (Hall : (post ++ b)%list = []).
      { apply (Hends (a ++ pre)%list c (post ++ b)%list); [|exact Hc].
        rewrite E at 1. rewrite Es, <- !app_assoc. reflexivity. }
      apply app_eq_nil in Hall. tauto.
  - unfold splitIntoSentences.
    change (fun c => negb (is_space c)) with nonspace.
    rewrite trimmed_lines_nonspace. unfold split_lines.
    rewrite split_lines_nonspace. simpl.
    apply replace_sentence_ends_nonspace.
Qed.

(** *** Short texts *)

(** The length of the paragraphs, counting the separator that
    [chunkText] puts back after each. *)
Definition weight (paragraphs : list JSString) : nat :=
  fold_right (fun p total => length p + 2 + total)%nat 0%nat paragraphs.

Lemma split_paragraphs_weight n : forall text current in_separator,
  (length text <= n)%nat ->
  (weight (split_paragraphs_from text current in_separator)
   <= length current + length text + 2)%nat.
Proof.
  induction n as [|n IH]; intros text current in_separator Hn.
  - destruct text; [simpl; lia|simpl in Hn; lia].
  - destruct text as [|c rest]; [simpl; lia|].
    simpl in Hn. cbn [split_paragraphs_from].
    destruct (in_separator && (c =? 10)%N).
    + specialize (IH rest current true ltac:(lia)). simpl length. lia.
    + destruct rest as [|c' rest'].
      * simpl. rewrite length_app. simpl. lia.
      * destruct ((c =? 10)%N && (c' =? 10)%N).
        -- cbn [weight fold_right]. fold (weight
             (split_paragraphs_from rest' [] true)).
           simpl in Hn.
           specialize (IH rest' [] true ltac:(lia)). simpl in *. lia.
        -- specialize (IH (c' :: rest') (current ++ [c])%list false
                          ltac:(simpl in *; lia)).
           rewrite length_app in IH. simpl in *. lia.
Qed.

Definition joined_length (currentChunk : JSString) : nat :=
  match currentChunk with
  | [] => 0
  | _ => length currentChunk + 2
  end.

Lemma paragraph_loop_small paragraphs chunks chunkIndex currentChunk :
  (joined_length currentChunk + weight paragraphs <= CHUNK_SIZE)%nat ->
  exists final,
    paragraph_loop paragraphs chunks chunkIndex currentChunk
    = (chunks, chunkIndex, final)
    /\ (joined_length final
        <= joined_length currentChunk + weight paragraphs)%nat.
Proof.
  revert currentChunk.
  induction paragraphs as [|p rest IH]; intros cur Hq.
  - exists cur. simpl. split; [reflexivity|lia].
  - cbn [weight fold_right] in *. fold (weight rest) in *.
    cbn [paragraph_loop].
    assert (Hfit : (length cur + length p <=? CHUNK_SIZE)%nat = true).
    { apply Nat.leb_le. unfold joined_length in Hq.
      destruct cur; simpl in *; lia. }
    rewrite Hfit.
    set (next := (cur ++ match cur with [] => [] | _ => [10; 10]%N end
                      ++ p)%list).
    assert (Hnext : (joined_length next
                     <= joined_length cur + (length p + 2))%nat).
    { unfold next, joined_length. destruct cur as [|c cur].
      - simpl. destruct p; simpl; lia.
      - simpl. rewrite !length_app. simpl. lia. }
    destruct (IH next ltac:(lia)) as [final [E Hf]].
    exists final. split; [exact E|lia].
Qed.

(** X23.  A text of at most 498 code units gives at most one chunk, and
    a text of fewer than 100 code units gives none: whatever is
    shorter than [MIN_CHUNK_SIZE] is dropped, so such a document is
    stored without any chunk. *)
Theorem chunkText_short_text (text : JSString) :
  (length text <= 498)%nat ->
  (length (chunkText text) <= 1)%nat
  /\ ((length text < 100)%nat -> chunkText text = []).
Proof.
  intros Hlen. unfold chunkText.
  pose proof (@split_paragraphs_weight (length text) text [] false
                (Nat.le_refl _)) as Hw.
  fold (split_paragraphs text) in Hw. simpl in Hw.
  destruct (@paragraph_loop_small (split_paragraphs text) [] 0%Z [])
    as [final [E Hf]].
  { simpl. unfold CHUNK_SIZE. lia. }
  rewrite E. unfold push_chunk. simpl in Hf.
  destruct (MIN_CHUNK_SIZE <=? length final)%nat eqn:Hmin; simpl.
  - split; [lia|]. intros Hshort. exfalso.
    apply Nat.leb_le in Hmin. unfold MIN_CHUNK_SIZE in Hmin.
    unfold joined_length in Hf. destruct final; simpl in *; lia.
  - split; [lia|reflexivity].
Qed.

(** *** How long a chunk can be *)

Lemma sentence_trimmed text s :
  In s (splitIntoSentences text) -> trim s = s.
Proof.
  unfold splitIntoSentences. intros Hin. apply filter_In in Hin.
  destruct Hin as [Hin _]. apply in_map_iff in Hin.
  destruct Hin as [l [<- _]]. apply trim_trim.
Qed.

Section Sizes.
Variable Sent : JSString -> Prop.
Hypothesis Sent_trimmed : forall s, Sent s -> trim s = s.

Definition good_piece (s : JSString) : Prop :=
  (length s <= 502)%nat \/ Sent s.

Definition good_chunk (c : Chunk) : Prop := good_piece (content c).

Lemma push_chunk_good chunks chunkIndex s :
  Forall good_chunk chunks -> good_piece s ->
  Forall good_chunk (fst (push_chunk chunks chunkIndex s)).
Proof.
  intros Hc Hs. unfold push_chunk.
  destruct (MIN_CHUNK_SIZE <=? length s)%nat; simpl; [|exact Hc].
  apply Forall_app. split; [exact Hc|].
  constructor; [|constructor]. unfold good_chunk; simpl.
  destruct Hs as [Hs|Hs].
  - left. pose proof (trim_length s). lia.
  - right. rewrite (Sent_trimmed Hs). exact Hs.
Qed.

Lemma sentence_loop_good sentences chunks chunkIndex sentenceChunk :
  Forall Sent sentences ->
  Forall good_chunk chunks -> good_piece sentenceChunk ->
  let '(chunks', _, sentenceChunk') :=
    sentence_loop sentences chunks chunkIndex sentenceChunk in
  Forall good_chunk chunks' /\ good_piece sentenceChunk'.
Proof.
  revert chunks chunkIndex sentenceChunk.
  induction sentences as [|sentence rest IH];
    intros chunks chunkIndex sc Hs Hc Hsc; simpl; [auto|].
  inversion Hs as [|? ? Hsent Hrest]; subst.
  destruct (length sc + length sentence <=? CHUNK_SIZE)%nat eqn:Hfit.
  - apply IH; auto. left. apply Nat.leb_le in Hfit.
    unfold CHUNK_SIZE in Hfit. rewrite !length_app.
    destruct sc; simpl in *; lia.
  - pose proof (push_chunk_good chunkIndex Hc Hsc) as Hp.
    destruct (push_chunk chunks chunkIndex sc) as [c' i'].
    apply IH; auto. right. exact Hsent.
Qed.

Lemma paragraph_loop_good paragraphs chunks chunkIndex currentChunk :
  Forall (fun p => Forall Sent (splitIntoSentences p)) paragraphs ->
  Forall good_chunk chunks -> good_piece currentChunk ->
  let '(chunks', _, currentChunk') :=
    paragraph_loop paragraphs chunks chunkIndex currentChunk in
  Forall good_chunk chunks' /\ good_piece currentChunk'.
Proof.
  revert chunks chunkIndex currentChunk.
  induction paragraphs as [|p rest IH];
    intros chunks chunkIndex cur Hp Hc Hcur; simpl; [auto|].
  inversion Hp as [|? ? Hsent Hrest]; subst.
  destruct (length cur + length p <=? CHUNK_SIZE)%nat eqn:Hfit.
  - apply IH; auto. left. apply Nat.leb_le in Hfit.
    unfold CHUNK_SIZE in Hfit. rewrite !length_app.
    destruct cur; simpl in *; lia.
  - pose proof (push_chunk_good chunkIndex Hc Hcur) as Hpush.
    destruct (push_chunk chunks chunkIndex cur) as [c' i'].
    simpl in Hpush.
    destruct (CHUNK_SIZE <? length p)%nat eqn:Hlong.
    + assert (Hempty : good_piece []) by (left; simpl; lia).
      pose proof (@sentence_loop_good (splitIntoSentences p) c' i' []
                    Hsent Hpush Hempty) as Hs.
      destruct (sentence_loop (splitIntoSentences p) c' i' [])
        as [[c'' i''] sc].
      destruct Hs as [Hs1 Hs2]. apply IH; auto.
    + apply IH; auto. left. apply Nat.ltb_ge in Hlong.
      unfold CHUNK_SIZE in Hlong. lia.
Qed.

End Sizes.

(** X24.  A chunk is not held to [CHUNK_SIZE]: each chunk [chunkText]
    makes has at most 502 code units, or else it is, whole, one
    sentence of a paragraph of the text, however long that sentence
    is. *)
Theorem chunkText_chunk_sizes (text : JSString) :
  Forall
    (fun c =>
       (length (content c) <= 502)%nat
       \/ exists paragraph,
            In paragraph (split_paragraphs text)
            /\ In (content c) (splitIntoSentences paragraph))
    (chunkText text).
Proof.
  set (Sent := fun s => exists paragraph,
                  In paragraph (split_paragraphs text)
                  /\ In s (splitIntoSentences paragraph)).
  assert (Htrim : forall s, Sent s -> trim s = s).
  { intros s [p [_ Hs]]. exact (sentence_trimmed _ _ Hs). }
  assert (Hall : Forall (fun p => Forall Sent (splitIntoSentences p))
                        (split_paragraphs text)).
  { apply Forall_forall. intros p Hp. apply Forall_forall. intros s Hs.
    exists p. auto. }
  assert (Hempty : good_piece Sent []) by (left; simpl; lia).
  pose proof (@paragraph_loop_good Sent Htrim (split_paragraphs text) []
                0%Z [] Hall (Forall_nil _) Hempty) as Hloop.
  unfold chunkText.
  destruct (paragraph_loop (split_paragraphs text) [] 0%Z [])
    as [[chunks i] cur].
  destruct Hloop as [Hc Hcur].
  exact (@push_chunk_good Sent Htrim chunks i cur Hc Hcur).
Qed.

Lemma chunkText_short_text_witness :
  (length (chunkText (str "evam me sutam")) <= 1)%nat
  /\ ((length (str "evam me sutam") < 100)%nat ->
      chunkText (str "evam me sutam") = []).
Proof.
  apply (@chunkText_short_text (str "evam me sutam")).
  vm_compute. lia.
Defined.

End DocumentFacts.

(* ------------------------------------------------------------------ *)
(** ** The services that load models *)
(* ------------------------------------------------------------------ *)

Module ModelClients.

Import ModelManager ModelManagerFacts.
Open Scope Z_scope.

Lemma unloaded_after_unloadModel k s :
  isModelLoaded k (snd (unloadModel k s)) = false.
Proof.
  unfold isModelLoaded.
  destruct (JSMap.get k (models s)) as [model|] eqn:E.
  - rewrite (ModelLifecycle.unloadModel_known _ _ E). simpl.
    rewrite (@get_set_same _ k model (set_loaded false model) _ E).
    reflexivity.
  - rewrite (ModelLifecycle.unloadModel_unknown _ _ E). simpl.
    rewrite E. reflexivity.
Qed.

Lemma unloadModel_keeps_downloaded k k' s :
  isModelDownloaded k' (snd (unloadModel k s)) = isModelDownloaded k' s.
Proof.
  assert (Hv : same_view downloaded s (snd (unloadModel k s))).
  { apply (unloadModel_frame (same_view downloaded)); eauto using same_view_refl, same_view_trans, same_view_drop,
                  same_view_initialized, same_view_loaded,
                  same_view_downloaded. }
  pose proof (view_get downloaded s _ k' Hv) as Hg.
  unfold isModelDownloaded.
  destruct (JSMap.get k' (models (snd (unloadModel k s))));
    destruct (JSMap.get k' (models s)); simpl in Hg; congruence.
Qed.

(** [loadModel] of a downloaded model, on a state a client can
    reach. *)
Lemma reachable_load_downloaded cs k :
  let s := run_calls cs new_ModelManager in
  isModelDownloaded k s = true ->
  exists model,
    JSMap.get k (models s) = Some model
    /\ loadModel k s = (Ok JSnull, write_model k (set_loaded true model) s).
Proof.
  intros s Hd. pose proof (reachable_loadModel cs k) as Hl.
  cbv zeta in Hl. fold s in Hl. unfold isModelDownloaded in Hd.
  destruct (JSMap.get k (models s)) as [model|] eqn:E; [|discriminate].
  exists model. split; [reflexivity|]. rewrite Hl, Hd. reflexivity.
Qed.

Lemma loaded_after_write k model s :
  JSMap.get k (models s) = Some model ->
  isModelLoaded k (write_model k (set_loaded true model) s) = true.
Proof.
  intros E. unfold isModelLoaded; simpl.
  rewrite (@get_set_same _ k model (set_loaded true model) _ E).
  reflexivity.
Qed.

Lemma other_after_write k k' v s :
  k' <> k ->
  isModelLoaded k' (write_model k v s) = isModelLoaded k' s.
Proof.
  intros Hk. unfold isModelLoaded; simpl.
  rewrite (ModelLifecycle.get_set_other _ _ Hk). reflexivity.
Qed.

Lemma model_id_injective a b :
  ASRService.model_id a = ASRService.model_id b -> a = b.
Proof. destruct a, b; simpl; intros E; congruence || discriminate. Qed.

(** X25.  Switching the speech model.  When [ASRService] has one model
    loaded and [initialize] asks for the other, the old model is
    unloaded in the manager first, whatever follows.  If the new model
    is not downloaded the call throws and the service is left with no
    model loaded, though it now names the new one; if it is downloaded
    and the native module loads it (or is absent), the call succeeds
    and the manager has the new model loaded and the old one not. *)
Theorem asr_switch_model (calls : list Call) (native : NativeLoad)
    (old new : VoicePipeline.ASRModel) (s : ASRService.State) :
  ASRService.isLoaded s = true ->
  ASRService.modelType s = Some old ->
  old <> new ->
  let manager := run_calls calls new_ModelManager in
  let out := ASRService.initialize native new s manager in
  let s' := fst (snd out) in
  let manager' := snd (snd out) in
  ASRService.modelType s' = Some new
  /\ isModelLoaded (ASRService.model_id old) manager' = false
  /\ (isModelDownloaded (ASRService.model_id new) manager = false ->
      fst out = Throw ("ASR model " ++ ASRService.model_id new
                       ++ " not downloaded")%string
      /\ ASRService.isReady s' = false)
  /\ (isModelDownloaded (ASRService.model_id new) manager = true ->
      native = NoModule \/ native = Resolves true ->
      fst out = Ok tt
      /\ ASRService.isReady s' = true
      /\ isModelLoaded (ASRService.model_id new) manager' = true).
Proof.
  intros Hloaded Htype Hneq. cbv zeta.
  set (manager := run_calls calls new_ModelManager).
  set (m1 := snd (unloadModel (ASRService.model_id old) manager)).
  assert (Hm1 : m1 = run_calls (calls ++ [CallUnloadModel
                                            (ASRService.model_id old)])
                               new_ModelManager).
  { unfold m1, manager. rewrite run_calls_snoc. reflexivity. }
  assert (Hsame : ASRService.ASRModel_eqb old new = false)
    by (destruct old, new; simpl; congruence).
  assert (Hids : ASRService.model_id old <> ASRService.model_id new)
    by (intros E; apply Hneq, model_id_injective, E).
  assert (Hold : isModelLoaded (ASRService.model_id old) m1 = false)
    by apply unloaded_after_unloadModel.
  assert (Hd : isModelDownloaded (ASRService.model_id new) m1
               = isModelDownloaded (ASRService.model_id new) manager)
    by apply unloadModel_keeps_downloaded.
  assert (Hinit :
    ASRService.initialize native new s manager
    = if negb (isModelDownloaded (ASRService.model_id new) m1)
      then (Throw ("ASR model " ++ ASRService.model_id new
                   ++ " not downloaded")%string,
            (ASRService.mkState (Some new) false, m1))
      else
        match native with
        | Rejects msg =>
            (Throw msg, (ASRService.mkState (Some new) false, m1))
        | _ =>
            let loaded :=
              match native with Resolves loaded => loaded | _ => true end in
            if loaded
            then
              match loadModel (ASRService.model_id new) m1 with
              | (Throw msg, m2) =>
                  (Throw msg, (ASRService.mkState (Some new) loaded, m2))
              | (Ok _, m2) =>
                  (Ok tt, (ASRService.mkState (Some new) loaded, m2))
              end
            else (Ok tt, (ASRService.mkState (Some new) loaded, m1))
        end).
  { unfold ASRService.initialize, ASRService.unload.
    rewrite Hloaded, Htype, Hsame. reflexivity. }
  rewrite Hinit, Hd. clear Hinit.
  destruct (isModelDownloaded (ASRService.model_id new) manager) eqn:D;
    cbn [negb].
  - (* downloaded *)
    assert (D1 : isModelDownloaded (ASRService.model_id new) m1 = true)
      by congruence.
    rewrite Hm1 in D1.
    destruct (reachable_load_downloaded _ _ D1) as [model [E Hl]].
    rewrite <- Hm1 in E, Hl.
    destruct native as [|[|]|msg]; cbv zeta; cbn [fst snd];
      rewrite ?Hl; cbn [fst snd ASRService.modelType];
      (split; [reflexivity|]); (split; [|split; [discriminate|]]);
      try (rewrite other_after_write by exact Hids); try exact Hold.
    + intros _ _. split; [reflexivity|]. split; [reflexivity|].
      apply loaded_after_write. exact E.
    + intros _ _. split; [reflexivity|]. split; [reflexivity|].
      apply loaded_after_write. exact E.
    + intros _ [Hn|Hn]; discriminate.
    + intros _ [Hn|Hn]; discriminate.
  - cbn [fst snd ASRService.modelType].
    split; [reflexivity|]. split; [exact Hold|].
    split; [|discriminate]. intros _. split; reflexivity.
Qed.

Lemma asr_switch_model_witness :
  let s := ASRService.mkState (Some VoicePipeline.whisper_tiny_thai) true in
  let manager :=
    run_calls [CallDownloadModel "whisper-small-thai" 200]
              new_ModelManager in
  let out :=
    ASRService.initialize NoModule VoicePipeline.whisper_small_thai s
                          manager in
  let s' := fst (snd out) in
  let manager' := snd (snd out) in
  ASRService.modelType s' = Some VoicePipeline.whisper_small_thai
  /\ isModelLoaded "whisper-tiny-thai" manager' = false
  /\ (isModelDownloaded "whisper-small-thai" manager = false ->
      fst out = Throw "ASR model whisper-small-thai not downloaded"
      /\ ASRService.isReady s' = false)
  /\ (isModelDownloaded "whisper-small-thai" manager = true ->
      NoModule = NoModule \/ NoModule = Resolves true ->
      fst out = Ok tt
      /\ ASRService.isReady s' = true
      /\ isModelLoaded "whisper-small-thai" manager' = true).
Proof.
  intros s manager.
  apply (@asr_switch_model
           [CallDownloadModel "whisper-small-thai" 200] NoModule
           VoicePipeline.whisper_tiny_thai VoicePipeline.whisper_small_thai
           s); [reflexivity|reflexivity|discriminate].
Defined.

End ModelClients.
